(** * opencode-plugin-simple-memory: the record codec, the memory store and
      the JSONL event logger of [src/index.ts], embedded and verified.

    Strings are JavaScript strings whose code units lie in U+0000..U+00FF,
    carried by [string] (one [ascii] per code unit).  The functions of the
    JavaScript standard library the plugin calls ([includes], [split],
    [join], [trim], [toLowerCase], [replace] with a global pattern,
    [String.prototype.match]) are written out below with the semantics of
    ECMAScript on that range. *)

From Stdlib Require Import String Ascii List Bool Arith Lia.
From Stdlib Require Import Permutation Sorted.
From Stdlib Require Import Numbers.DecimalString.
Import ListNotations.
Open Scope list_scope.
Open Scope string_scope.

Set Implicit Arguments.

(** ** Characters *)

Definition dquote : ascii := "034"%char.
Definition backslash : ascii := "\"%char.
Definition newline : ascii := "010"%char.
Definition comma : ascii := ","%char.

Definition codeIn (c : ascii) (codes : list nat) : bool :=
  existsb (Nat.eqb (nat_of_ascii c)) codes.

(** [\s] of ECMAScript regular expressions, which is also what [trim]
    strips: TAB, LF, VT, FF, CR, SPACE and NBSP are the members below
    U+0100. *)
Definition isSpace (c : ascii) : bool := codeIn c [9; 10; 11; 12; 13; 32; 160].

Definition notSpace (c : ascii) : bool := negb (isSpace c).
Definition isQuote (c : ascii) : bool := Ascii.eqb c dquote.
Definition notQuote (c : ascii) : bool := negb (isQuote c).

(** [toLowerCase] on one code unit: A-Z, and the Latin-1 capitals
    U+00C0..U+00DE without the multiplication sign U+00D7. *)
Definition lowerChar (c : ascii) : ascii :=
  let n := nat_of_ascii c in
  if ((65 <=? n)%nat && (n <=? 90)%nat)
     || ((192 <=? n)%nat && (n <=? 222)%nat && negb (n =? 215)%nat)
  then ascii_of_nat (n + 32) else c.

(** ** Strings *)

Fixpoint smap (f : ascii -> ascii) (s : string) : string :=
  match s with
  | EmptyString => EmptyString
  | String c s' => String (f c) (smap f s')
  end.

Definition toLowerCase (s : string) : string := smap lowerChar s.

Definition isEmpty (s : string) : bool :=
  match s with EmptyString => true | String _ _ => false end.

(** [dropPrefix p s] is the rest of [s] after the literal [p], when [s]
    starts with it. *)
Fixpoint dropPrefix (p s : string) : option string :=
  match p with
  | EmptyString => Some s
  | String a p' =>
      match s with
      | EmptyString => None
      | String b s' => if Ascii.eqb a b then dropPrefix p' s' else None
      end
  end.

Definition startsWith (p s : string) : bool :=
  match dropPrefix p s with Some _ => true | None => false end.

(** [s.includes(sub)] *)
Fixpoint includes (s sub : string) : bool :=
  startsWith sub s
  || match s with
     | EmptyString => false
     | String _ s' => includes s' sub
     end.

Fixpoint take (n : nat) (s : string) : string :=
  match n, s with
  | S n', String c s' => String c (take n' s')
  | _, _ => EmptyString
  end.

Fixpoint takeWhile (p : ascii -> bool) (s : string) : string :=
  match s with
  | String c s' => if p c then String c (takeWhile p s') else EmptyString
  | EmptyString => EmptyString
  end.

Fixpoint dropWhile (p : ascii -> bool) (s : string) : string :=
  match s with
  | String c s' => if p c then dropWhile p s' else s
  | EmptyString => EmptyString
  end.

Fixpoint sall (p : ascii -> bool) (s : string) : bool :=
  match s with
  | String c s' => p c && sall p s'
  | EmptyString => true
  end.

Fixpoint srev_onto (s acc : string) : string :=
  match s with
  | EmptyString => acc
  | String c s' => srev_onto s' (String c acc)
  end.

Definition srev (s : string) : string := srev_onto s EmptyString.

(** [s.trim()] *)
Definition trim (s : string) : string :=
  srev (dropWhile isSpace (srev (dropWhile isSpace s))).

(** [s.split(sep)] for a one-character separator: never empty, one piece
    more than there are separators. *)
Fixpoint splitOn (sep : ascii) (s : string) : list string :=
  match s with
  | EmptyString => [EmptyString]
  | String c s' =>
      if Ascii.eqb c sep then EmptyString :: splitOn sep s'
      else match splitOn sep s' with
           | piece :: rest => String c piece :: rest
           | [] => [String c EmptyString]
           end
  end.

(** [pieces.join(sep)] *)
Fixpoint join (sep : string) (pieces : list string) : string :=
  match pieces with
  | [] => EmptyString
  | [p] => p
  | p :: rest => p ++ sep ++ join sep rest
  end.

(** [s.split(/\s+/)]: the pieces between maximal runs of white space; a
    leading or trailing run leaves an empty piece at that end. *)
Fixpoint splitSpaces (s : string) : list string :=
  match s with
  | EmptyString => [EmptyString]
  | String c s' =>
      if isSpace c then
        match s' with
        | String d _ => if isSpace d then splitSpaces s'
                        else EmptyString :: splitSpaces s'
        | EmptyString => [EmptyString; EmptyString]
        end
      else match splitSpaces s' with
           | piece :: rest => String c piece :: rest
           | [] => [String c EmptyString]
           end
  end.

(** [.filter(Boolean)] on an array of strings *)
Definition filterBoolean (l : list string) : list string :=
  filter (fun s => negb (isEmpty s)) l.

(** [query.toLowerCase().split(/\s+/).filter(Boolean)] *)
Definition queryWords (query : string) : list string :=
  filterBoolean (splitSpaces (toLowerCase query)).

(** [s.replace(/Q/g, '\Q')], Q the double-quote character *)
Fixpoint escapeQuotes (s : string) : string :=
  match s with
  | EmptyString => EmptyString
  | String c s' =>
      if isQuote c then String backslash (String dquote (escapeQuotes s'))
      else String c (escapeQuotes s')
  end.

(** [s.replace(/\Q/g, 'Q')], Q the double-quote character *)
Fixpoint unescapeQuotes (s : string) : string :=
  match s with
  | EmptyString => EmptyString
  | String c s' =>
      match s' with
      | String d s'' =>
          if Ascii.eqb c backslash && isQuote d
          then String dquote (unescapeQuotes s'')
          else String c (unescapeQuotes s')
      | EmptyString => String c EmptyString
      end
  end.

Definition showNat (n : nat) : string := NilZero.string_of_uint (Nat.to_uint n).

(** ** Regular expressions

    [String.prototype.match] with a non-global pattern is a backtracking
    search: the pattern is tried at each start index from the left, and at
    one index the alternatives are explored in priority order (a greedy
    quantifier first takes as many iterations as it can, and gives them
    back one at a time only when what follows fails).  The matcher below
    is that procedure in continuation-passing style, for the constructs
    the plugin's patterns use; it returns the text of capture group 1. *)

Inductive regex : Type :=
| Lit (s : string)                (* a literal sequence of characters *)
| Cls (p : ascii -> bool)         (* a character class *)
| Cat (r1 r2 : regex)
| Star (r : regex)                (* greedy [r*] *)
| Grp (r : regex).                (* the capturing group *)

(** [r+] *)
Definition Plus (r : regex) : regex := Cat r (Star r).

Section Matcher.
(** The result of a successful match: what group 1 captured, if it took
    part in the match. *)
Let Result := option string.
Let Cont := string -> option string -> option Result.

(** Greedy iteration of [body]: an iteration that consumes nothing is
    rejected, so at most [length s] iterations are ever taken. *)
Definition starLoop
    (body : string -> option string -> Cont -> option Result) (k : Cont)
  : nat -> string -> option string -> option Result :=
  fix loop (n : nat) (s : string) (cap : option string) :=
    match n with
    | O => k s cap
    | S n' =>
        match body s cap
                (fun s' cap' =>
                   if (String.length s' <? String.length s)%nat then loop n' s' cap'
                   else None) with
        | Some res => Some res
        | None => k s cap
        end
    end.

Fixpoint exec (r : regex) (s : string) (cap : option string) (k : Cont)
  : option Result :=
  match r with
  | Lit l =>
      match dropPrefix l s with
      | Some s' => k s' cap
      | None => None
      end
  | Cls p =>
      match s with
      | String c s' => if p c then k s' cap else None
      | EmptyString => None
      end
  | Cat r1 r2 => exec r1 s cap (fun s' cap' => exec r2 s' cap' k)
  | Star r1 => starLoop (exec r1) k (String.length s) s cap
  | Grp r1 =>
      exec r1 s cap
        (fun s' _ =>
           k s' (Some (take (String.length s - String.length s') s)))
  end.

(** The pattern anchored at the start of [s]. *)
Definition matchHere (r : regex) (s : string) : option Result :=
  exec r s None (fun _ cap => Some cap).

(** [s.match(r)]: the leftmost start index at which [r] matches. *)
Fixpoint search (r : regex) (s : string) : option Result :=
  match matchHere r s with
  | Some res => Some res
  | None =>
      match s with
      | EmptyString => None
      | String _ s' => search r s'
      end
  end.
End Matcher.

(** [m?.[1]] on the result of [match] *)
Definition group1 (m : option (option string)) : option string :=
  match m with
  | Some cap => cap
  | None => None
  end.

(** JavaScript truthiness of [string | undefined] *)
Definition truthy (v : option string) : bool :=
  match v with
  | Some s => negb (isEmpty s)
  | None => false
  end.

(** ** The record codec *)

Record Memory : Type := mkMemory {
  ts : string;
  type : string;
  scope : string;
  content : string;
  issue : option string;
  tags : option (list string)
}.

(** [/key=([^\s]+)/] *)
Definition fieldPattern (key : string) : regex :=
  Cat (Lit (key ++ "=")) (Grp (Plus (Cls notSpace))).

(** The pattern of the content field: the literal [content=], the
    opening double quote, the capturing group (a greedy run of
    non-quotes, then greedily any number of backslash-quote pairs each
    followed by a greedy run of non-quotes), the closing double quote. *)
Definition contentPattern : regex :=
  Cat (Lit "content=")
    (Cat (Cls isQuote)
       (Cat (Grp (Cat (Star (Cls notQuote))
                      (Star (Cat (Lit (String backslash (String dquote EmptyString)))
                                 (Star (Cls notQuote))))))
            (Cls isQuote))).

Definition parseLine (line : string) : option Memory :=
  let tsMatch := search (fieldPattern "ts") line in
  let typeMatch := search (fieldPattern "type") line in
  let scopeMatch := search (fieldPattern "scope") line in
  let contentMatch := search contentPattern line in
  let issueMatch := search (fieldPattern "issue") line in
  let tagsMatch := search (fieldPattern "tags") line in
  match group1 tsMatch, group1 typeMatch, group1 scopeMatch with
  | Some t, Some ty, Some sc =>
      if isEmpty t || isEmpty ty || isEmpty sc then None
      else Some {| ts := t;
                   type := ty;
                   scope := sc;
                   content := match group1 contentMatch with
                              | Some c => unescapeQuotes c
                              | None => EmptyString
                              end;
                   issue := group1 issueMatch;
                   tags := option_map (splitOn comma) (group1 tagsMatch) |}
  | _, _, _ => None
  end.

(** The line that [remember] and [update] write for a record: the
    template [ts=.. type=.. scope=.. content=Q..Q] followed by the issue
    and tags tokens when they are truthy, without the line terminator. *)
Definition issueToken (i : option string) : string :=
  match i with
  | Some v => if isEmpty v then EmptyString else " issue=" ++ v
  | None => EmptyString
  end.

Definition tagsToken (t : option (list string)) : string :=
  match t with
  | Some ((_ :: _) as l) => " tags=" ++ join "," l
  | _ => EmptyString
  end.

Definition quoted (s : string) : string :=
  String dquote (escapeQuotes s ++ String dquote EmptyString).

Definition encodeLine (ts type scope content : string)
    (issue : option string) (tags : option (list string)) : string :=
  "ts=" ++ ts ++ " type=" ++ type ++ " scope=" ++ scope
  ++ " content=" ++ quoted content ++ issueToken issue ++ tagsToken tags.

Definition encodeMemory (m : Memory) : string :=
  encodeLine (ts m) (type m) (scope m) (content m) (issue m) (tags m).

(** [formatMemory]: how [recall] prints one record. *)
Definition formatMemory (m : Memory) : string :=
  let date := hd EmptyString (splitOn "T"%char (ts m)) in
  let tagsStr := match tags m with
                 | Some ((_ :: _) as l) => " [" ++ join ", " l ++ "]"
                 | _ => EmptyString
                 end in
  let issueStr := match issue m with
                  | Some v => if isEmpty v then EmptyString
                              else " (" ++ v ++ ")"
                  | None => EmptyString
                  end in
  "[" ++ date ++ "] " ++ type m ++ "/" ++ scope m ++ ": " ++ content m
  ++ issueStr ++ tagsStr.

(** ** Ranking *)

(** The text a query is matched against. *)
Definition searchable (memory : Memory) : string :=
  toLowerCase
    (type memory ++ " " ++ scope memory ++ " " ++ content memory ++ " "
     ++ match tags memory with
        | Some l => join " " l
        | None => EmptyString
        end).

(** One turn of the loop of [scoreMatch]. *)
Definition scoreWord (memory : Memory) (score : nat) (word : string) : nat :=
  let score := if includes (searchable memory) word then score + 1 else score in
  let score := if String.eqb (toLowerCase (scope memory)) word
               then score + 2 else score in
  let score := if String.eqb (toLowerCase (type memory)) word
               then score + 2 else score in
  score.

Definition scoreMatch (memory : Memory) (words : list string) : nat :=
  fold_left (scoreWord memory) words 0.

(** [xs.sort((a, b) => b.score - a.score)]: [Array.prototype.sort] is
    stable, so an element moves in front of an earlier one only when its
    score is strictly greater. *)
Section SortByScore.
Variable A : Type.
Variable score : A -> nat.

Fixpoint insertByScore (x : A) (l : list A) : list A :=
  match l with
  | [] => [x]
  | y :: ys => if (score x <? score y)%nat then y :: insertByScore x ys
               else x :: l
  end.

Definition sortByScore (l : list A) : list A :=
  fold_right insertByScore [] l.
End SortByScore.

(** [xs.slice(-n)] for a positive integer [n]: the last [n] elements. *)
Definition sliceLast (A : Type) (n : nat) (l : list A) : list A :=
  skipn (List.length l - n) l.

(** ** Objects and JSON

    A JavaScript object (and a [Map]) keeps its properties in insertion
    order; assigning to a key that is already there replaces the value
    and keeps the position.  Property keys that are array indices, which
    an object enumerates first, do not occur in the plugin's events. *)

Section Assoc.
Variable V : Type.

Fixpoint assocGet (k : string) (o : list (string * V)) : option V :=
  match o with
  | [] => None
  | (k', v) :: rest => if String.eqb k k' then Some v else assocGet k rest
  end.

Fixpoint assocSet (k : string) (v : V) (o : list (string * V))
  : list (string * V) :=
  match o with
  | [] => [(k, v)]
  | (k', v') :: rest =>
      if String.eqb k k' then (k, v) :: rest
      else (k', v') :: assocSet k v rest
  end.

(** [{ ...o, ...p }]: the properties of [p] assigned onto [o] in order. *)
Definition assocSpread (o p : list (string * V)) : list (string * V) :=
  fold_left (fun acc kv => assocSet (fst kv) (snd kv) acc) p o.

(** An object literal [{ k1: v1, ..., kn: vn }]. *)
Definition objectLiteral (props : list (string * V)) : list (string * V) :=
  assocSpread [] props.
End Assoc.

#[warnings="-register-all"]
Inductive Json : Type :=
| JUndefined
| JNull
| JBool (b : bool)
| JNum (n : nat)
| JStr (s : string)
| JArr (items : list Json)
| JObj (props : list (string * Json)).

Definition hexDigit (n : nat) : ascii :=
  if (n <? 10)%nat then ascii_of_nat (48 + n) else ascii_of_nat (87 + n).

(** How [JSON.stringify] writes one character of a string. *)
Definition jsonChar (c : ascii) : string :=
  let n := nat_of_ascii c in
  if Ascii.eqb c dquote then String backslash (String dquote EmptyString)
  else if Ascii.eqb c backslash then String backslash (String backslash EmptyString)
  else if (n =? 8)%nat then "\b"
  else if (n =? 9)%nat then "\t"
  else if (n =? 10)%nat then "\n"
  else if (n =? 12)%nat then "\f"
  else if (n =? 13)%nat then "\r"
  else if (n <? 32)%nat
       then "\u00" ++ String (hexDigit (n / 16)) (String (hexDigit (n mod 16)) EmptyString)
  else String c EmptyString.

Fixpoint jsonChars (s : string) : string :=
  match s with
  | EmptyString => EmptyString
  | String c s' => jsonChar c ++ jsonChars s'
  end.

Definition jsonString (s : string) : string :=
  String dquote (jsonChars s ++ String dquote EmptyString).

(** [JSON.stringify(v)]: a property whose value is [undefined] is left
    out of an object, and [undefined] in an array is written [null]. *)
Fixpoint stringify (v : Json) : string :=
  match v with
  | JUndefined => "null"
  | JNull => "null"
  | JBool true => "true"
  | JBool false => "false"
  | JNum n => showNat n
  | JStr s => jsonString s
  | JArr items =>
      "[" ++ join "," ((fix each (l : list Json) : list string :=
                          match l with
                          | [] => []
                          | x :: l' => stringify x :: each l'
                          end) items) ++ "]"
  | JObj props =>
      "{" ++ join "," ((fix each (l : list (string * Json)) : list string :=
                          match l with
                          | [] => []
                          | (_, JUndefined) :: l' => each l'
                          | (k, x) :: l' =>
                              (jsonString k ++ ":" ++ stringify x) :: each l'
                          end) props) ++ "}"
  end.

(** [v || null] for an optional string *)
Definition orNull (v : option string) : Json :=
  match v with
  | Some s => if isEmpty s then JNull else JStr s
  | None => JNull
  end.

(** ** The runtime: settings, the file system and the clock *)

Record LoggerSettings : Type := mkLogger {
  enabled : bool;
  scopes : list string;
  dir : string
}.

Record PluginSettings : Type := mkSettings {
  memoryDir : string;
  logger : LoggerSettings
}.

(** What the plugin can observe and change.  [files] is the file system,
    path to text, in the order a directory scan enumerates it; [dirs] are
    the directories that exist; [timeline] is what successive readings of
    [new Date().toISOString()] return and [clock] counts the readings
    made; [journal] records every [Bun.write], oldest first. *)
Record World : Type := mkWorld {
  settings : PluginSettings;
  sessionAgents : list (string * string);
  dirs : list string;
  files : list (string * string);
  timeline : nat -> string;
  clock : nat;
  journal : list (string * string)
}.

Definition M (A : Type) : Type := World -> A * World.

Definition ret (A : Type) (a : A) : M A := fun w => (a, w).

Definition bind (A B : Type) (m : M A) (f : A -> M B) : M B :=
  fun w => let (a, w') := m w in f a w'.

Notation "x <- m ;; k" := (bind m (fun x => k))
  (at level 61, m at next level, right associativity).
Notation "m ;;; k" := (bind m (fun _ => k))
  (at level 61, right associativity).

Definition getSettings : M PluginSettings := fun w => (settings w, w).

(** The world after one more reading of the clock. *)
Definition tick (w : World) : World :=
  mkWorld (settings w) (sessionAgents w) (dirs w) (files w)
          (timeline w) (S (clock w)) (journal w).

(** The world after [text] has been written to [path]. *)
Definition written (path text : string) (w : World) : World :=
  mkWorld (settings w) (sessionAgents w) (dirs w)
          (assocSet path text (files w))
          (timeline w) (clock w) (journal w ++ [(path, text)])%list.

(** The world after directory [d] has been created. *)
Definition created (d : string) (w : World) : World :=
  mkWorld (settings w) (sessionAgents w) (d :: dirs w) (files w)
          (timeline w) (clock w) (journal w).

(** [new Date().toISOString()] *)
Definition nowISO : M string :=
  fun w => (timeline w (clock w), tick w).

(** [iso.split('T')[0]] *)
Definition datePart (iso : string) : string :=
  hd EmptyString (splitOn "T"%char iso).

Definition inStrings (x : string) (l : list string) : bool :=
  existsb (String.eqb x) l.

Definition hasFile (path : string) (w : World) : bool :=
  match assocGet path (files w) with Some _ => true | None => false end.

Definition textOf (path : string) (w : World) : string :=
  match assocGet path (files w) with Some t => t | None => EmptyString end.

(** [await Bun.file(path).exists()] on a file *)
Definition fileExists (path : string) : M bool := fun w => (hasFile path w, w).

(** [await Bun.file(path).text()] *)
Definition fileText (path : string) : M string := fun w => (textOf path w, w).

(** [(await file.exists()) ? await file.text() : EmptyString] *)
Definition existingText (path : string) : M string :=
  e <- fileExists path ;;
  if e then fileText path else ret EmptyString.

(** [await Bun.write(path, text)] *)
Definition writeFile (path text : string) : M unit :=
  fun w => (tt, written path text w).

(** [await Bun.file(path).exists()] on a directory *)
Definition dirExists (path : string) : M bool :=
  fun w => (inStrings path (dirs w), w).

Definition mkdirP (path : string) : M unit :=
  fun w => (tt, created path w).

Definition ensureDir (path : string) : M unit :=
  e <- dirExists path ;;
  if e then ret tt else mkdirP path.

(** The name of [path] inside directory [d], when [path] is an entry of
    [d] itself. *)
Definition entryName (d path : string) : option string :=
  match dropPrefix (d ++ "/") path with
  | Some name => if includes name "/" then None else Some name
  | None => None
  end.

Fixpoint endsWith (suffix s : string) : bool :=
  String.eqb s suffix
  || match s with
     | EmptyString => false
     | String _ s' => endsWith suffix s'
     end.

(** [await Array.fromAsync(new Bun.Glob(GLOB).scan(d))] for the glob
    [*.logfmt]: the names of the entries of [d] itself that end in
    [.logfmt], in enumeration order (a name that starts with a dot is
    taken like any other). *)
Definition scanNames (d : string) (fs : list (string * string)) : list string :=
  flat_map (fun entry =>
              match entryName d (fst entry) with
              | Some name => if endsWith ".logfmt" name then [name] else []
              | None => []
              end) fs.

Definition scanLogfmt (d : string) : M (list string) :=
  fun w => (scanNames d (files w), w).

Definition deletionsName : string := "deletions.logfmt".

(** Sequencing an action over a list, as a [for ... of] loop with
    [await] in its body does. *)
Fixpoint forEach (A : Type) (l : list A) (body : A -> M unit) : M unit :=
  match l with
  | [] => ret tt
  | x :: l' => body x ;;; forEach l' body
  end.

(** ** The memory tools ([makeMemoryTools]) *)

Definition memoryPath (name : string) : M string :=
  st <- getSettings ;; ret (memoryDir st ++ "/" ++ name).

(** [getMemoryFile]: the file of the current day. *)
Definition getMemoryFile : M string :=
  iso <- nowISO ;;
  memoryPath (datePart iso ++ ".logfmt").

(** [text.trim().split(NL).filter(Boolean)] *)
Definition nonBlankLines (text : string) : list string :=
  filterBoolean (splitOn newline (trim text)).

(** [lines.map(parseLine).filter(m => m !== null)] *)
Fixpoint parseAll (lines : list string) : list Memory :=
  match lines with
  | [] => []
  | line :: rest =>
      match parseLine line with
      | Some m => m :: parseAll rest
      | None => parseAll rest
      end
  end.

(** The loop of [getAllMemories] over the scanned file names. *)
Fixpoint collectLines (names : list string) (lines : list string)
  : M (list string) :=
  match names with
  | [] => ret lines
  | filename :: rest =>
      if String.eqb filename deletionsName then collectLines rest lines
      else
        path <- memoryPath filename ;;
        text <- fileText path ;;
        collectLines rest (lines ++ nonBlankLines text)%list
  end.

Definition getAllMemories : M (list Memory) :=
  st <- getSettings ;;
  e <- dirExists (memoryDir st) ;;
  if negb e then ret [] else
  names <- scanLogfmt (memoryDir st) ;;
  match names with
  | [] => ret []
  | _ =>
      lines <- collectLines names [] ;;
      ret (parseAll lines)
  end.

(** The line [logDeletion] appends to the audit file, terminator
    included. *)
Definition deletionLine (now : string) (memory : Memory) (reason : string)
  : string :=
  "ts=" ++ now ++ " action=deleted original_ts=" ++ ts memory
  ++ " type=" ++ type memory ++ " scope=" ++ scope memory
  ++ " content=" ++ quoted (content memory)
  ++ " reason=" ++ quoted reason
  ++ issueToken (issue memory) ++ tagsToken (tags memory)
  ++ String newline EmptyString.

Definition logDeletion (memory : Memory) (reason : string) : M unit :=
  st <- getSettings ;;
  ensureDir (memoryDir st) ;;;
  now <- nowISO ;;
  path <- memoryPath deletionsName ;;
  existing <- existingText path ;;
  writeFile path (existing ++ deletionLine now memory reason).

Definition shouldLogScope (scope : string) : M bool :=
  st <- getSettings ;;
  let lg := logger st in
  if negb (enabled lg) then ret false
  else match scopes lg with
       | [] => ret true
       | _ => ret (inStrings "*" (scopes lg) || inStrings scope (scopes lg))
       end.

Definition appendJsonLog (scope : string) (payload : list (string * Json))
  : M unit :=
  ok <- shouldLogScope scope ;;
  if negb ok then ret tt else
  st <- getSettings ;;
  ensureDir (dir (logger st)) ;;;
  iso <- nowISO ;;
  let file := dir (logger st) ++ "/" ++ datePart iso ++ ".jsonl" in
  existing <- existingText file ;;
  writeFile file (existing ++ stringify (JObj payload)
                  ++ String newline EmptyString).

(** *** remember *)

Record RememberArgs : Type := mkRemember {
  r_type : string;
  r_scope : string;
  r_content : string;
  r_issue : option string;
  r_tags : option (list string)
}.

Definition remember (args : RememberArgs) : M string :=
  st <- getSettings ;;
  ensureDir (memoryDir st) ;;;
  now <- nowISO ;;
  let line := encodeLine now (r_type args) (r_scope args) (r_content args)
                (r_issue args) (r_tags args) ++ String newline EmptyString in
  file <- getMemoryFile ;;
  existing <- existingText file ;;
  writeFile file (existing ++ line) ;;;
  appendJsonLog (r_scope args)
    (objectLiteral [("ts", JStr now);
                    ("event", JStr "memory_remember");
                    ("scope", JStr (r_scope args));
                    ("memory_type", JStr (r_type args));
                    ("content", JStr (r_content args))]) ;;;
  ret ("Remembered: " ++ r_type args ++ " in " ++ r_scope args).

(** *** recall *)

Record RecallArgs : Type := mkRecall {
  q_scope : option string;
  q_type : option string;
  q_query : option string;
  q_limit : option nat
}.

(** The records [recall] keeps, before the cap. *)
Definition recallFilter (args : RecallArgs) (results : list Memory)
  : list Memory :=
  let results :=
    if truthy (q_scope args)
    then filter (fun m =>
                   match q_scope args with
                   | Some sc => String.eqb (scope m) sc || includes (scope m) sc
                   | None => false
                   end) results
    else results in
  let results :=
    if truthy (q_type args)
    then filter (fun m =>
                   match q_type args with
                   | Some ty => String.eqb (type m) ty
                   | None => false
                   end) results
    else results in
  match q_query args with
  | Some query =>
      if isEmpty query then results
      else
        let words := queryWords query in
        let scored :=
          sortByScore snd
            (filter (fun x => (0 <? snd x)%nat)
               (map (fun m => (m, scoreMatch m words)) results)) in
        map fst scored
  | None => results
  end.

Definition recallLimit (args : RecallArgs) : nat :=
  match q_limit args with
  | Some (S _ as n) => n
  | _ => 20
  end.

(** What [recall] returns once the scan has given [all]. *)
Definition recallText (args : RecallArgs) (all : list Memory) : string :=
  match all with
  | [] => "No memories found"
  | _ =>
      let totalCount := List.length all in
      let results := recallFilter args all in
      let filteredCount := List.length results in
      let limit := recallLimit args in
      let limited := sliceLast limit results in
      match limited with
      | [] => "No matching memories"
      | _ =>
          let nl2 := String newline (String newline EmptyString) in
          let header :=
            if (limit <? filteredCount)%nat
            then "Found " ++ showNat filteredCount ++ " memories (showing last "
                 ++ showNat limit ++ " of " ++ showNat totalCount ++ " total)" ++ nl2
            else if negb (filteredCount =? totalCount)%nat
            then "Found " ++ showNat filteredCount ++ " memories ("
                 ++ showNat totalCount ++ " total)" ++ nl2
            else "Found " ++ showNat filteredCount ++ " memories" ++ nl2 in
          header ++ join (String newline EmptyString)
                         (map formatMemory limited)
      end
  end.

Definition recall (args : RecallArgs) : M string :=
  all <- getAllMemories ;; ret (recallText args all).

(** *** update *)

Record UpdateArgs : Type := mkUpdate {
  u_scope : string;
  u_type : string;
  u_content : string;
  u_query : option string;
  u_issue : option string;
  u_tags : option (list string)
}.

(** An entry of [matches]. *)
Record Match : Type := mkMatch {
  memory : Memory;
  filepath : string;
  lineIndex : nat
}.

Definition sameScopeType (argScope argType : string) (m : Memory) : bool :=
  String.eqb (scope m) argScope && String.eqb (type m) argType.

(** [lines.forEach((line, lineIndex) => ...)] of [update], from index
    [lineIndex] on. *)
Fixpoint matchLines (argScope argType path : string)
    (lines : list string) (lineIndex : nat) (matches : list Match)
  : list Match :=
  match lines with
  | [] => matches
  | line :: rest =>
      let matches :=
        match parseLine line with
        | None => matches
        | Some m =>
            if sameScopeType argScope argType m
            then (matches ++ [mkMatch m path lineIndex])%list
            else matches
        end in
      matchLines argScope argType path rest (S lineIndex) matches
  end.

(** The scan of [update] over the file names. *)
Fixpoint findMatches (argScope argType : string) (names : list string)
    (matches : list Match) : M (list Match) :=
  match names with
  | [] => ret matches
  | filename :: rest =>
      if String.eqb filename deletionsName
      then findMatches argScope argType rest matches
      else
        path <- memoryPath filename ;;
        text <- fileText path ;;
        findMatches argScope argType rest
          (matchLines argScope argType path (splitOn newline text) 0 matches)
  end.

(** [lines[i] = v] on an array: past the end the array grows, and the
    holes left in between are joined as empty strings. *)
Fixpoint setLine (i : nat) (v : string) (lines : list string) : list string :=
  match i, lines with
  | O, [] => [v]
  | O, _ :: rest => v :: rest
  | S i', [] => EmptyString :: setLine i' v []
  | S i', l :: rest => l :: setLine i' v rest
  end.

Inductive UpdateOutcome : Type :=
| NoMemoryFiles
| NoMemoriesFound
| NoneMatchedQuery (count : nat)
| QueryNeeded (count : nat)
| Updated.

(** The selection of [target] among the matches. *)
Definition selectTarget (args : UpdateArgs) (matches : list Match)
  : UpdateOutcome + Match :=
  match matches with
  | [] => inl NoMemoriesFound
  | [only] => inr only
  | _ =>
      if truthy (u_query args) then
        let words := queryWords (match u_query args with
                                 | Some q => q
                                 | None => EmptyString
                                 end) in
        let scored :=
          sortByScore snd
            (filter (fun x => (0 <? snd x)%nat)
               (map (fun m => (m, scoreMatch (memory m) words)) matches)) in
        match scored with
        | [] => inl (NoneMatchedQuery (List.length matches))
        | best :: _ => inr (fst best)
        end
      else inl (QueryNeeded (List.length matches))
  end.

(** The line [update] writes in place of the target. *)
Definition updatedLine (now : string) (args : UpdateArgs) (target : Match)
  : string :=
  let issue := match u_issue args with
               | Some i => Some i
               | None => issue (memory target)
               end in
  let tags := match u_tags args with
              | Some t => Some t
              | None => tags (memory target)
              end in
  encodeLine now (u_type args) (u_scope args) (u_content args) issue tags.

Definition rewriteTarget (args : UpdateArgs) (target : Match) : M unit :=
  logDeletion (memory target) ("Updated to: " ++ u_content args) ;;;
  text <- fileText (filepath target) ;;
  let lines := splitOn newline text in
  now <- nowISO ;;
  let lines := setLine (lineIndex target) (updatedLine now args target) lines in
  writeFile (filepath target) (join (String newline EmptyString) lines) ;;;
  appendJsonLog (u_scope args)
    (objectLiteral [("ts", JStr now);
                    ("event", JStr "memory_update");
                    ("scope", JStr (u_scope args));
                    ("memory_type", JStr (u_type args));
                    ("content", JStr (u_content args))]).

Definition updateOutcome (args : UpdateArgs) : M UpdateOutcome :=
  st <- getSettings ;;
  e <- dirExists (memoryDir st) ;;
  if negb e then ret NoMemoryFiles else
  names <- scanLogfmt (memoryDir st) ;;
  match names with
  | [] => ret NoMemoryFiles
  | _ =>
      matches <- findMatches (u_scope args) (u_type args) names [] ;;
      match selectTarget args matches with
      | inl outcome => ret outcome
      | inr target => rewriteTarget args target ;;; ret Updated
      end
  end.

(** The string [update] returns for each outcome. *)
Definition updateMessage (args : UpdateArgs) (o : UpdateOutcome) : string :=
  let q := match u_query args with Some q => q | None => EmptyString end in
  match o with
  | NoMemoryFiles => "No memory files found"
  | NoMemoriesFound =>
      "No memories found for " ++ u_type args ++ " in " ++ u_scope args
  | NoneMatchedQuery n =>
      "Found " ++ showNat n ++ " memories for " ++ u_type args ++ "/"
      ++ u_scope args ++ ", but none matched query " ++ String dquote q
      ++ String dquote ". Use recall to see all matches."
  | QueryNeeded n =>
      "Found " ++ showNat n ++ " memories for " ++ u_type args ++ "/"
      ++ u_scope args
      ++ ". Provide a query to select which one to update, or use recall to see all matches."
  | Updated =>
      "Updated " ++ u_type args ++ " in " ++ u_scope args ++ ": "
      ++ String dquote (u_content args ++ String dquote EmptyString)
  end.

Definition update (args : UpdateArgs) : M string :=
  o <- updateOutcome args ;; ret (updateMessage args o).

(** *** list *)

Definition countOf (k : string) (m : list (string * nat)) : nat :=
  match assocGet k m with Some n => n | None => 0 end.

(** [set.add(x)] on a [Set] kept in insertion order *)
Definition setAdd (x : string) (set : list string) : list string :=
  if inStrings x set then set else (set ++ [x])%list.

Definition tally (memories : list Memory)
  : list (string * nat) * list (string * nat) * list (string * list string) :=
  fold_left
    (fun acc m =>
       let '(scopes, types, scopeTypes) := acc in
       let scopes := assocSet (scope m) (countOf (scope m) scopes + 1) scopes in
       let types := assocSet (type m) (countOf (type m) types + 1) types in
       let scopeTypes :=
         match assocGet (scope m) scopeTypes with
         | Some _ => scopeTypes
         | None => assocSet (scope m) [] scopeTypes
         end in
       let seen := match assocGet (scope m) scopeTypes with
                   | Some set => set
                   | None => []
                   end in
       (scopes, types, assocSet (scope m) (setAdd (type m) seen) scopeTypes))
    memories ([], [], []).

(** What [list] returns once the scan has given [memories]. *)
Definition summaryText (memories : list Memory) : string :=
  match memories with
  | [] => "No memories found"
  | _ =>
      let '(scopes, types, scopeTypes) := tally memories in
      let scopeLines :=
        map (fun entry =>
               let typeList := match assocGet (fst entry) scopeTypes with
                               | Some set => join ", " set
                               | None => EmptyString
                               end in
               "  " ++ fst entry ++ ": " ++ showNat (snd entry)
               ++ " (" ++ typeList ++ ")")
            (sortByScore snd scopes) in
      let typeLines :=
        map (fun entry => "  " ++ fst entry ++ ": " ++ showNat (snd entry))
            (sortByScore snd types) in
      let total := "Total memories: " ++ showNat (List.length memories) in
      join (String newline EmptyString)
           ([total; EmptyString; "Scopes:"]
            ++ scopeLines ++ [EmptyString; "Types:"] ++ typeLines)%list
  end.

Definition listMemories : M string :=
  memories <- getAllMemories ;; ret (summaryText memories).

(** *** forget *)

Record ForgetArgs : Type := mkForget {
  f_scope : string;
  f_type : string;
  f_reason : string
}.

(** The accumulators of [forget]: the counter and the deleted records. *)
Definition Deleted : Type := (nat * list Memory)%type.

(** [lines.filter(line => ...)] of [forget]: the lines kept, and the
    accumulators after the callback has run on every line. *)
Fixpoint filterLines (argScope argType : string) (lines : list string)
    (acc : Deleted) : list string * Deleted :=
  match lines with
  | [] => ([], acc)
  | line :: rest =>
      match parseLine line with
      | None =>
          let (kept, acc') := filterLines argScope argType rest acc in
          (line :: kept, acc')
      | Some m =>
          if sameScopeType argScope argType m
          then filterLines argScope argType rest
                 (S (fst acc), (snd acc ++ [m])%list)
          else
            let (kept, acc') := filterLines argScope argType rest acc in
            (line :: kept, acc')
      end
  end.

(** The loop of [forget] over the file names. *)
Fixpoint forgetFiles (args : ForgetArgs) (names : list string) (acc : Deleted)
  : M Deleted :=
  match names with
  | [] => ret acc
  | filename :: rest =>
      if String.eqb filename deletionsName then forgetFiles args rest acc
      else
        path <- memoryPath filename ;;
        text <- fileText path ;;
        let lines := splitOn newline text in
        let (filtered, acc') :=
          filterLines (f_scope args) (f_type args) lines acc in
        (if negb (List.length filtered =? List.length lines)%nat
         then writeFile path (join (String newline EmptyString) filtered)
         else ret tt) ;;;
        forgetFiles args rest acc'
  end.

Inductive ForgetOutcome : Type :=
| ForgetNoMemoryFiles
| ForgetNoneFound
| ForgetDeleted (count : nat).

Definition forgetOutcome (args : ForgetArgs) : M ForgetOutcome :=
  st <- getSettings ;;
  e <- dirExists (memoryDir st) ;;
  if negb e then ret ForgetNoMemoryFiles else
  names <- scanLogfmt (memoryDir st) ;;
  match names with
  | [] => ret ForgetNoMemoryFiles
  | _ =>
      acc <- forgetFiles args names (0, []) ;;
      let (deleted, deletedMemories) := acc in
      forEach deletedMemories (fun m => logDeletion m (f_reason args)) ;;;
      now <- nowISO ;;
      appendJsonLog (f_scope args)
        (objectLiteral [("ts", JStr now);
                        ("event", JStr "memory_forget");
                        ("scope", JStr (f_scope args));
                        ("memory_type", JStr (f_type args));
                        ("reason", JStr (f_reason args))]) ;;;
      match deleted with
      | O => ret ForgetNoneFound
      | _ => ret (ForgetDeleted deleted)
      end
  end.

Definition forgetMessage (st : PluginSettings) (args : ForgetArgs)
    (o : ForgetOutcome) : string :=
  match o with
  | ForgetNoMemoryFiles => "No memory files found"
  | ForgetNoneFound =>
      "No memories found for " ++ f_type args ++ " in " ++ f_scope args
  | ForgetDeleted n =>
      "Deleted " ++ showNat n ++ " " ++ f_type args ++ " memory(s) from "
      ++ f_scope args ++ ". Reason: " ++ f_reason args
      ++ String newline ("Deletions logged to " ++ memoryDir st
                         ++ "/deletions.logfmt")
  end.

Definition forget (args : ForgetArgs) : M string :=
  o <- forgetOutcome args ;;
  st <- getSettings ;;
  ret (forgetMessage st args o).

(** ** The event logger *)

Record EventInput : Type := mkEventInput {
  sessionID : string;
  parentSessionID : option string;
  taskID : option string;
  agent : option string;
  payload : option (list (string * Json))
}.

(** The fixed fields of an event, in the order of the object literal. *)
Definition envelope (now eventName : string) (input : EventInput)
  : list (string * Json) :=
  let rootSessionID :=
    match parentSessionID input with
    | Some p => if isEmpty p then sessionID input else p
    | None => sessionID input
    end in
  [("ts", JStr now);
   ("event", JStr eventName);
   ("session_id", JStr (sessionID input));
   ("subagent_session_id", JStr (sessionID input));
   ("parent_session_id", match parentSessionID input with
                         | Some p => JStr p
                         | None => JNull
                         end);
   ("root_session_id", JStr rootSessionID);
   ("task_id", orNull (taskID input));
   ("agent", orNull (agent input))].

(** [buildLoggerEvent] at the clock reading [now]. *)
Definition buildLoggerEventAt (now eventName : string) (input : EventInput)
  : list (string * Json) :=
  assocSpread (objectLiteral (envelope now eventName input))
    (match payload input with
     | Some p => p
     | None => []
     end).

Definition buildLoggerEvent (eventName : string) (input : EventInput)
  : M (list (string * Json)) :=
  now <- nowISO ;; ret (buildLoggerEventAt now eventName input).

Definition envelopeKeys : list string :=
  ["ts"; "event"; "session_id"; "subagent_session_id"; "parent_session_id";
   "root_session_id"; "task_id"; "agent"].

(** *** The hooks of [MemoryPlugin] *)

Definition setSessionAgent (id agentName : string) : M unit :=
  fun w => (tt, mkWorld (settings w) (assocSet id agentName (sessionAgents w))
                        (dirs w) (files w) (timeline w) (clock w) (journal w)).

Definition getSessionAgent (id : string) : M (option string) :=
  fun w => (assocGet id (sessionAgents w), w).

Record ChatInput : Type := mkChatInput {
  c_sessionID : string;
  c_agent : option string;
  c_messageID : Json;
  c_model : Json
}.

(** The hook [chat.message]; [parts] is [output.parts]. *)
Definition chatMessage (input : ChatInput) (parts : Json) : M unit :=
  (match c_agent input with
   | Some a => if isEmpty a then ret tt
               else setSessionAgent (c_sessionID input) a
   | None => ret tt
   end) ;;;
  event <- buildLoggerEvent "chat_message"
             (mkEventInput (c_sessionID input) None None (c_agent input)
                (Some (objectLiteral [("message_id", c_messageID input);
                                      ("model", c_model input);
                                      ("parts", parts)]))) ;;
  appendJsonLog "chat" event.

Record ToolInput : Type := mkToolInput {
  t_sessionID : string;
  t_callID : Json;
  t_tool : Json
}.

(** [typeof v?.scope === 'string' ? v.scope : 'tool'] *)
Definition scopeOr (v : Json) : string :=
  match v with
  | JObj props =>
      match assocGet "scope" props with
      | Some (JStr s) => s
      | _ => "tool"
      end
  | _ => "tool"
  end.

(** The hook [tool.execute.before]; [args] is [output.args]. *)
Definition toolExecuteBefore (input : ToolInput) (args : Json) : M unit :=
  let scope := scopeOr args in
  known <- getSessionAgent (t_sessionID input) ;;
  event <- buildLoggerEvent "tool_execute_before"
             (mkEventInput (t_sessionID input) None None known
                (Some (objectLiteral [("call_id", t_callID input);
                                      ("tool", t_tool input);
                                      ("args", args)]))) ;;
  appendJsonLog scope event.

(** The hook [tool.execute.after]; [metadata], [title] and [output] are
    the fields of its second argument. *)
Definition toolExecuteAfter (input : ToolInput) (metadata title output : Json)
  : M unit :=
  let scope := scopeOr metadata in
  known <- getSessionAgent (t_sessionID input) ;;
  event <- buildLoggerEvent "tool_execute_after"
             (mkEventInput (t_sessionID input) None None known
                (Some (objectLiteral [("call_id", t_callID input);
                                      ("tool", t_tool input);
                                      ("title", title);
                                      ("output", output)]))) ;;
  appendJsonLog scope event.

(** ** Settings

    A settings file is JSON text.  [SettingsFile] is the type the code
    declares for what it holds: every field optional, the logger fields
    one level down. *)
Record LoggerFile : Type := mkLoggerFile {
  lf_enabled : option bool;
  lf_scopes : option (list string);
  lf_dir : option string
}.

Record SettingsFile : Type := mkSettingsFile {
  sf_memoryDir : option string;
  sf_logger : option LoggerFile
}.

Definition DEFAULT_SETTINGS : PluginSettings :=
  mkSettings ".opencode/memory" (mkLogger false [] ".opencode/logs/memory").

(** [a ?? b] *)
Definition nullish (A : Type) (a : option A) (b : A) : A :=
  match a with
  | Some v => v
  | None => b
  end.

(** [patch.logger?.field] *)
Definition loggerField (A : Type) (field : LoggerFile -> option A)
    (patch : SettingsFile) : option A :=
  match sf_logger patch with
  | Some l => field l
  | None => None
  end.

Definition mergeSettings (base : PluginSettings) (patch : option SettingsFile)
  : PluginSettings :=
  match patch with
  | None => base
  | Some p =>
      mkSettings
        (nullish (sf_memoryDir p) (memoryDir base))
        (mkLogger
           (nullish (loggerField lf_enabled p) (enabled (logger base)))
           (nullish (loggerField lf_scopes p) (scopes (logger base)))
           (nullish (loggerField lf_dir p) (dir (logger base))))
  end.

(** *** JSON values as settings

    What a property access on a parsed value gives: [undefined] on a
    value that is not an object, and for a key the object does not
    have. *)
Definition field (key : string) (v : Json) : Json :=
  match v with
  | JObj props => match assocGet key props with
                  | Some x => x
                  | None => JUndefined
                  end
  | _ => JUndefined
  end.

(** JavaScript truthiness of a JSON value. *)
Definition jsTruthy (v : Json) : bool :=
  match v with
  | JUndefined => false
  | JNull => false
  | JBool b => b
  | JNum n => negb (Nat.eqb n 0)
  | JStr s => negb (isEmpty s)
  | JArr _ => true
  | JObj _ => true
  end.

Definition asString (v : Json) : option string :=
  match v with JStr s => Some s | _ => None end.

Definition asBool (v : Json) : option bool :=
  match v with JBool b => Some b | _ => None end.

Fixpoint asStrings (items : list Json) : option (list string) :=
  match items with
  | [] => Some []
  | JStr s :: rest => option_map (cons s) (asStrings rest)
  | _ => None
  end.

Definition asStringArray (v : Json) : option (list string) :=
  match v with JArr items => asStrings items | _ => None end.

(** The fields of a parsed value read at the declared type
    ([JSON.parse(text) as SettingsFile]).  A field that is absent or
    null is absent; the logger of a value whose [logger] is not an
    object has no fields. *)
Definition asSettingsFile (v : Json) : SettingsFile :=
  mkSettingsFile
    (asString (field "memoryDir" v))
    (match field "logger" v with
     | JObj props =>
         Some (mkLoggerFile (asBool (field "enabled" (JObj props)))
                            (asStringArray (field "scopes" (JObj props)))
                            (asString (field "dir" (JObj props))))
     | _ => None
     end).

Definition absent (v : Json) : bool :=
  match v with JUndefined | JNull => true | _ => false end.

(** A parsed value holds what [SettingsFile] declares: each of the four
    settings is absent, null, or of its declared type.  The cast of the
    code assumes it, and so does [asSettingsFile]. *)
Definition declared (v : Json) : bool :=
  let known (A : Type) (read : Json -> option A) (x : Json) :=
    absent x || match read x with Some _ => true | None => false end in
  known string asString (field "memoryDir" v)
  && known bool asBool (field "enabled" (field "logger" v))
  && known (list string) asStringArray (field "scopes" (field "logger" v))
  && known string asString (field "dir" (field "logger" v)).

(** *** [JSON.stringify(v, null, 2)] *)

Fixpoint stringifyIndented (indent : string) (v : Json) : string :=
  let inner := indent ++ "  " in
  let separator := "," ++ String newline inner in
  match v with
  | JUndefined => "null"
  | JNull => "null"
  | JBool true => "true"
  | JBool false => "false"
  | JNum n => showNat n
  | JStr s => jsonString s
  | JArr items =>
      match items with
      | [] => "[]"
      | _ =>
          "[" ++ String newline inner
          ++ join separator
               ((fix each (l : list Json) : list string :=
                   match l with
                   | [] => []
                   | x :: l' => stringifyIndented inner x :: each l'
                   end) items)
          ++ String newline indent ++ "]"
      end
  | JObj props =>
      match (fix each (l : list (string * Json)) : list string :=
               match l with
               | [] => []
               | (_, JUndefined) :: l' => each l'
               | (k, x) :: l' =>
                   (jsonString k ++ ": " ++ stringifyIndented inner x)
                   :: each l'
               end) props with
      | [] => "{}"
      | partial =>
          "{" ++ String newline inner ++ join separator partial
          ++ String newline indent ++ "}"
      end
  end.

Definition settingsJson (st : PluginSettings) : Json :=
  JObj (objectLiteral
          [("memoryDir", JStr (memoryDir st));
           ("logger",
            JObj (objectLiteral
                    [("enabled", JBool (enabled (logger st)));
                     ("scopes", JArr (map JStr (scopes (logger st))));
                     ("dir", JStr (dir (logger st)))]))]).

Definition settingsToJSON (st : PluginSettings) : string :=
  stringifyIndented EmptyString (settingsJson st).

(** *** Templates

    A pattern with the flag [i] compares the letters of ASCII without
    case; the patterns of [expandTemplate] have no other letters. *)
Definition foldCase (c : ascii) : ascii :=
  let n := nat_of_ascii c in
  if (65 <=? n)%nat && (n <=? 90)%nat then ascii_of_nat (n + 32) else c.

Fixpoint dropPrefixCI (p s : string) : option string :=
  match p with
  | EmptyString => Some s
  | String a p' =>
      match s with
      | String b s' =>
          if Ascii.eqb (foldCase a) (foldCase b) then dropPrefixCI p' s'
          else None
      | EmptyString => None
      end
  end.

Fixpoint sdrop (n : nat) (s : string) : string :=
  match n, s with
  | S n', String _ s' => sdrop n' s'
  | _, _ => s
  end.

(** The replacement text of [replace] for a pattern without groups:
    [$$] is a dollar sign, [$&] the match, [$`] what precedes it and
    [$'] what follows it; any other dollar sign stands for itself. *)
Fixpoint substitute (repl matched before after : string) : string :=
  match repl with
  | EmptyString => EmptyString
  | String c r =>
      if Ascii.eqb c "$" then
        match r with
        | String d r' =>
            if Ascii.eqb d "$" then
              String "$" (substitute r' matched before after)
            else if Ascii.eqb d "&" then
              matched ++ substitute r' matched before after
            else if Ascii.eqb d "`" then
              before ++ substitute r' matched before after
            else if Ascii.eqb d "'" then
              after ++ substitute r' matched before after
            else String c (substitute r matched before after)
        | EmptyString => String c EmptyString
        end
      else String c (substitute r matched before after)
  end.

(** [s.replace(pattern, ...)] for a global pattern that never matches
    the empty string: [matchAt] gives the length of the match of the
    pattern at the start of a string, and [replacement] the text that
    takes the place of a match, from the match, what precedes it and
    what follows it in [s].  The search goes on after each match. *)
Section Replace.
Variable matchAt : string -> option nat.
Variable replacement : string -> string -> string -> string.

Fixpoint replaceFrom (skip : nat) (before s : string) : string :=
  match s with
  | EmptyString => EmptyString
  | String c s' =>
      match skip with
      | S k => replaceFrom k (before ++ String c EmptyString) s'
      | O =>
          match matchAt s with
          | Some (S k) =>
              replacement (take (S k) s) before (sdrop (S k) s)
              ++ replaceFrom k (before ++ String c EmptyString) s'
          | _ => String c (replaceFrom 0 (before ++ String c EmptyString) s')
          end
      end
  end.

Definition replaceAll (s : string) : string := replaceFrom 0 EmptyString s.
End Replace.

(** A literal pattern with the flags [gi]. *)
Definition literalAt (lit s : string) : option nat :=
  match dropPrefixCI lit s with
  | Some _ => Some (String.length lit)
  | None => None
  end.

Definition replaceLiteral (lit repl s : string) : string :=
  replaceAll (literalAt lit) (substitute repl) s.

(** [[A-Z0-9_]] under the flag [i] *)
Definition isEnvChar (c : ascii) : bool :=
  let n := nat_of_ascii (foldCase c) in
  ((97 <=? n)%nat && (n <=? 122)%nat)
  || ((48 <=? n)%nat && (n <=? 57)%nat)
  || (n =? 95)%nat.

(** The pattern of an environment variable: the opening, a run of name
    characters that is not empty and as long as it can be, and the
    closing brace. *)
Definition envAt (s : string) : option nat :=
  match dropPrefixCI "${env:" s with
  | Some r =>
      match takeWhile isEnvChar r, dropWhile isEnvChar r with
      | String _ _ as key, String c _ =>
          if Ascii.eqb c "}" then Some (6 + String.length key + 1) else None
      | _, _ => None
      end
  | None => None
  end.

(** The name inside a match of that pattern. *)
Definition envKey (matched : string) : string :=
  take (String.length matched - 7) (sdrop 6 matched).

(** *** The host

    What the plugin takes from its host: the home directory, the
    environment, the path functions of [node:path], and [JSON.parse]
    ([None] when it throws). *)
Section Host.
Variable homedir : string.
Variable env : string -> option string.
Variable isAbsolute : string -> bool.
Variable pathJoin : list string -> string.
Variable dirname : string -> string.
Variable parseJson : string -> option Json.

Definition replaceEnv (s : string) : string :=
  replaceAll envAt
    (fun matched _ _ =>
       match env (envKey matched) with
       | Some v => v
       | None => EmptyString
       end) s.

(** The text of [value] with its variables replaced, before it is made
    a path. *)
Definition resolveTemplate (value projectDir date : string) : string :=
  replaceEnv
    (replaceLiteral "${date}" date
       (replaceLiteral "${workspace}" projectDir
          (replaceLiteral "${project}" projectDir
             (replaceLiteral "${home}" homedir value)))).

Definition expandTemplate (value projectDir : string)
    (dateOverride : option string) : M string :=
  now <- nowISO ;;
  let date := match dateOverride with
              | Some d => if isEmpty d then datePart now else d
              | None => datePart now
              end in
  let resolved := resolveTemplate value projectDir date in
  ret (if isAbsolute resolved then resolved
       else pathJoin [projectDir; resolved]).

Definition GLOBAL_SETTINGS_FILE : string :=
  pathJoin [homedir; ".config"; "opencode"; "memory-log.json"].

Definition projectSettingsFile (projectDir : string) : string :=
  pathJoin [projectDir; ".opencode"; "memory-log.json"].

Definition readSettingsFile (filePath : string) : M (option Json) :=
  e <- fileExists filePath ;;
  if negb e then ret None else
  text <- fileText filePath ;;
  if isEmpty (trim text) then ret None
  else ret (parseJson text).

(** [patch] as [mergeSettings] sees it: nothing for a value that is
    not there or is falsy. *)
Definition asPatch (v : option Json) : option SettingsFile :=
  match v with
  | Some x => if jsTruthy x then Some (asSettingsFile x) else None
  | None => None
  end.

(** [config?.memory_log] *)
Definition inlineConfig (config : option Json) : option Json :=
  match config with
  | Some (JObj props) => assocGet "memory_log" props
  | _ => None
  end.

Definition loadSettings (projectDir : string) (config : option Json)
  : M PluginSettings :=
  fromGlobal <- readSettingsFile GLOBAL_SETTINGS_FILE ;;
  fromProject <- readSettingsFile (projectSettingsFile projectDir) ;;
  let st := mergeSettings DEFAULT_SETTINGS (asPatch fromGlobal) in
  let st := mergeSettings st (asPatch fromProject) in
  let st := mergeSettings st (asPatch (inlineConfig config)) in
  memory <- expandTemplate (memoryDir st) projectDir None ;;
  logs <- expandTemplate (dir (logger st)) projectDir None ;;
  ret (mkSettings memory
         (mkLogger (enabled (logger st)) (scopes (logger st)) logs)).

Definition setSettings (st : PluginSettings) : M unit :=
  fun w => (tt, mkWorld st (sessionAgents w) (dirs w) (files w)
                        (timeline w) (clock w) (journal w)).

(** The hook [config] of [MemoryPlugin]. *)
Definition configHook (projectDir : string) (input : Json) : M unit :=
  st <- loadSettings projectDir (Some input) ;;
  setSettings st.

(** *** logger_set and logger_status *)

Inductive Persist : Type := PersistSession | PersistProject | PersistGlobal.

Record SetLoggerArgs : Type := mkSetLogger {
  l_enabled : option bool;
  l_scopes : option (list string);
  l_persist : option Persist
}.

(** [{ ...v }] for a parsed value: the properties of an object, the
    elements of an array and the characters of a string under their
    indices, and nothing for the rest. *)
Fixpoint indexed (A : Type) (wrap : A -> Json) (i : nat) (l : list A)
  : list (string * Json) :=
  match l with
  | [] => []
  | x :: l' => (showNat i, wrap x) :: indexed wrap (S i) l'
  end.

Definition spreadOf (v : Json) : list (string * Json) :=
  match v with
  | JObj props => props
  | JArr items => indexed (fun x => x) 0 items
  | JStr s => indexed (fun c => JStr (String c EmptyString)) 0
                      (list_ascii_of_string s)
  | _ => []
  end.

(** The object [setLogger] writes to a settings file that holds
    [existing]. *)
Definition persisted (st : PluginSettings) (existing : Json) : Json :=
  JObj (assocSpread (spreadOf existing)
          [("logger",
            JObj (assocSpread (spreadOf (field "logger" existing))
                    [("enabled", JBool (enabled (logger st)));
                     ("scopes", JArr (map JStr (scopes (logger st))));
                     ("dir", JStr (dir (logger st)))]));
           ("memoryDir",
            if jsTruthy (field "memoryDir" existing)
            then field "memoryDir" existing
            else JStr (memoryDir st))]).

Definition persistName (p : Persist) : string :=
  match p with
  | PersistSession => "session"
  | PersistProject => "project"
  | PersistGlobal => "global"
  end.

Definition setLoggerMessage (st : PluginSettings) (persist : Persist)
  : string :=
  "Logger " ++ (if enabled (logger st) then "enabled" else "disabled")
  ++ " (scopes: "
  ++ match scopes (logger st) with
     | [] => "all"
     | l => join ", " l
     end
  ++ ", persist: " ++ persistName persist ++ ")".

Definition setLogger (projectDir : string) (args : SetLoggerArgs) : M string :=
  st0 <- getSettings ;;
  let lg := mkLogger (nullish (l_enabled args) (enabled (logger st0)))
                     (nullish (l_scopes args) (scopes (logger st0)))
                     (dir (logger st0)) in
  let st := mkSettings (memoryDir st0) lg in
  setSettings st ;;;
  let persist := nullish (l_persist args) PersistSession in
  (match persist with
   | PersistSession => ret tt
   | _ =>
       let target := match persist with
                     | PersistProject => projectSettingsFile projectDir
                     | _ => GLOBAL_SETTINGS_FILE
                     end in
       ensureDir (dirname target) ;;;
       read <- readSettingsFile target ;;
       let existing := match read with
                       | Some v => if jsTruthy v then v else JObj []
                       | None => JObj []
                       end in
       writeFile target
         (stringifyIndented EmptyString (persisted st existing)
          ++ String newline EmptyString)
   end) ;;;
  ret (setLoggerMessage st persist).

Definition loggerStatus : M string :=
  st <- getSettings ;; ret (settingsToJSON st).
End Host.

(** ** What the specification says, for comparison with the code *)

(** The score of section 4.3, in the specification's words: the number of
    query tokens that occur in the searchable text, plus two for each
    token equal to the lower-cased scope, plus two for each token equal
    to the lower-cased type. *)
Definition countIf (A : Type) (p : A -> bool) (l : list A) : nat :=
  List.length (filter p l).

Definition specScore (m : Memory) (words : list string) : nat :=
  countIf (fun w => includes (searchable m) w) words
  + 2 * countIf (fun w => String.eqb (toLowerCase (scope m)) w) words
  + 2 * countIf (fun w => String.eqb (toLowerCase (type m)) w) words.

(** The root session of section 3, in the specification's words: the
    nearest ancestor without a parent, found by walking the parent chain
    of the host's sessions, and the session itself when it has no parent.
    [parentOf] is the host's session lookup; [depth] bounds the walk. *)
Fixpoint specRoot (parentOf : string -> option string) (depth : nat)
    (id : string) : string :=
  match depth with
  | O => id
  | S depth' =>
      match parentOf id with
      | Some p => specRoot parentOf depth' p
      | None => id
      end
  end.

(** The path of section 4.4 ([resolvePath]), in the specification's words,
    relative to the [sessions] tree: under the parent's slug the file
    [agent-id.jsonl] (agent hint, or the tag [subagent]), and without a
    parent the file [main.jsonl] under the session's own slug. *)
Record SessionInfo : Type := mkSessionInfo {
  s_id : string;
  s_parentID : option string;
  s_slug : string
}.

Definition specSessionFile (info : SessionInfo)
    (parentInfo : option SessionInfo) (agentHint : option string) : string :=
  match s_parentID info, parentInfo with
  | Some _, Some parent =>
      s_slug parent ++ "/"
      ++ match agentHint with
         | Some a => if isEmpty a then "subagent" else a
         | None => "subagent"
         end ++ "-" ++ s_id info ++ ".jsonl"
  | _, _ => s_slug info ++ "/main.jsonl"
  end.

(** *** What the field patterns compute

    The value of the field [key] at the very start of [s]: the literal
    [key=] and the maximal run of non-blank characters after it, which
    must not be empty. *)
Definition fieldAt (key s : string) : option string :=
  match dropPrefix (key ++ "=") s with
  | Some (String c rest) =>
      if notSpace c then Some (String c (takeWhile notSpace rest)) else None
  | _ => None
  end.

(** The leftmost field [key] of [s]. *)
Fixpoint scanField (key s : string) : option string :=
  match fieldAt key s with
  | Some v => Some v
  | None =>
      match s with
      | EmptyString => None
      | String _ s' => scanField key s'
      end
  end.

(** A line has the field [key] when somewhere in it the text [key=] is
    followed by a character that is not white space. *)
Fixpoint fieldPresent (key line : string) : bool :=
  match dropPrefix (key ++ "=") line with
  | Some (String c _) => notSpace c
  | _ => false
  end
  || match line with
     | EmptyString => false
     | String _ line' => fieldPresent key line'
     end.

(** The three fields without which a line does not decode. *)
Definition requiredPresent (line : string) : bool :=
  fieldPresent "ts" line && fieldPresent "type" line
  && fieldPresent "scope" line.

(** *** What a scan reads

    The names a scan of the memory directory enumerates, the day files
    among them, and the non-blank lines of the day files in scan order. *)
Definition memoryFile (w : World) (name : string) : string :=
  memoryDir (settings w) ++ "/" ++ name.

Definition scannedNames (w : World) : list string :=
  scanNames (memoryDir (settings w)) (files w).

Definition isDayFile (name : string) : bool :=
  negb (String.eqb name deletionsName).

Definition dayNames (w : World) : list string :=
  filter isDayFile (scannedNames w).

Definition dayLines (w : World) : list string :=
  flat_map (fun name => nonBlankLines (textOf (memoryFile w name) w))
           (dayNames w).

(** The audit file. *)
Definition deletionsPath (w : World) : string := memoryFile w deletionsName.

(** *** What one call does to the world *)

(** After [ensureDir d]. *)
Definition ensured (d : string) (w : World) : World :=
  if inStrings d (dirs w) then w else created d w.

(** Whether [appendJsonLog] logs an event of this scope. *)
Definition logsScope (scope : string) (w : World) : bool :=
  let lg := logger (settings w) in
  enabled lg
  && match scopes lg with
     | [] => true
     | _ => inStrings "*" (scopes lg) || inStrings scope (scopes lg)
     end.

(** The file [appendJsonLog] appends to when the clock is read in [w]. *)
Definition logPath (w : World) : string :=
  dir (logger (settings w)) ++ "/" ++ datePart (timeline w (clock w))
  ++ ".jsonl".

(** After [appendJsonLog] has written [payload]. *)
Definition logged (payload : list (string * Json)) (w : World) : World :=
  written (logPath w)
          (textOf (logPath w) w ++ stringify (JObj payload)
           ++ String newline EmptyString)
          (tick (ensured (dir (logger (settings w))) w)).

(** After [logDeletion memory reason]. *)
Definition audited (m : Memory) (reason : string) (w : World) : World :=
  written (deletionsPath w)
          (textOf (deletionsPath w) w
           ++ deletionLine (timeline w (clock w)) m reason)
          (tick (ensured (memoryDir (settings w)) w)).

(** The matches [update] has collected after scanning [names]. *)
Fixpoint scanMatches (argScope argType : string) (w : World)
    (names : list string) (matches : list Match) : list Match :=
  match names with
  | [] => matches
  | name :: rest =>
      if String.eqb name deletionsName
      then scanMatches argScope argType w rest matches
      else scanMatches argScope argType w rest
             (matchLines argScope argType (memoryFile w name)
                (splitOn newline (textOf (memoryFile w name) w)) 0 matches)
  end.

(** The matches among [lines], the first of which has index [i], in
    line order. *)
Fixpoint located (argScope argType path : string) (lines : list string)
    (i : nat) : list Match :=
  match lines with
  | [] => []
  | line :: rest =>
      match parseLine line with
      | Some m =>
          if sameScopeType argScope argType m
          then mkMatch m path i :: located argScope argType path rest (S i)
          else located argScope argType path rest (S i)
      | None => located argScope argType path rest (S i)
      end
  end.

(** The record on a line is the one [update] and [forget] look for. *)
Definition isTarget (argScope argType line : string) : bool :=
  match parseLine line with
  | Some m => sameScopeType argScope argType m
  | None => false
  end.

(** The records [forget] removes from the lines of one file. *)
Fixpoint removedOf (argScope argType : string) (lines : list string)
  : list Memory :=
  match lines with
  | [] => []
  | line :: rest =>
      match parseLine line with
      | Some m => if sameScopeType argScope argType m
                  then m :: removedOf argScope argType rest
                  else removedOf argScope argType rest
      | None => removedOf argScope argType rest
      end
  end.

(** The text [forget] leaves in a file: the lines that are not targets. *)
Definition purgedText (argScope argType text : string) : string :=
  join (String newline EmptyString)
       (filter (fun line => negb (isTarget argScope argType line))
               (splitOn newline text)).

(** After [forget] has gone through the file [name]. *)
Definition purged (args : ForgetArgs) (name : string) (w : World) : World :=
  let path := memoryFile w name in
  let lines := splitOn newline (textOf path w) in
  let kept := filter (fun line =>
                        negb (isTarget (f_scope args) (f_type args) line))
                     lines in
  if (List.length kept =? List.length lines)%nat then w
  else written path (join (String newline EmptyString) kept) w.

(** After [forget] has gone through the files [names]. *)
Fixpoint purgedAll (args : ForgetArgs) (names : list string) (w : World)
  : World :=
  match names with
  | [] => w
  | name :: rest =>
      if String.eqb name deletionsName then purgedAll args rest w
      else purgedAll args rest (purged args name w)
  end.

(** The records [forget] has removed after going through [names]. *)
Fixpoint removedAll (args : ForgetArgs) (names : list string) (w : World)
  : list Memory :=
  match names with
  | [] => []
  | name :: rest =>
      if String.eqb name deletionsName then removedAll args rest w
      else (removedOf (f_scope args) (f_type args)
              (splitOn newline (textOf (memoryFile w name) w))
            ++ removedAll args rest (purged args name w))%list
  end.

(** After [logDeletion] has been called on each of [removed] in turn. *)
Definition auditedAll (reason : string) (removed : list Memory) (w : World)
  : World :=
  fold_left (fun w' m => audited m reason w') removed w.

(** The audit lines of [removed], stamped with successive readings of
    the clock from the reading number [c] on. *)
Fixpoint auditText (readings : nat -> string) (c : nat) (reason : string)
    (removed : list Memory) : string :=
  match removed with
  | [] => EmptyString
  | m :: rest =>
      deletionLine (readings c) m reason
      ++ auditText readings (S c) reason rest
  end.

(** The records [forget] is to remove from the day files of [w]. *)
Definition doomed (argScope argType : string) (w : World) : list Memory :=
  flat_map (fun name =>
              removedOf argScope argType
                (splitOn newline (textOf (memoryFile w name) w)))
           (dayNames w).

(** After [update] has rewritten [target]. *)
Definition rewritten (args : UpdateArgs) (target : Match) (w : World) : World :=
  let w1 := audited (memory target) ("Updated to: " ++ u_content args) w in
  let now := timeline w1 (clock w1) in
  let w2 :=
    written (filepath target)
      (join (String newline EmptyString)
         (setLine (lineIndex target) (updatedLine now args target)
            (splitOn newline (textOf (filepath target) w1))))
      (tick w1) in
  let event := objectLiteral [("ts", JStr now);
                              ("event", JStr "memory_update");
                              ("scope", JStr (u_scope args));
                              ("memory_type", JStr (u_type args));
                              ("content", JStr (u_content args))] in
  if logsScope (u_scope args) w2 then logged event w2 else w2.

(** No two entries of a directory listing have the same path. *)
Fixpoint distinctPaths (paths : list string) : bool :=
  match paths with
  | [] => true
  | p :: rest => negb (inStrings p rest) && distinctPaths rest
  end.

(** The backslash-quote pair of the content pattern. *)
Definition escapedQuote : string := String backslash (String dquote EmptyString).

(** [s] does not contain the separator. *)
Definition freeOf (sep : ascii) (s : string) : bool :=
  sall (fun c => negb (Ascii.eqb c sep)) s.

(** [p] is the path of a day file among [names]. *)
Definition isAmong (w : World) (names : list string) (p : string) : bool :=
  existsb (fun n => isDayFile n && String.eqb p (memoryFile w n)) names.

(** The last character of a path. *)
Fixpoint lastChar (s : string) : option ascii :=
  match s with
  | EmptyString => None
  | String c EmptyString => Some c
  | String _ s' => lastChar s'
  end.

(** The score of a match under the query of [update]. *)
Definition matchScore (args : UpdateArgs) (t : Match) : nat :=
  scoreMatch (memory t)
    (queryWords (match u_query args with
                 | Some q => q
                 | None => EmptyString
                 end)).

(** The issue and tags [update] writes: those given, else the target's. *)
Definition inherited (A : Type) (given original : option A) : option A :=
  match given with
  | Some v => Some v
  | None => original
  end.

(** The sessions of the nested example: a leaf under a sub-agent under
    the main session. *)
Definition chainParent (id : string) : option string :=
  if String.eqb id "ses_leaf" then Some "ses_sub"
  else if String.eqb id "ses_sub" then Some "ses_main"
  else None.

(** An event input whose payload names an envelope key. *)
Definition spoofInput : EventInput :=
  mkEventInput "ses_123" None (Some "task_77") (Some "codex")
               (Some [("tool", JStr "read"); ("session_id", JStr "ses_other")]).

(** The scenario of the tests of the session-aware logger: the settings
    the test writes (logger on, every scope), a sub-agent session
    [ses_sub] titled Explore auth under the main session [ses_main]
    titled Fix Auth Bug, both created on 2026-02-21. *)
Definition testWorld : World :=
  mkWorld (mkSettings "/tmp/repo/.opencode/memory"
             (mkLogger true ["*"] "/tmp/repo/.opencode/logs/memory"))
          [] [] []
          (fun n => "2026-02-21T00:00:0" ++ showNat (n mod 10) ++ ".000Z")
          0 [].

Definition mainInfo : SessionInfo :=
  mkSessionInfo "ses_main" None "2026-02-21-fix-auth-bug".

Definition subInfo : SessionInfo :=
  mkSessionInfo "ses_sub" (Some "ses_main") "2026-02-21-explore-auth".

Definition subChat : ChatInput :=
  mkChatInput "ses_sub" (Some "explore") (JStr "msg_sub")
              (JObj [("providerID", JStr "openai"); ("modelID", JStr "gpt-5")]).

Definition mainChat : ChatInput :=
  mkChatInput "ses_main" (Some "main") (JStr "msg_1")
              (JObj [("providerID", JStr "openai"); ("modelID", JStr "gpt-5")]).

(** *** What the content pattern computes

    The content captured at the very start of [s]: the literal
    [content=], a double quote, the maximal run of characters other than
    the double quote, and the double quote that must follow it. *)
Definition contentAt (s : string) : option string :=
  match dropPrefix "content=" s with
  | Some (String q s1) =>
      if isQuote q
      then match dropWhile notQuote s1 with
           | String _ _ => Some (takeWhile notQuote s1)
           | EmptyString => None
           end
      else None
  | _ => None
  end.

(** The leftmost content of [s]. *)
Fixpoint scanContent (s : string) : option string :=
  match contentAt s with
  | Some v => Some v
  | None =>
      match s with
      | EmptyString => None
      | String _ s' => scanContent s'
      end
  end.

(** *** Records that survive the file

    A value that one token of a line can carry: not empty, without white
    space and without the equals sign. *)
Definition cleanToken (s : string) : bool :=
  negb (isEmpty s) && sall notSpace s && freeOf "="%char s.

(** A record whose time stamp, type, scope, issue and tags are such
    values (the tags also without a comma, and at least one of them when
    there are tags at all), and whose content has no double quote and
    does not spell the start of an issue or tags token. *)
Definition cleanRecord (m : Memory) : bool :=
  cleanToken (ts m) && cleanToken (type m) && cleanToken (scope m)
  && sall notQuote (content m)
  && negb (includes (content m) "issue=")
  && negb (includes (content m) "tags=")
  && match issue m with
     | Some v => cleanToken v
     | None => true
     end
  && match tags m with
     | Some l => negb (Nat.eqb (List.length l) 0)
                 && forallb (fun t => cleanToken t && freeOf comma t) l
     | None => true
     end.

(** Nothing or white space comes first in [s]. *)
Definition blankStart (s : string) : bool :=
  match s with
  | EmptyString => true
  | String c _ => isSpace c
  end.

(** *** The records of the store

    The records on the lines of the day files, in scan order and line
    order. *)
Definition recordsOf (w : World) : list Memory :=
  flat_map (fun name =>
              parseAll (splitOn newline (textOf (memoryFile w name) w)))
           (dayNames w).

(** *** What remember does

    The name of the day file [remember] appends to, which it takes from
    its second reading of the clock. *)
Definition todayName (w : World) : string :=
  datePart (timeline w (S (clock w))) ++ ".logfmt".

(** The record [remember] is asked to store, stamped with its first
    reading of the clock. *)
Definition rememberedRecord (args : RememberArgs) (w : World) : Memory :=
  mkMemory (timeline w (clock w)) (r_type args) (r_scope args)
           (r_content args) (r_issue args) (r_tags args).

(** After [remember]. *)
Definition remembered (args : RememberArgs) (w : World) : World :=
  let file := memoryFile w (todayName w) in
  let w3 :=
    written file
      (textOf file w ++ encodeMemory (rememberedRecord args w)
       ++ String newline EmptyString)
      (tick (tick (ensured (memoryDir (settings w)) w))) in
  let event := objectLiteral [("ts", JStr (timeline w (clock w)));
                              ("event", JStr "memory_remember");
                              ("scope", JStr (r_scope args));
                              ("memory_type", JStr (r_type args));
                              ("content", JStr (r_content args))] in
  if logsScope (r_scope args) w3 then logged event w3 else w3.

(** A text is empty or ends with a line terminator. *)
Definition terminated (text : string) : bool :=
  match lastChar text with
  | Some c => Ascii.eqb c newline
  | None => true
  end.

(** A name a scan of the memory directory can return as a day file. *)
Definition plainName (name : string) : bool :=
  negb (includes name "/") && isDayFile name.

(** A clean record whose content stays on one line. *)
Definition storable (m : Memory) : bool :=
  cleanRecord m && freeOf newline (content m).

(** *** What the hooks do

    The agents known per session after [chat.message] has seen the
    agent [a] in the session [id]. *)
Definition noted (id : string) (a : option string) (w : World) : World :=
  match a with
  | Some name =>
      if isEmpty name then w
      else mkWorld (settings w) (assocSet id name (sessionAgents w))
                   (dirs w) (files w) (timeline w) (clock w) (journal w)
  | None => w
  end.

(** The event of [chat.message]. *)
Definition chatEvent (input : ChatInput) (parts : Json) (w : World)
  : list (string * Json) :=
  buildLoggerEventAt (timeline w (clock w)) "chat_message"
    (mkEventInput (c_sessionID input) None None (c_agent input)
       (Some (objectLiteral [("message_id", c_messageID input);
                             ("model", c_model input);
                             ("parts", parts)]))).

(** The events of [tool.execute.before] and [tool.execute.after]. *)
Definition toolBeforeEvent (input : ToolInput) (args : Json) (w : World)
  : list (string * Json) :=
  buildLoggerEventAt (timeline w (clock w)) "tool_execute_before"
    (mkEventInput (t_sessionID input) None None
       (assocGet (t_sessionID input) (sessionAgents w))
       (Some (objectLiteral [("call_id", t_callID input);
                             ("tool", t_tool input);
                             ("args", args)]))).

Definition toolAfterEvent (input : ToolInput) (title output : Json)
    (w : World) : list (string * Json) :=
  buildLoggerEventAt (timeline w (clock w)) "tool_execute_after"
    (mkEventInput (t_sessionID input) None None
       (assocGet (t_sessionID input) (sessionAgents w))
       (Some (objectLiteral [("call_id", t_callID input);
                             ("tool", t_tool input);
                             ("title", title);
                             ("output", output)]))).

(** After a hook that logs [event] under [scope]. *)
Definition hooked (scope : string) (event : list (string * Json)) (w : World)
  : World :=
  if logsScope scope (tick w) then logged event (tick w) else tick w.

(** *** Which source a setting comes from

    The first of the layers that has the setting, and the default when
    none has. *)
Fixpoint firstSet (A : Type) (layers : list (option A)) (default : A) : A :=
  match layers with
  | [] => default
  | Some v :: _ => v
  | None :: rest => firstSet rest default
  end.

(** A setting of an optional layer. *)
Definition setting (A : Type) (read : SettingsFile -> option A)
    (layer : option SettingsFile) : option A :=
  match layer with
  | Some p => read p
  | None => None
  end.

(** What [readSettingsFile] returns for the file at [path]. *)
Definition settingsAt (parseJson : string -> option Json) (path : string)
    (w : World) : option Json :=
  if hasFile path w
  then if isEmpty (trim (textOf path w)) then None
       else parseJson (textOf path w)
  else None.

(** *** Templates, piece by piece

    A template written as pieces: text, and the variables in the
    spelling of the documentation. *)
Inductive Piece : Type :=
| Text (s : string)
| VarHome
| VarProject
| VarWorkspace
| VarDate
| VarEnv (key : string).

Definition token (p : Piece) : string :=
  match p with
  | Text s => s
  | VarHome => "${home}"
  | VarProject => "${project}"
  | VarWorkspace => "${workspace}"
  | VarDate => "${date}"
  | VarEnv key => "${env:" ++ key ++ "}"
  end.

Definition concatAll (l : list string) : string :=
  fold_right append EmptyString l.

Definition template (ps : list Piece) : string := concatAll (map token ps).

(** [process.env[key] || EmptyString] *)
Definition envValue (env : string -> option string) (key : string) : string :=
  match env key with
  | Some v => v
  | None => EmptyString
  end.

(** What a piece stands for. *)
Definition pieceValue (homedir : string) (env : string -> option string)
    (projectDir date : string) (p : Piece) : string :=
  match p with
  | Text s => s
  | VarHome => homedir
  | VarProject => projectDir
  | VarWorkspace => projectDir
  | VarDate => date
  | VarEnv key => envValue env key
  end.

(** A piece of text without a dollar sign, or a variable; the name of
    an environment variable is a name. *)
Definition plainPiece (p : Piece) : bool :=
  match p with
  | Text s => freeOf "$" s
  | VarEnv key => negb (isEmpty key) && sall isEnvChar key
  | _ => true
  end.

(** The piece is the variable [var]. *)
Definition isVar (var p : Piece) : bool :=
  match var, p with
  | VarHome, VarHome => true
  | VarProject, VarProject => true
  | VarWorkspace, VarWorkspace => true
  | VarDate, VarDate => true
  | _, _ => false
  end.

(** The piece after the variable [var] has been replaced by [v]. *)
Definition filled (var : Piece) (v : string) (p : Piece) : Piece :=
  if isVar var p then Text v else p.

(** The literal cannot match at the start of [t], whatever follows. *)
Fixpoint mismatch (lit t : string) : bool :=
  match lit, t with
  | String a lit', String b t' =>
      if Ascii.eqb (foldCase a) (foldCase b) then mismatch lit' t' else true
  | _, _ => false
  end.

(** What one replacement of the literal [lit] by [v] makes of a token:
    text without a dollar sign stays, the literal becomes [v], and a
    token that the literal cannot match stays. *)
Definition passes (lit v tok out : string) : Prop :=
  (freeOf "$" tok = true /\ out = tok)
  \/ (tok = lit /\ out = v)
  \/ (exists r, tok = String "$" r /\ freeOf "$" r = true
                /\ mismatch lit tok = true /\ out = tok).

(** What the replacement of the environment variables makes of a
    token. *)
Definition envPasses (env : string -> option string) (tok out : string)
  : Prop :=
  (freeOf "$" tok = true /\ out = tok)
  \/ (exists key, tok = ("${env:" ++ key ++ "}")%string
                  /\ key <> EmptyString
                  /\ sall isEnvChar key = true
                  /\ out = envValue env key).

(** *** What logger_set does

    The settings after [setLogger], the file it persists to, and the
    value it finds there. *)
Definition loggerSet (args : SetLoggerArgs) (st : PluginSettings)
  : PluginSettings :=
  mkSettings (memoryDir st)
    (mkLogger (nullish (l_enabled args) (enabled (logger st)))
              (nullish (l_scopes args) (scopes (logger st)))
              (dir (logger st))).

Definition persistTarget (homedir : string) (pathJoin : list string -> string)
    (projectDir : string) (p : Persist) : string :=
  match p with
  | PersistProject => projectSettingsFile pathJoin projectDir
  | _ => GLOBAL_SETTINGS_FILE homedir pathJoin
  end.

Definition existingSettings (parseJson : string -> option Json)
    (target : string) (w : World) : Json :=
  match settingsAt parseJson target w with
  | Some v => if jsTruthy v then v else JObj []
  | None => JObj []
  end.

(** *** What update stores

    The record [update] writes in place of [old] at the clock reading
    [now]. *)
Definition updatedRecord (args : UpdateArgs) (old : Memory) (now : string)
  : Memory :=
  mkMemory now (u_type args) (u_scope args) (u_content args)
           (inherited (u_issue args) (issue old))
           (inherited (u_tags args) (tags old)).

(** *** A store in good order

    Every day file is empty or ends with a line terminator, and no two
    entries of the file system have the same path. *)
Definition wellTerminated (w : World) : bool :=
  forallb (fun name => terminated (textOf (memoryFile w name) w))
          (dayNames w).

Definition soundStore (w : World) : bool :=
  distinctPaths (map fst (files w)) && wellTerminated w.

(** *** Reasons that survive the audit file

    A reason without double quote that does not spell the start of an
    issue or tags token. *)
Definition cleanReason (reason : string) : bool :=
  sall notQuote reason
  && negb (includes reason "issue=")
  && negb (includes reason "tags=").

(** *** What list counts

    The types [list] has collected for a scope. *)
Definition typesOf (s : string) (scopeTypes : list (string * list string))
  : list string :=
  match assocGet s scopeTypes with Some set => set | None => [] end.

(** One round of the loop of [list] over the records. *)
Definition tallyStep
    (acc : list (string * nat) * list (string * nat)
           * list (string * list string)) (m : Memory) :=
  let '(scopes, types, scopeTypes) := acc in
  let scopes := assocSet (scope m) (countOf (scope m) scopes + 1) scopes in
  let types := assocSet (type m) (countOf (type m) types + 1) types in
  let scopeTypes :=
    match assocGet (scope m) scopeTypes with
    | Some _ => scopeTypes
    | None => assocSet (scope m) [] scopeTypes
    end in
  let seen := match assocGet (scope m) scopeTypes with
              | Some set => set
              | None => []
              end in
  (scopes, types, assocSet (scope m) (setAdd (type m) seen) scopeTypes).

(** *** What recall is asked for

    Whether a record passes the filters of [recall]: its scope contains
    the scope asked for, its type is the type asked for, and one of the
    query words occurs in its text; a filter that is absent or empty
    lets every record pass. *)
Definition wanted (args : RecallArgs) (m : Memory) : bool :=
  match q_scope args with
  | Some sc => isEmpty sc || includes (scope m) sc
  | None => true
  end
  && match q_type args with
     | Some ty => isEmpty ty || String.eqb (type m) ty
     | None => true
     end
  && match q_query args with
     | Some q => isEmpty q
                 || existsb (fun w => includes (searchable m) w) (queryWords q)
     | None => true
     end.

(** The score [recall] sorts by. *)
Definition recallScore (args : RecallArgs) (m : Memory) : nat :=
  scoreMatch m (queryWords (match q_query args with
                            | Some q => q
                            | None => EmptyString
                            end)).

(** The records [recall] prints. *)
Definition recallListed (args : RecallArgs) (all : list Memory) : list Memory :=
  sliceLast (recallLimit args) (recallFilter args all).

(** ** Example inputs *)

Definition nl : string := String newline EmptyString.

Definition sayHi : string :=
  "say " ++ String dquote ("hi" ++ String dquote EmptyString).

(** A record as [remember] would be given it, whose content has quotes. *)
Definition quotedRecord : Memory :=
  mkMemory "2026-02-21T10:00:00.000Z" "decision" "auth" sayHi
           (Some "#51") (Some ["a"; "b"]).

(** What decoding the line of [quotedRecord] returns. *)
Definition quotedRecordDecoded : Memory :=
  mkMemory "2026-02-21T10:00:00.000Z" "decision" "auth" "say \"
           (Some "#51") (Some ["a"; "b"]).

(** The two records of the ranking example of section 8. *)
Definition recordA : Memory :=
  mkMemory "2026-02-21T10:00:00.000Z" "decision" "auth"
           "JWT with refresh tokens" None None.

Definition taggedRecord : Memory :=
  mkMemory "2026-02-21T10:00:00.000Z" "decision" "auth"
           "JWT with refresh tokens, ttl = 15 min" (Some "#51")
           (Some ["jwt"; "tokens"]).

Definition recordB : Memory :=
  mkMemory "2026-02-21T10:05:00.000Z" "decision" "mobile-auth"
           "auth token" None None.

Definition exampleSettings : PluginSettings :=
  mkSettings ".opencode/memory" (mkLogger true ["*"] ".opencode/logs/memory").

(** Clock readings one second apart. *)
Definition exampleTimeline (n : nat) : string :=
  "2026-02-22T09:00:0" ++ showNat (n mod 10) ++ ".000Z".

Definition worldWith (fs : list (string * string)) : World :=
  mkWorld exampleSettings [] [".opencode/memory"] fs exampleTimeline 0 [].

Definition apiRecord : Memory :=
  mkMemory "2026-02-20T10:00:00.000Z" "decision" "api" "use REST" None None.

(** A line without the scope field. *)
Definition scopelessLine : string :=
  "ts=2026-02-20T11:00:00.000Z type=blocker content=" ++ quoted "no scope".

(** A day file with a well-formed line, a line without scope, and blank
    lines at the end. *)
Definition lenientWorld : World :=
  worldWith [(".opencode/memory/2026-02-20.logfmt",
              encodeMemory apiRecord ++ nl ++ scopelessLine ++ nl ++ nl ++ nl)].

(** A store with two day files and an audit file: two decisions on the
    scope [api], two blockers on the scope [x] in different files, and a
    line without scope. *)
Definition storeWorld : World :=
  worldWith
    [(".opencode/memory/2026-02-20.logfmt",
      encodeMemory apiRecord ++ nl
      ++ encodeLine "2026-02-20T11:00:00.000Z" "blocker" "x" "ci is red"
           None None ++ nl);
     (".opencode/memory/deletions.logfmt",
      deletionLine "2026-02-19T00:00:00.000Z"
        (mkMemory "2026-02-18T00:00:00.000Z" "decision" "api" "old" None None)
        "stale");
     (".opencode/memory/2026-02-21.logfmt",
      encodeLine "2026-02-21T10:00:00.000Z" "decision" "api" "use gRPC"
        (Some "#5") None ++ nl
      ++ scopelessLine ++ nl
      ++ encodeLine "2026-02-21T11:00:00.000Z" "blocker" "x" "disk full"
           None None ++ nl)].

(** An update of the decision on [api] that names the one to change. *)
Definition grpcUpdate : UpdateArgs :=
  mkUpdate "api" "decision" "use both" (Some "grpc") None (Some ["t1"; "t2"]).

Definition grpcMatch : Match :=
  mkMatch (mkMemory "2026-02-21T10:00:00.000Z" "decision" "api" "use gRPC"
                    (Some "#5") None)
          ".opencode/memory/2026-02-21.logfmt" 0.

(** A host with POSIX paths, an empty environment, and a [JSON.parse]
    that reads every text as the settings of a logger that is on. *)
Definition posixAbsolute (p : string) : bool := startsWith "/" p.

Definition slashJoin (parts : list string) : string := join "/" parts.

Definition loggerOn : Json :=
  JObj [("logger", JObj [("enabled", JBool true);
                         ("scopes", JArr [JStr "auth"])])].

Definition parseLoggerOn (text : string) : option Json := Some loggerOn.

(** A project whose settings file is there, and no global file. *)
Definition settingsWorld : World :=
  worldWith [("/repo/.opencode/memory-log.json", "{ }")].

(** Remembering a decision on [auth], with an issue and tags. *)
Definition jwtMemory : RememberArgs :=
  mkRemember "decision" "auth" "JWT with refresh tokens, ttl = 15 min"
             (Some "#51") (Some ["jwt"; "tokens"]).

(** Forgetting the blockers on [x], which are in both day files. *)
Definition forgetBlockers : ForgetArgs := mkForget "x" "blocker" "fixed".

(** A store in which only the audit file exists. *)
Definition auditOnlyWorld : World :=
  worldWith [(".opencode/memory/deletions.logfmt",
              deletionLine "2026-02-19T00:00:00.000Z" apiRecord "stale")].

(** ** Lemmas on strings *)


Lemma sappend_assoc (a b c : string) :
  ((a ++ b) ++ c = a ++ (b ++ c))%string.
Proof.
  induction a as [|x a IH]; simpl; [reflexivity | now rewrite IH].
Qed.

Lemma sappend_nil_r (a : string) : (a ++ EmptyString)%string = a.
Proof.
  induction a as [|x a IH]; simpl; [reflexivity | now rewrite IH].
Qed.

Lemma dropPrefix_append (p s : string) : dropPrefix p (p ++ s) = Some s.
Proof.
  induction p as [|a p IH]; simpl; [reflexivity|].
  now rewrite Ascii.eqb_refl.
Qed.

Lemma dropPrefix_inv (p s r : string) : dropPrefix p s = Some r -> s = p ++ r.
Proof.
  revert s; induction p as [|a p IH]; intros s H; simpl in *.
  - now inversion H.
  - destruct s as [|b s]; [discriminate|].
    destruct (Ascii.eqb a b) eqn:E; [|discriminate].
    apply Ascii.eqb_eq in E; subst b. f_equal. now apply IH.
Qed.

Lemma dropWhile_length (p : ascii -> bool) (s : string) :
  String.length (dropWhile p s) <= String.length s.
Proof.
  induction s as [|c s IH]; simpl; [lia|].
  destruct (p c); simpl; lia.
Qed.

Lemma take_dropWhile (p : ascii -> bool) (s : string) :
  take (String.length s - String.length (dropWhile p s)) s = takeWhile p s.
Proof.
  induction s as [|c s IH]; [reflexivity|].
  cbn [dropWhile takeWhile String.length].
  destruct (p c) eqn:E.
  - pose proof (dropWhile_length p s) as L.
    replace (S (String.length s) - String.length (dropWhile p s))
      with (S (String.length s - String.length (dropWhile p s))) by lia.
    cbn [take]. now rewrite IH.
  - cbn [String.length]. now rewrite Nat.sub_diag.
Qed.

(** ** The matcher on the field patterns *)

Arguments exec !r s cap k /.

(** A greedy run of one character class, when what follows cannot fail,
    stops at the first character outside the class. *)
Lemma starLoop_class_total (p : ascii -> bool)
    (k : string -> option string -> option (option string)) :
  (forall s cap, k s cap <> None) ->
  forall n s cap, String.length s <= n ->
    starLoop (exec (Cls p)) k n s cap = k (dropWhile p s) cap.
Proof.
  intros Hk n; induction n as [|n IH]; intros s cap L.
  - destruct s; [reflexivity | simpl in L; lia].
  - destruct s as [|c s]; simpl.
    + reflexivity.
    + destruct (p c) eqn:E; [|reflexivity].
      assert (T : (String.length s <? S (String.length s))%nat = true)
        by (apply Nat.ltb_lt; lia).
      rewrite T, IH by (simpl in L; lia).
      destruct (k (dropWhile p s) cap) eqn:K; [reflexivity|].
      now apply Hk in K.
Qed.

Lemma matchHere_fieldPattern (key s : string) :
  matchHere (fieldPattern key) s = option_map Some (fieldAt key s).
Proof.
  unfold matchHere, fieldPattern, fieldAt, Plus; cbn [exec].
  destruct (dropPrefix (key ++ "=") s) as [[|c rest]|]; try reflexivity.
  destruct (notSpace c) eqn:E; cbn [option_map]; [|reflexivity].
  rewrite starLoop_class_total by (congruence || lia).
  pose proof (dropWhile_length notSpace rest) as L.
  cbn [String.length].
  replace (S (String.length rest) - String.length (dropWhile notSpace rest))
    with (S (String.length rest - String.length (dropWhile notSpace rest)))
    by lia.
  cbn [take]. now rewrite take_dropWhile.
Qed.

Lemma search_fieldPattern (key s : string) :
  group1 (search (fieldPattern key) s) = scanField key s.
Proof.
  induction s as [|c s IH]; simpl;
    rewrite matchHere_fieldPattern;
    destruct (fieldAt key _); simpl; auto.
Qed.

Lemma parseLine_fields (line : string) :
  parseLine line =
  match scanField "ts" line, scanField "type" line, scanField "scope" line with
  | Some t, Some ty, Some sc =>
      if isEmpty t || isEmpty ty || isEmpty sc then None
      else Some {| ts := t;
                   type := ty;
                   scope := sc;
                   content := match group1 (search contentPattern line) with
                              | Some c => unescapeQuotes c
                              | None => EmptyString
                              end;
                   issue := scanField "issue" line;
                   tags := option_map (splitOn comma) (scanField "tags" line) |}
  | _, _, _ => None
  end.
Proof.
  unfold parseLine. now rewrite !search_fieldPattern.
Qed.

Lemma fieldAt_nonempty (key s v : string) :
  fieldAt key s = Some v -> isEmpty v = false.
Proof.
  unfold fieldAt.
  destruct (dropPrefix (key ++ "=") s) as [[|c rest]|]; try discriminate.
  destruct (notSpace c); [|discriminate].
  now intros [= <-].
Qed.

Lemma scanField_nonempty (key s v : string) :
  scanField key s = Some v -> isEmpty v = false.
Proof.
  induction s as [|c s IH]; simpl.
  - destruct (fieldAt key EmptyString) eqn:E; [|discriminate].
    intros [= <-]. eapply fieldAt_nonempty; eassumption.
  - destruct (fieldAt key (String c s)) eqn:E; [|assumption].
    intros [= <-]. eapply fieldAt_nonempty; eassumption.
Qed.

Lemma fieldPresent_scanField (key s : string) :
  fieldPresent key s = match scanField key s with
                       | Some _ => true
                       | None => false
                       end.
Proof.
  induction s as [|c s IH]; simpl; unfold fieldAt.
  - destruct (dropPrefix (key ++ "=") EmptyString) as [[|d rest]|];
      try reflexivity.
    destruct (notSpace d); reflexivity.
  - destruct (dropPrefix (key ++ "=") (String c s)) as [[|d rest]|];
      simpl; try assumption.
    destruct (notSpace d); simpl; [reflexivity | assumption].
Qed.

(** A line decodes exactly when the three required fields are present. *)
Lemma parseLine_None_iff (line : string) :
  parseLine line = None <-> requiredPresent line = false.
Proof.
  rewrite parseLine_fields. unfold requiredPresent.
  rewrite !fieldPresent_scanField.
  destruct (scanField "ts" line) as [t|] eqn:Et; simpl; [|tauto].
  destruct (scanField "type" line) as [ty|] eqn:Ety; simpl; [|tauto].
  destruct (scanField "scope" line) as [sc|] eqn:Esc; simpl; [|tauto].
  rewrite (scanField_nonempty _ _ Et), (scanField_nonempty _ _ Ety),
    (scanField_nonempty _ _ Esc); simpl.
  split; discriminate.
Qed.

Lemma fieldPresent_includes (key line : string) :
  includes line (key ++ "=") = false -> fieldPresent key line = false.
Proof.
  induction line as [|c line IH]; simpl; unfold startsWith;
    destruct (dropPrefix (key ++ "=") _); simpl; try discriminate; auto.
Qed.

Lemma sall_append (p : ascii -> bool) (a b : string) :
  sall p (a ++ b) = sall p a && sall p b.
Proof.
  induction a as [|c a IH]; simpl; [reflexivity|].
  now rewrite IH, andb_assoc.
Qed.

(** A blank line has no field at all. *)
Lemma fieldPresent_blank (key line : string) :
  sall isSpace line = true -> fieldPresent key line = false.
Proof.
  induction line as [|c line IH]; intros B; simpl.
  - destruct (dropPrefix (key ++ "=") EmptyString) as [[|d rest]|] eqn:E;
      try reflexivity.
    apply dropPrefix_inv in E.
    destruct (key ++ "=")%string; discriminate.
  - simpl in B. apply andb_prop in B as [Bc Bl].
    rewrite (IH Bl), orb_false_r.
    destruct (dropPrefix (key ++ "=") (String c line)) as [[|d rest]|] eqn:E;
      try reflexivity.
    apply dropPrefix_inv in E.
    assert (S : sall isSpace (String c line) = true) by (simpl; now rewrite Bc).
    rewrite E, sall_append in S. apply andb_prop in S as [_ S].
    simpl in S. apply andb_prop in S as [S _].
    unfold notSpace. now rewrite S.
Qed.

Lemma parseLine_blank (line : string) :
  sall isSpace line = true -> parseLine line = None.
Proof.
  intros B. apply parseLine_None_iff. unfold requiredPresent.
  now rewrite (fieldPresent_blank "ts" _ B).
Qed.

(** *** Tokens added after a line *)

Lemma dropPrefix_app_some (p s r x : string) :
  dropPrefix p s = Some r -> dropPrefix p (s ++ x) = Some (r ++ x).
Proof.
  revert s; induction p as [|a p IH]; intros s H; simpl in *.
  - now inversion H.
  - destruct s as [|b s]; [discriminate|]. simpl.
    destruct (Ascii.eqb a b); [now apply IH | discriminate].
Qed.

Lemma dropPrefix_app_none (p s e : string) (sp : ascii) :
  sall notSpace p = true -> isSpace sp = true ->
  dropPrefix p s = None -> dropPrefix p (s ++ String sp e) = None.
Proof.
  intros Hp Hsp; revert s; induction p as [|a p IH]; intros s H; simpl in *.
  - discriminate.
  - apply andb_prop in Hp as [Ha Hp].
    destruct s as [|b s]; simpl.
    + destruct (Ascii.eqb a sp) eqn:E; [|reflexivity].
      apply Ascii.eqb_eq in E; subst sp.
      unfold notSpace in Ha. rewrite Hsp in Ha. discriminate.
    + destruct (Ascii.eqb a b); [now apply IH | reflexivity].
Qed.

Lemma takeWhile_app_stop (p : ascii -> bool) (r e : string) (c : ascii) :
  p c = false -> takeWhile p (r ++ String c e) = takeWhile p r.
Proof.
  intros Hc; induction r as [|d r IH]; simpl.
  - now rewrite Hc.
  - destruct (p d); [now rewrite IH | reflexivity].
Qed.

Section Extension.
Variables (key e : string) (sp : ascii).
Hypothesis key_solid : sall notSpace (key ++ "=") = true.
Hypothesis sp_blank : isSpace sp = true.

Lemma fieldAt_extend_some (s v : string) :
  fieldAt key s = Some v -> fieldAt key (s ++ String sp e) = Some v.
Proof.
  unfold fieldAt.
  destruct (dropPrefix (key ++ "=") s) as [[|c rest]|] eqn:E;
    try discriminate.
  rewrite (dropPrefix_app_some _ _ (String sp e) E). simpl.
  destruct (notSpace c); [|discriminate].
  rewrite takeWhile_app_stop; [trivial|].
  unfold notSpace. now rewrite sp_blank.
Qed.

Lemma fieldAt_extend_none (s : string) :
  fieldAt key s = None -> fieldAt key (s ++ String sp e) = None.
Proof.
  unfold fieldAt.
  destruct (dropPrefix (key ++ "=") s) as [[|c rest]|] eqn:E.
  - intros _. rewrite (dropPrefix_app_some _ _ (String sp e) E). simpl.
    unfold notSpace. now rewrite sp_blank.
  - rewrite (dropPrefix_app_some _ _ (String sp e) E). simpl.
    now destruct (notSpace c).
  - intros _. now rewrite dropPrefix_app_none.
Qed.

Lemma scanField_extend (s v : string) :
  scanField key s = Some v -> scanField key (s ++ String sp e) = Some v.
Proof.
  induction s as [|c s IH]; intros H.
  - simpl in H. destruct (fieldAt key EmptyString) eqn:E; [|discriminate].
    unfold fieldAt in E.
    destruct (dropPrefix (key ++ "=") EmptyString) as [[|d rest]|] eqn:D;
      try discriminate.
    apply dropPrefix_inv in D. destruct (key ++ "=")%string; discriminate.
  - simpl in H. change (String c s ++ String sp e)%string
      with (String c (s ++ String sp e)).
    cbn [scanField].
    destruct (fieldAt key (String c s)) as [v'|] eqn:E.
    + change (String c (s ++ String sp e))
        with (String c s ++ String sp e)%string.
      now rewrite (fieldAt_extend_some _ E).
    + change (String c (s ++ String sp e))
        with (String c s ++ String sp e)%string.
      rewrite (fieldAt_extend_none _ E). now apply IH.
Qed.
End Extension.

(** A line that decodes still decodes, to the same required fields, when
    white space and further tokens are added after it. *)
Lemma parseLine_extend (line extra : string) (sp : ascii) (m : Memory) :
  isSpace sp = true ->
  parseLine line = Some m ->
  exists m', parseLine (line ++ String sp extra) = Some m'
             /\ ts m' = ts m /\ type m' = type m /\ scope m' = scope m.
Proof.
  intros Hsp. rewrite !parseLine_fields.
  destruct (scanField "ts" line) as [t|] eqn:Et; [|discriminate].
  destruct (scanField "type" line) as [ty|] eqn:Ety; [|discriminate].
  destruct (scanField "scope" line) as [sc|] eqn:Esc; [|discriminate].
  rewrite (scanField_extend "ts" extra sp eq_refl Hsp _ Et),
    (scanField_extend "type" extra sp eq_refl Hsp _ Ety),
    (scanField_extend "scope" extra sp eq_refl Hsp _ Esc).
  destruct (isEmpty t || isEmpty ty || isEmpty sc); [discriminate|].
  intros [= <-]. eexists; split; [reflexivity|]. simpl. auto.
Qed.

(** *** Lines that do not decode leave no trace in a scan *)

Lemma parseAll_app (a b : list string) :
  parseAll (a ++ b) = (parseAll a ++ parseAll b)%list.
Proof.
  induction a as [|l a IH]; simpl; [reflexivity|].
  destruct (parseLine l); simpl; now rewrite IH.
Qed.

Lemma parseAll_skip (before after : list string) (line : string) :
  parseLine line = None ->
  parseAll (before ++ line :: after) = parseAll (before ++ after).
Proof.
  intros H. rewrite !parseAll_app. simpl. now rewrite H.
Qed.

(** ** Running the memory tools *)

Lemma existingText_run (path : string) (w : World) :
  existingText path w = (textOf path w, w).
Proof.
  unfold existingText, bind, fileExists, fileText, ret, hasFile, textOf.
  destruct (assocGet path (files w)) eqn:E; cbv beta iota; now rewrite ?E.
Qed.

Lemma collectLines_run (w : World) (names lines : list string) :
  collectLines names lines w =
  ((lines ++ flat_map (fun name => nonBlankLines (textOf (memoryFile w name) w))
                      (filter isDayFile names))%list, w).
Proof.
  revert lines; induction names as [|n names IH]; intros lines; simpl.
  - unfold ret. now rewrite app_nil_r.
  - unfold isDayFile at 1. destruct (String.eqb n deletionsName); simpl.
    + apply IH.
    + unfold bind, memoryPath, getSettings, fileText, ret; simpl.
      rewrite IH. now rewrite <- app_assoc.
Qed.

(** A scan returns the records of the non-blank lines of the day files,
    and changes nothing. *)
Lemma getAllMemories_run (w : World) :
  getAllMemories w =
  (if inStrings (memoryDir (settings w)) (dirs w)
   then parseAll (dayLines w) else [], w).
Proof.
  unfold getAllMemories, bind, getSettings, dirExists, ret, scanLogfmt.
  destruct (inStrings (memoryDir (settings w)) (dirs w)); cbn [negb];
    [|reflexivity].
  unfold dayLines, dayNames, scannedNames.
  destruct (scanNames (memoryDir (settings w)) (files w)) as [|n names];
    [reflexivity|].
  now rewrite collectLines_run.
Qed.

(** ** The matcher on the content pattern *)

(** A greedy run that is followed by something that accepts where the run
    ends: nothing is given back. *)
Lemma starLoop_class_accept (p : ascii -> bool)
    (k : string -> option string -> option (option string))
    (res : option string) :
  forall n s cap, String.length s <= n ->
    k (dropWhile p s) cap = Some res ->
    starLoop (exec (Cls p)) k n s cap = Some res.
Proof.
  induction n as [|n IH]; intros s cap L K.
  - destruct s; [assumption | simpl in L; lia].
  - destruct s as [|c s]; cbn [starLoop exec].
    + assumption.
    + cbn [dropWhile] in K. destruct (p c) eqn:E; [|assumption].
      assert (T : (String.length s <? String.length (String c s))%nat = true)
        by (apply Nat.ltb_lt; simpl; lia).
      rewrite T, (IH s cap); [reflexivity | simpl in L; lia | assumption].
Qed.

(** A greedy run that is followed by something that rejects every rest
    the run can leave: giving characters back does not help. *)
Lemma starLoop_class_reject (p : ascii -> bool) (good : string -> bool)
    (k : string -> option string -> option (option string)) :
  (forall c s, good (String c s) = true -> good s = true) ->
  (forall s cap, good s = true -> k s cap = None) ->
  forall n s cap, good s = true -> starLoop (exec (Cls p)) k n s cap = None.
Proof.
  intros Hsuf Hk; induction n as [|n IH]; intros s cap G.
  - now apply Hk.
  - destruct s as [|c s]; cbn [starLoop exec].
    + now apply Hk.
    + destruct (p c).
      * destruct (String.length s <? String.length (String c s))%nat.
        -- rewrite IH by (eapply Hsuf; eassumption). now apply Hk.
        -- now apply Hk.
      * now apply Hk.
Qed.

Lemma dropPrefix_escapedQuote_none (s : string) :
  sall notQuote s = true -> dropPrefix escapedQuote s = None.
Proof.
  unfold escapedQuote.
  destruct s as [|a [|b s]]; cbn [dropPrefix sall]; try reflexivity.
  - now destruct (Ascii.eqb backslash a).
  - intros H. apply andb_prop in H as [_ H]. apply andb_prop in H as [Hb _].
    destruct (Ascii.eqb backslash a); [|reflexivity].
    unfold notQuote, isQuote in Hb. rewrite Ascii.eqb_sym.
    now destruct (Ascii.eqb b dquote).
Qed.

Lemma dropWhile_notQuote (s : string) :
  (dropWhile notQuote s = EmptyString /\ sall notQuote s = true)
  \/ (exists q rest, dropWhile notQuote s = String q rest /\ isQuote q = true).
Proof.
  induction s as [|c s IH]; simpl.
  - now left.
  - destruct (notQuote c) eqn:E; simpl.
    + exact IH.
    + right. exists c, s. split; [reflexivity|].
      unfold notQuote in E. now destruct (isQuote c).
Qed.

Lemma sall_takeWhile (p : ascii -> bool) (s : string) :
  sall p (takeWhile p s) = true.
Proof.
  induction s as [|c s IH]; simpl; [reflexivity|].
  destruct (p c) eqn:E; simpl; [now rewrite E | reflexivity].
Qed.

(** Whatever the content pattern captures at a position has no double
    quote in it: the capture ends at the first quote after the opening
    one, escaped or not. *)
Lemma matchHere_contentPattern (s : string) (cap : option string) :
  matchHere contentPattern s = Some cap ->
  exists c, cap = Some c /\ sall notQuote c = true.
Proof.
  unfold matchHere, contentPattern; cbn [exec].
  destruct (dropPrefix "content=" s) as [[|q s1]|]; try discriminate.
  destruct (isQuote q); [|discriminate].
  set (fin := fun (_ : string) (cap : option string) => Some cap).
  set (close := fun (s' : string) (_ : option string) =>
                  exec (Cls isQuote) s'
                    (Some (take (String.length s1 - String.length s') s1)) fin).
  fold escapedQuote.
  set (tail := fun (s' : string) (cap' : option string) =>
                 starLoop (exec (Cat (Lit escapedQuote) (Star (Cls notQuote))))
                   close (String.length s') s' cap').
  destruct (dropWhile_notQuote s1) as [[D A]|(q' & rest & D & Q)].
  - rewrite (starLoop_class_reject notQuote (sall notQuote) tail);
      [discriminate | | | assumption].
    + intros c s0 H. simpl in H. now apply andb_prop in H as [_ H].
    + intros s0 cap0 H. unfold tail.
      destruct s0 as [|c s0]; cbn [String.length starLoop].
      * reflexivity.
      * cbn [exec]. rewrite (dropPrefix_escapedQuote_none _ H).
        unfold close; cbn [exec]. simpl in H.
        apply andb_prop in H as [H _]. unfold notQuote in H.
        now destruct (isQuote c).
  - rewrite (starLoop_class_accept notQuote tail
               (res := Some (takeWhile notQuote s1))).
    + intros [= <-]. eexists; split; [reflexivity | apply sall_takeWhile].
    + lia.
    + rewrite D. unfold tail. cbn [String.length starLoop exec].
      assert (N : dropPrefix escapedQuote (String q' rest) = None).
      { unfold escapedQuote; cbn [dropPrefix].
        destruct (Ascii.eqb backslash q') eqn:B; [|reflexivity].
        apply Ascii.eqb_eq in B; subst q'. vm_compute in Q. discriminate. }
      rewrite N. unfold close; cbn [exec]. rewrite Q. unfold fin.
      rewrite <- D, take_dropWhile. reflexivity.
Qed.

Lemma search_contentPattern (s : string) (cap : option string) :
  search contentPattern s = Some cap ->
  exists c, cap = Some c /\ sall notQuote c = true.
Proof.
  induction s as [|a s IH]; cbn [search].
  - destruct (matchHere contentPattern EmptyString) eqn:E; [|discriminate].
    intros [= <-]. eapply matchHere_contentPattern; eassumption.
  - destruct (matchHere contentPattern (String a s)) eqn:E; [|assumption].
    intros [= <-]. eapply matchHere_contentPattern; eassumption.
Qed.

Lemma unescapeQuotes_plain (s : string) :
  sall notQuote s = true -> unescapeQuotes s = s.
Proof.
  induction s as [|a s IH]; [reflexivity|].
  intros H. simpl in H. apply andb_prop in H as [Ha Hs].
  cbn [unescapeQuotes]. destruct s as [|b s]; [reflexivity|].
  assert (Hb : isQuote b = false).
  { simpl in Hs. apply andb_prop in Hs as [Hb _].
    unfold notQuote in Hb. now destruct (isQuote b). }
  rewrite Hb, andb_false_r. f_equal. now apply IH.
Qed.

(** No decoded record has a double quote in its content. *)
Lemma parseLine_content_quoteless (line : string) (m : Memory) :
  parseLine line = Some m -> sall notQuote (content m) = true.
Proof.
  unfold parseLine.
  destruct (group1 (search (fieldPattern "ts") line)) as [t|]; [|discriminate].
  destruct (group1 (search (fieldPattern "type") line)) as [ty|];
    [|discriminate].
  destruct (group1 (search (fieldPattern "scope") line)) as [sc|];
    [|discriminate].
  destruct (isEmpty t || isEmpty ty || isEmpty sc); [discriminate|].
  intros [= <-]; cbn [content].
  destruct (search contentPattern line) as [cap|] eqn:E; [|reflexivity].
  destruct (search_contentPattern _ E) as (c & -> & Hc). simpl.
  now rewrite unescapeQuotes_plain.
Qed.

(** ** Ranking *)

Lemma scoreMatch_from (m : Memory) (words : list string) (acc : nat) :
  fold_left (scoreWord m) words acc = acc + specScore m words.
Proof.
  revert acc; induction words as [|w words IH]; intros acc.
  - unfold specScore, countIf; simpl. lia.
  - cbn [fold_left]. rewrite IH. unfold specScore, countIf, scoreWord.
    cbn [filter].
    destruct (includes (searchable m) w);
      destruct (String.eqb (toLowerCase (scope m)) w);
      destruct (String.eqb (toLowerCase (type m)) w);
      cbn [List.length]; lia.
Qed.

Lemma smap_append (f : ascii -> ascii) (a b : string) :
  smap f (a ++ b) = (smap f a ++ smap f b)%string.
Proof.
  induction a as [|c a IH]; simpl; [reflexivity | now rewrite IH].
Qed.

Lemma includes_append_r (a b sub : string) :
  includes b sub = true -> includes (a ++ b) sub = true.
Proof.
  intros H; induction a as [|c a IH]; simpl; [assumption|].
  rewrite IH. apply orb_true_r.
Qed.

Lemma includes_prefix (sub rest : string) : includes (sub ++ rest) sub = true.
Proof.
  assert (S : startsWith sub (sub ++ rest) = true)
    by (unfold startsWith; now rewrite dropPrefix_append).
  destruct (sub ++ rest)%string; simpl; now rewrite S.
Qed.

(** The searchable text of a record contains its lower-cased scope. *)
Lemma searchable_scope (m : Memory) :
  includes (searchable m) (toLowerCase (scope m)) = true.
Proof.
  unfold searchable, toLowerCase. rewrite !smap_append.
  apply includes_append_r, includes_append_r, includes_prefix.
Qed.

(** C4. The score [scoreMatch] gives a record for a list of query tokens
    is the number of tokens that occur in the lower-cased text made of its
    type, scope, content and tags, plus two for every token equal to its
    lower-cased scope, plus two for every token equal to its lower-cased
    type.  For the query [auth], a record whose scope is [auth] (and whose
    type is not that word) scores 3, and a record of scope [mobile-auth]
    with content [auth token] scores 1. *)
Theorem scoreMatch_counts_tokens_and_bonuses :
  forall (m : Memory) (words : list string),
    scoreMatch m words = specScore m words
    /\ queryWords "auth" = ["auth"]
    /\ (String.eqb (toLowerCase (type m)) "auth" = false ->
        scope m = "auth" -> scoreMatch m (queryWords "auth") = 3)
    /\ (String.eqb (toLowerCase (type m)) "auth" = false ->
        scope m = "mobile-auth" -> content m = "auth token" ->
        scoreMatch m (queryWords "auth") = 1).
Proof.
  intros m words. split; [|split; [|split]].
  - unfold scoreMatch. now rewrite scoreMatch_from.
  - reflexivity.
  - intros Hty Hs. change (queryWords "auth") with ["auth"].
    unfold scoreMatch; cbn [fold_left]; unfold scoreWord.
    pose proof (searchable_scope m) as I. rewrite Hs in *.
    change (toLowerCase "auth") with "auth" in *.
    now rewrite I, Hty.
  - intros Hty Hs Hc. change (queryWords "auth") with ["auth"].
    unfold scoreMatch; cbn [fold_left]; unfold scoreWord.
    pose proof (searchable_scope m) as I. rewrite Hs in *.
    change (toLowerCase "mobile-auth") with "mobile-auth" in *.
    rewrite Hty. change (String.eqb "mobile-auth" "auth") with false.
    assert (J : includes (searchable m) "auth" = true).
    { unfold searchable, toLowerCase. rewrite Hs, Hc, !smap_append.
      apply includes_append_r, includes_append_r.
      change (smap lowerChar "mobile-auth") with ("mobile-" ++ "auth")%string.
      rewrite sappend_assoc.
      apply includes_append_r, includes_prefix. }
    now rewrite J.
Qed.

Lemma scoreMatch_counts_tokens_and_bonuses_witness :
  String.eqb (toLowerCase (type recordA)) "auth" = false
  /\ scope recordA = "auth"
  /\ scoreMatch recordA (queryWords "auth") = 3
  /\ String.eqb (toLowerCase (type recordB)) "auth" = false
  /\ scope recordB = "mobile-auth" /\ content recordB = "auth token"
  /\ scoreMatch recordB (queryWords "auth") = 1
  /\ scoreMatch recordA ["auth"; "jwt"; "decision"]
     = specScore recordA ["auth"; "jwt"; "decision"].
Proof.
  destruct (scoreMatch_counts_tokens_and_bonuses recordA
              ["auth"; "jwt"; "decision"]) as (Heq & _ & HA & _).
  destruct (scoreMatch_counts_tokens_and_bonuses recordB [])
    as (_ & _ & _ & HB).
  split; [reflexivity|]. split; [reflexivity|].
  split; [apply HA; reflexivity|].
  split; [reflexivity|]. split; [reflexivity|]. split; [reflexivity|].
  split; [apply HB; reflexivity | exact Heq].
Defined.

Example score_recordA : scoreMatch recordA (queryWords "auth") = 3.
Proof. reflexivity. Qed.

Example score_recordB : scoreMatch recordB (queryWords "auth") = 1.
Proof. reflexivity. Qed.

(** ** Blank text at the end of a file *)

Lemma srev_onto_append (a b acc : string) :
  srev_onto (a ++ b) acc = srev_onto b (srev_onto a acc).
Proof.
  revert acc; induction a as [|c a IH]; intros acc; [reflexivity|].
  cbn [append srev_onto]. apply IH.
Qed.

Lemma dropWhile_all (p : ascii -> bool) (s : string) :
  sall p s = true -> dropWhile p s = EmptyString.
Proof.
  induction s as [|c s IH]; [reflexivity|].
  cbn [sall dropWhile]. intros H. apply andb_prop in H as [Hc Hs].
  rewrite Hc. now apply IH.
Qed.

Lemma dropWhile_append (p : ascii -> bool) (a b : string) :
  dropWhile p (a ++ b)
  = if sall p a then dropWhile p b else (dropWhile p a ++ b)%string.
Proof.
  induction a as [|c a IH]; [reflexivity|].
  cbn [append dropWhile sall]. destruct (p c); [exact IH | reflexivity].
Qed.

(** White space at the end of a text is trimmed away. *)
Lemma trim_trailing_blank (text : string) (sp : ascii) :
  isSpace sp = true -> trim (text ++ String sp EmptyString) = trim text.
Proof.
  intros Hsp. unfold trim. rewrite dropWhile_append.
  destruct (sall isSpace text) eqn:A.
  - rewrite (dropWhile_all _ _ A). cbn [dropWhile]. now rewrite Hsp.
  - unfold srev at 2. rewrite srev_onto_append. cbn [srev_onto].
    fold (srev (dropWhile isSpace text)). cbn [dropWhile]. now rewrite Hsp.
Qed.

(** ** The codec *)

(** C1. Decoding the line of a record whose content has double quotes
    and encoding the result again does not give the line back: the
    content pattern stops at the first quote of the content, escaped or
    not, so the decoded content of [say Q hi Q] is [say] and a
    backslash, and the line written from it has lost the rest. *)
Theorem roundtrip_loses_quoted_content :
  parseLine (encodeMemory quotedRecord) = Some quotedRecordDecoded
  /\ content quotedRecordDecoded <> content quotedRecord
  /\ option_map encodeMemory (parseLine (encodeMemory quotedRecord))
     <> Some (encodeMemory quotedRecord).
Proof.
  split; [vm_compute; reflexivity|].
  split; [vm_compute; discriminate|].
  vm_compute; discriminate.
Qed.

(** Without quotes in the content the same record goes through, with or
    without issue and tags. *)
Example roundtrip_plain_content :
  forallb (fun m => match parseLine (encodeMemory m) with
                    | Some m' => String.eqb (encodeMemory m') (encodeMemory m)
                    | None => false
                    end)
    [mkMemory "2026-02-21T10:00:00.000Z" "decision" "auth" "use JWT" None None;
     mkMemory "2026-02-21T10:00:00.000Z" "decision" "auth" "use JWT"
              (Some "#51") None;
     mkMemory "2026-02-21T10:00:00.000Z" "decision" "auth" "use JWT"
              None (Some ["a"; "b"]);
     mkMemory "2026-02-21T10:00:00.000Z" "decision" "auth" "use JWT"
              (Some "#51") (Some ["a"; "b"])] = true.
Proof. vm_compute. reflexivity. Qed.



(** ** Objects *)

Section AssocFacts.
Variable V : Type.

Lemma assocGet_assocSet (k k' : string) (v : V) (o : list (string * V)) :
  assocGet k (assocSet k' v o)
  = if String.eqb k k' then Some v else assocGet k o.
Proof.
  induction o as [|[k0 v0] o IH]; simpl.
  - destruct (String.eqb k k'); reflexivity.
  - destruct (String.eqb k' k0) eqn:E0; simpl.
    + apply String.eqb_eq in E0; subst k0.
      destruct (String.eqb k k'); reflexivity.
    + destruct (String.eqb k k0) eqn:E1.
      * apply String.eqb_eq in E1; subst k0.
        rewrite String.eqb_sym in E0. now rewrite E0.
      * exact IH.
Qed.

(** A property of a spread is the last one the spread object has under
    that key, and the one of the target otherwise. *)
Lemma assocGet_assocSpread (k : string) (p o : list (string * V)) :
  assocGet k (assocSpread o p)
  = match assocGet k (assocSpread [] p) with
    | Some v => Some v
    | None => assocGet k o
    end.
Proof.
  unfold assocSpread. revert o.
  induction p as [|[k1 v1] p IH]; intros o; simpl; [reflexivity|].
  rewrite (IH (assocSet k1 v1 o)), (IH [(k1, v1)]).
  destruct (assocGet k (fold_left _ p [])); [reflexivity|].
  rewrite assocGet_assocSet. simpl. now destruct (String.eqb k k1).
Qed.

Lemma assocGet_objectLiteral_absent (k : string) (p : list (string * V)) :
  inStrings k (map fst p) = false -> assocGet k (objectLiteral p) = None.
Proof.
  unfold objectLiteral, assocSpread.
  assert (G : forall o, assocGet k o = None ->
                inStrings k (map fst p) = false ->
                assocGet k (fold_left
                              (fun acc kv => assocSet (fst kv) (snd kv) acc)
                              p o) = None).
  { induction p as [|[k1 v1] p IH]; intros o Ho H; simpl in *; [assumption|].
    apply orb_false_elim in H as [H1 H2].
    apply IH; [|assumption].
    rewrite assocGet_assocSet. now rewrite H1. }
  now apply G.
Qed.
End AssocFacts.

(** ** Running the logger *)

Lemma ensureDir_run (d : string) (w : World) :
  ensureDir d w = (tt, ensured d w).
Proof.
  unfold ensureDir, ensured, bind, dirExists, mkdirP, ret.
  now destruct (inStrings d (dirs w)).
Qed.

Lemma ensured_settings (d : string) (w : World) :
  settings (ensured d w) = settings w.
Proof. unfold ensured. now destruct (inStrings d (dirs w)). Qed.

Lemma ensured_files (d : string) (w : World) :
  files (ensured d w) = files w.
Proof. unfold ensured. now destruct (inStrings d (dirs w)). Qed.

Lemma ensured_journal (d : string) (w : World) :
  journal (ensured d w) = journal w.
Proof. unfold ensured. now destruct (inStrings d (dirs w)). Qed.

Lemma ensured_clock (d : string) (w : World) :
  clock (ensured d w) = clock w.
Proof. unfold ensured. now destruct (inStrings d (dirs w)). Qed.

Lemma ensured_timeline (d : string) (w : World) :
  timeline (ensured d w) = timeline w.
Proof. unfold ensured. now destruct (inStrings d (dirs w)). Qed.

Lemma ensured_sessionAgents (d : string) (w : World) :
  sessionAgents (ensured d w) = sessionAgents w.
Proof. unfold ensured. now destruct (inStrings d (dirs w)). Qed.

Lemma ensured_textOf (d path : string) (w : World) :
  textOf path (ensured d w) = textOf path w.
Proof. unfold textOf. now rewrite ensured_files. Qed.

Lemma shouldLogScope_run (scope : string) (w : World) :
  shouldLogScope scope w = (logsScope scope w, w).
Proof.
  unfold shouldLogScope, logsScope, bind, getSettings, ret.
  destruct (enabled (logger (settings w))); simpl; [|reflexivity].
  now destruct (scopes (logger (settings w))).
Qed.

Lemma appendJsonLog_run (scope : string) (payload : list (string * Json))
    (w : World) :
  appendJsonLog scope payload w
  = (tt, if logsScope scope w then logged payload w else w).
Proof.
  unfold appendJsonLog, bind. rewrite shouldLogScope_run.
  destruct (logsScope scope w); cbn [negb]; [|reflexivity].
  unfold getSettings. rewrite ensureDir_run.
  unfold nowISO. rewrite existingText_run. unfold writeFile, logged, logPath.
  cbn [settings tick timeline clock].
  rewrite ensured_timeline, ensured_clock.
  change (textOf ?p (tick ?x)) with (textOf p x).
  now rewrite ensured_textOf.
Qed.

Lemma logDeletion_run (m : Memory) (reason : string) (w : World) :
  logDeletion m reason w = (tt, audited m reason w).
Proof.
  unfold logDeletion, bind, getSettings. rewrite ensureDir_run.
  unfold nowISO, memoryPath, bind, getSettings, ret.
  rewrite existingText_run. unfold writeFile, audited, deletionsPath, memoryFile.
  cbn [settings tick timeline clock].
  rewrite ?ensured_settings, ?ensured_timeline, ?ensured_clock.
  change (textOf ?p (tick ?x)) with (textOf p x).
  now rewrite ensured_textOf.
Qed.

Lemma logged_journal (payload : list (string * Json)) (w : World) :
  journal (logged payload w)
  = (journal w
     ++ [(logPath w,
          (textOf (logPath w) w ++ stringify (JObj payload)
           ++ String newline EmptyString)%string)])%list.
Proof.
  unfold logged; cbn [journal written tick]. now rewrite ensured_journal.
Qed.

Lemma audited_journal (m : Memory) (reason : string) (w : World) :
  journal (audited m reason w)
  = (journal w
     ++ [(deletionsPath w,
          (textOf (deletionsPath w) w
           ++ deletionLine (timeline w (clock w)) m reason)%string)])%list.
Proof.
  unfold audited; cbn [journal written tick]. now rewrite ensured_journal.
Qed.

(** ** Events *)

Lemma envelope_literal (now eventName : string) (input : EventInput) :
  objectLiteral (envelope now eventName input) = envelope now eventName input.
Proof. reflexivity. Qed.

Lemma assocGet_event (k now eventName : string) (input : EventInput) :
  assocGet k (buildLoggerEventAt now eventName input)
  = match assocGet k (objectLiteral (match payload input with
                                     | Some p => p
                                     | None => []
                                     end)) with
    | Some v => Some v
    | None => assocGet k (envelope now eventName input)
    end.
Proof.
  unfold buildLoggerEventAt. rewrite assocGet_assocSpread, envelope_literal.
  reflexivity.
Qed.

Lemma envelope_has_keys (k now eventName : string) (input : EventInput) :
  In k envelopeKeys -> exists v, assocGet k (envelope now eventName input) = Some v.
Proof.
  unfold envelopeKeys; simpl.
  intros [<-|[<-|[<-|[<-|[<-|[<-|[<-|[<-|[]]]]]]]]];
    eexists; reflexivity.
Qed.

(** C7, as the code has it.  The event [buildLoggerEvent] returns has
    every envelope key; each payload field is a top-level field of the
    event with the payload's value, also when its key is an envelope key;
    an envelope field keeps the envelope's value when the payload has no
    field of that key; and [appendJsonLog] adds the JSON text of the
    event and a line terminator at the end of the log file. *)
Theorem event_is_envelope_overlaid_by_payload :
  forall (now eventName k scope : string) (input : EventInput) (w : World),
    let event := buildLoggerEventAt now eventName input in
    let given := objectLiteral (match payload input with
                                | Some p => p
                                | None => []
                                end) in
    (In k envelopeKeys -> exists v, assocGet k event = Some v)
    /\ (forall v, assocGet k given = Some v -> assocGet k event = Some v)
    /\ (assocGet k given = None ->
        assocGet k event = assocGet k (envelope now eventName input))
    /\ (logsScope scope w = true ->
        journal (snd (appendJsonLog scope event w))
        = (journal w
           ++ [(logPath w,
                (textOf (logPath w) w ++ stringify (JObj event)
                 ++ String newline EmptyString)%string)])%list).
Proof.
  intros now eventName k scope input w event given.
  unfold event, given. split; [|split; [|split]].
  - intros Hk. rewrite assocGet_event.
    destruct (assocGet k (objectLiteral _)) as [v|]; [now exists v|].
    now apply envelope_has_keys.
  - intros v Hv. now rewrite assocGet_event, Hv.
  - intros Hn. now rewrite assocGet_event, Hn.
  - intros Hl. rewrite appendJsonLog_run, Hl. apply logged_journal.
Qed.

Lemma event_is_envelope_overlaid_by_payload_witness :
  In "session_id" envelopeKeys
  /\ assocGet "session_id"
       (objectLiteral [("tool", JStr "read"); ("session_id", JStr "ses_other")])
     = Some (JStr "ses_other")
  /\ assocGet "session_id"
       (buildLoggerEventAt "2026-02-21T00:00:00.000Z" "tool_execute_before"
                           spoofInput)
     = Some (JStr "ses_other")
  /\ logsScope "tool" testWorld = true
  /\ journal (snd (appendJsonLog "tool"
                     (buildLoggerEventAt "2026-02-21T00:00:00.000Z"
                                         "tool_execute_before" spoofInput)
                     testWorld))
     = (journal testWorld
        ++ [(logPath testWorld,
             (textOf (logPath testWorld) testWorld
              ++ stringify (JObj (buildLoggerEventAt "2026-02-21T00:00:00.000Z"
                                    "tool_execute_before" spoofInput))
              ++ String newline EmptyString)%string)])%list.
Proof.
  destruct (event_is_envelope_overlaid_by_payload
              "2026-02-21T00:00:00.000Z" "tool_execute_before" "session_id"
              "tool" spoofInput testWorld) as (_ & Hp & _ & Hw).
  split; [simpl; tauto|].
  split; [reflexivity|].
  split; [apply Hp; reflexivity|].
  split; [reflexivity|].
  apply Hw; reflexivity.
Defined.

(** C7, as the claim states it, fails: a payload with the key
    [session_id] replaces the envelope's session id in the event, and in
    the line that is written. *)
Lemma payload_overwrites_envelope_field :
  assocGet "session_id"
    (envelope "2026-02-21T00:00:00.000Z" "tool_execute_before" spoofInput)
  = Some (JStr "ses_123")
  /\ assocGet "session_id"
       (buildLoggerEventAt "2026-02-21T00:00:00.000Z" "tool_execute_before"
                           spoofInput)
     = Some (JStr "ses_other")
  /\ ~ (forall now eventName k input,
          In k envelopeKeys ->
          assocGet k (buildLoggerEventAt now eventName input)
          = assocGet k (envelope now eventName input)).
Proof.
  split; [reflexivity|]. split; [reflexivity|].
  intros H.
  specialize (H "2026-02-21T00:00:00.000Z" "tool_execute_before" "session_id"
                spoofInput).
  assert (I : In "session_id" envelopeKeys) by (simpl; tauto).
  apply H in I. vm_compute in I. discriminate.
Qed.

(** The payloads of the three hooks carry no envelope key, so the events
    the plugin itself logs keep every value of the envelope. *)
Lemma hook_events_keep_envelope (now eventName sid k : string)
    (known : option string) (a b c d : Json) :
  In k envelopeKeys ->
  let input3 := mkEventInput sid None None known
                  (Some (objectLiteral [("message_id", a); ("model", b);
                                        ("parts", c)])) in
  let input4 := mkEventInput sid None None known
                  (Some (objectLiteral [("call_id", a); ("tool", b);
                                        ("title", c); ("output", d)])) in
  let input3' := mkEventInput sid None None known
                   (Some (objectLiteral [("call_id", a); ("tool", b);
                                         ("args", c)])) in
  assocGet k (buildLoggerEventAt now eventName input3)
  = assocGet k (envelope now eventName input3)
  /\ assocGet k (buildLoggerEventAt now eventName input4)
     = assocGet k (envelope now eventName input4)
  /\ assocGet k (buildLoggerEventAt now eventName input3')
     = assocGet k (envelope now eventName input3').
Proof.
  unfold envelopeKeys; cbn [In].
  intros [<-|[<-|[<-|[<-|[<-|[<-|[<-|[<-|[]]]]]]]]];
    repeat split; reflexivity.
Qed.

(** C8, as the code has it.  When the payload has no field of that name,
    [root_session_id] is the parent id handed to [buildLoggerEvent] if
    there is one (and it is not empty), and the session's own id
    otherwise.  That is the nearest ancestor without a parent when the
    session has no parent, or when its parent has none; the parent chain
    is not walked any further. *)
Theorem root_session_is_given_parent_or_self :
  forall (now eventName : string) (input : EventInput)
         (parentOf : string -> option string) (depth : nat),
    assocGet "root_session_id"
      (objectLiteral (match payload input with
                      | Some p => p
                      | None => []
                      end)) = None ->
    let root := assocGet "root_session_id"
                  (buildLoggerEventAt now eventName input) in
    root = Some (JStr (match parentSessionID input with
                       | Some p => if isEmpty p then sessionID input else p
                       | None => sessionID input
                       end))
    /\ (parentSessionID input = None -> root = Some (JStr (sessionID input)))
    /\ (parentOf (sessionID input) = parentSessionID input ->
        match parentSessionID input with
        | Some p => negb (isEmpty p)
                    && match parentOf p with
                       | None => true
                       | Some _ => false
                       end
        | None => true
        end = true ->
        root = Some (JStr (specRoot parentOf (S (S depth)) (sessionID input)))).
Proof.
  intros now eventName input parentOf depth Hp root.
  assert (R : root
              = Some (JStr (match parentSessionID input with
                            | Some p => if isEmpty p then sessionID input else p
                            | None => sessionID input
                            end))).
  { unfold root. rewrite assocGet_event, Hp. reflexivity. }
  split; [exact R|]. split.
  - intros Hn. rewrite R, Hn. reflexivity.
  - intros Hpar Hshallow. rewrite R. cbn [specRoot]. rewrite Hpar.
    destruct (parentSessionID input) as [p|]; [|reflexivity].
    apply andb_prop in Hshallow as [Hne Hroot].
    destruct (isEmpty p); [discriminate|].
    destruct (parentOf p); [discriminate | reflexivity].
Qed.

Lemma root_session_is_given_parent_or_self_witness :
  assocGet "root_session_id" (objectLiteral (@nil (string * Json))) = None
  /\ chainParent "ses_sub" = Some "ses_main"
  /\ assocGet "root_session_id"
       (buildLoggerEventAt "2026-02-21T00:00:00.000Z" "tool_execute_before"
          (mkEventInput "ses_sub" (Some "ses_main") None None None))
     = Some (JStr (specRoot chainParent 2 "ses_sub"))
  /\ specRoot chainParent 2 "ses_sub" = "ses_main".
Proof.
  destruct (root_session_is_given_parent_or_self
              "2026-02-21T00:00:00.000Z" "tool_execute_before"
              (mkEventInput "ses_sub" (Some "ses_main") None None None)
              chainParent 0 eq_refl) as (_ & _ & H).
  split; [reflexivity|]. split; [reflexivity|].
  split; [apply H; reflexivity | reflexivity].
Defined.

(** C8, as the claim states it, fails: for a session two levels below
    the main session the event names the immediate parent, which itself
    has a parent, and not the session at the top of the chain. *)
Lemma root_session_is_not_the_top_ancestor :
  assocGet "root_session_id"
    (buildLoggerEventAt "2026-02-21T00:00:00.000Z" "tool_execute_before"
       (mkEventInput "ses_leaf" (chainParent "ses_leaf") None None None))
  = Some (JStr "ses_sub")
  /\ chainParent "ses_sub" = Some "ses_main"
  /\ specRoot chainParent 3 "ses_leaf" = "ses_main"
  /\ assocGet "root_session_id"
       (buildLoggerEventAt "2026-02-21T00:00:00.000Z" "tool_execute_before"
          (mkEventInput "ses_leaf" (chainParent "ses_leaf") None None None))
     <> Some (JStr (specRoot chainParent 3 "ses_leaf")).
Proof.
  repeat split; try reflexivity. vm_compute. discriminate.
Qed.

(** ** Where the hooks write *)

Lemma chatMessage_journal (input : ChatInput) (parts : Json) (w : World) :
  logsScope "chat" w = true ->
  exists text,
    journal (snd (chatMessage input parts w))
    = (journal w
       ++ [((dir (logger (settings w)) ++ "/"
             ++ datePart (timeline w (S (clock w))) ++ ".jsonl")%string,
            text)])%list.
Proof.
  intros Hl. unfold chatMessage, bind, buildLoggerEvent, bind, nowISO.
  destruct (match c_agent input with
            | Some a => if isEmpty a then ret tt
                        else setSessionAgent (c_sessionID input) a
            | None => ret tt
            end w) as [u w1] eqn:E.
  assert (S1 : settings w1 = settings w /\ journal w1 = journal w
               /\ timeline w1 = timeline w /\ clock w1 = clock w).
  { destruct (c_agent input) as [a|]; [destruct (isEmpty a)|];
      unfold ret, setSessionAgent in E; inversion E; subst; auto. }
  destruct S1 as (Hs & Hj & Ht & Hc).
  unfold ret; cbv beta iota. rewrite appendJsonLog_run.
  assert (L : logsScope "chat" (tick w1) = true)
    by (unfold logsScope in *; cbn [settings tick]; now rewrite Hs).
  rewrite L. cbn [snd]. rewrite logged_journal.
  unfold logPath; cbn [settings tick timeline clock journal].
  rewrite Hs, Hj, Ht, Hc. eexists; reflexivity.
Qed.

(** C6.  In the scenario of the plugin's own tests (logger on, a
    sub-agent session [ses_sub] under [ses_main], and the main session
    itself) [chat.message] writes one file, the log of the day in the
    logger directory, for both sessions; the files the tests and the
    claim name, [explore-ses_sub.jsonl] and [main.jsonl] under
    [sessions/2026-02-21-fix-auth-bug] in the memory directory, are not
    written. *)
Theorem chat_events_go_to_the_log_of_the_day :
  map fst (journal (snd (chatMessage subChat (JArr []) testWorld)))
  = ["/tmp/repo/.opencode/logs/memory/2026-02-21.jsonl"]
  /\ map fst (journal (snd (chatMessage mainChat (JArr []) testWorld)))
     = ["/tmp/repo/.opencode/logs/memory/2026-02-21.jsonl"]
  /\ (memoryDir (settings testWorld) ++ "/sessions/"
      ++ specSessionFile subInfo (Some mainInfo) (Some "explore"))%string
     = "/tmp/repo/.opencode/memory/sessions/2026-02-21-fix-auth-bug/explore-ses_sub.jsonl"
  /\ (memoryDir (settings testWorld) ++ "/sessions/"
      ++ specSessionFile mainInfo None (Some "main"))%string
     = "/tmp/repo/.opencode/memory/sessions/2026-02-21-fix-auth-bug/main.jsonl"
  /\ hasFile "/tmp/repo/.opencode/memory/sessions/2026-02-21-fix-auth-bug/explore-ses_sub.jsonl"
       (snd (chatMessage subChat (JArr []) testWorld)) = false
  /\ hasFile "/tmp/repo/.opencode/memory/sessions/2026-02-21-fix-auth-bug/main.jsonl"
       (snd (chatMessage mainChat (JArr []) testWorld)) = false.
Proof.
  repeat split; vm_compute; reflexivity.
Qed.

(** ** Running update *)

Lemma findMatches_run (argScope argType : string) (w : World)
    (names : list string) (matches : list Match) :
  findMatches argScope argType names matches w
  = (scanMatches argScope argType w names matches, w).
Proof.
  revert matches; induction names as [|n names IH]; intros matches;
    cbn [findMatches scanMatches].
  - reflexivity.
  - destruct (String.eqb n deletionsName); [apply IH|].
    unfold bind, memoryPath, getSettings, fileText, ret, bind.
    now rewrite IH.
Qed.

Lemma rewriteTarget_run (args : UpdateArgs) (target : Match) (w : World) :
  rewriteTarget args target w = (tt, rewritten args target w).
Proof.
  unfold rewriteTarget, bind. rewrite logDeletion_run.
  unfold fileText, nowISO, writeFile. rewrite appendJsonLog_run.
  reflexivity.
Qed.

(** What [update] does, in one equation. *)
Lemma updateOutcome_run (args : UpdateArgs) (w : World) :
  updateOutcome args w
  = if inStrings (memoryDir (settings w)) (dirs w)
    then match scannedNames w with
         | [] => (NoMemoryFiles, w)
         | names =>
             match selectTarget args
                     (scanMatches (u_scope args) (u_type args) w names []) with
             | inl outcome => (outcome, w)
             | inr target => (Updated, rewritten args target w)
             end
         end
    else (NoMemoryFiles, w).
Proof.
  unfold updateOutcome, bind, getSettings, dirExists, scanLogfmt, ret,
    scannedNames.
  destruct (inStrings (memoryDir (settings w)) (dirs w)); cbn [negb];
    [|reflexivity].
  destruct (scanNames (memoryDir (settings w)) (files w)) as [|n names];
    [reflexivity|].
  rewrite findMatches_run.
  destruct (selectTarget args _) as [o|t]; [reflexivity|].
  now rewrite rewriteTarget_run.
Qed.

Lemma selectTarget_outcome (args : UpdateArgs) (matches : list Match)
    (o : UpdateOutcome) :
  selectTarget args matches = inl o -> o <> Updated.
Proof.
  unfold selectTarget.
  destruct matches as [|m1 [|m2 rest]].
  - intros [= <-]; discriminate.
  - discriminate.
  - destruct (truthy (u_query args)).
    + destruct (sortByScore _ _); [intros [= <-]|]; discriminate.
    + intros [= <-]; discriminate.
Qed.

(** C10. When [update] does not reach the rewrite (no memory directory
    or file, no match, several matches and no query, or a query under
    which no match scores above zero), the world it returns is the world
    it was given: no file is written, no audit line is appended, the clock
    is not read. *)
Theorem update_without_target_changes_nothing :
  forall (args : UpdateArgs) (w : World),
    fst (updateOutcome args w) <> Updated ->
    snd (updateOutcome args w) = w
    /\ update args w = (updateMessage args (fst (updateOutcome args w)), w)
    /\ files (snd (update args w)) = files w
    /\ journal (snd (update args w)) = journal w.
Proof.
  intros args w H.
  assert (S : snd (updateOutcome args w) = w).
  { rewrite updateOutcome_run in *.
    destruct (inStrings (memoryDir (settings w)) (dirs w)); [|reflexivity].
    destruct (scannedNames w) as [|n names]; [reflexivity|].
    destruct (selectTarget args _) as [o|t]; [reflexivity|].
    now contradiction H. }
  assert (U : update args w
              = (updateMessage args (fst (updateOutcome args w)), w)).
  { unfold update, bind, ret.
    destruct (updateOutcome args w) as [o w'] eqn:E. simpl in S. now subst. }
  split; [exact S|]. split; [exact U|]. now rewrite U.
Qed.

Lemma update_without_target_changes_nothing_witness :
  fst (updateOutcome (mkUpdate "api" "decision" "use both" None None None)
                     storeWorld) <> Updated
  /\ snd (updateOutcome (mkUpdate "api" "decision" "use both" None None None)
                        storeWorld) = storeWorld
  /\ fst (update (mkUpdate "api" "decision" "use both" None None None)
                 storeWorld)
     = "Found 2 memories for decision/api. Provide a query to select which one to update, or use recall to see all matches.".
Proof.
  assert (H : fst (updateOutcome
                     (mkUpdate "api" "decision" "use both" None None None)
                     storeWorld) <> Updated)
    by (vm_compute; discriminate).
  destruct (update_without_target_changes_nothing
              (mkUpdate "api" "decision" "use both" None None None)
              storeWorld H) as (Hw & Hu & _).
  split; [exact H|]. split; [exact Hw|].
  rewrite Hu. vm_compute. reflexivity.
Defined.

(** ** Paths *)

Lemma sappend_inj_l (a b c : string) : (a ++ b = a ++ c)%string -> b = c.
Proof.
  induction a as [|x a IH]; simpl; [trivial|].
  intros [= H]. now apply IH.
Qed.

Lemma memoryFile_inj (w : World) (n n' : string) :
  memoryFile w n = memoryFile w n' -> n = n'.
Proof.
  unfold memoryFile. intros H.
  apply sappend_inj_l in H. now apply (sappend_inj_l "/") in H.
Qed.

Lemma lastChar_append (a b : string) :
  b <> EmptyString -> lastChar (a ++ b) = lastChar b.
Proof.
  intros Hb; induction a as [|x a IH]; [reflexivity|].
  cbn [append lastChar]. destruct (a ++ b)%string eqn:E; [|exact IH].
  destruct a; [simpl in E; contradiction | discriminate].
Qed.

Lemma endsWith_split (suffix s : string) :
  endsWith suffix s = true -> exists pre, s = (pre ++ suffix)%string.
Proof.
  induction s as [|c s IH]; cbn [endsWith]; intros H.
  - rewrite orb_false_r in H. apply String.eqb_eq in H. subst.
    now exists EmptyString.
  - apply orb_prop in H as [H|H].
    + apply String.eqb_eq in H. exists EmptyString. now rewrite H.
    + destruct (IH H) as [pre ->]. now exists (String c pre).
Qed.

Lemma lastChar_logfmt (d name : string) :
  endsWith ".logfmt" name = true ->
  lastChar (d ++ "/" ++ name) = Some "t"%char.
Proof.
  intros H. apply endsWith_split in H as [pre ->].
  rewrite <- !sappend_assoc. now rewrite lastChar_append.
Qed.

Lemma lastChar_jsonl (d date : string) :
  lastChar (d ++ "/" ++ date ++ ".jsonl") = Some "l"%char.
Proof.
  rewrite <- !sappend_assoc. now rewrite lastChar_append.
Qed.

(** A log of the day is never a file the scan of the memory directory
    lists, nor the audit file. *)
Lemma logPath_not_logfmt (w w' : World) (name : string) :
  endsWith ".logfmt" name = true -> memoryFile w name <> logPath w'.
Proof.
  intros H E. unfold memoryFile, logPath in E.
  pose proof (lastChar_logfmt (memoryDir (settings w)) _ H) as L.
  rewrite E, lastChar_jsonl in L. discriminate.
Qed.

Lemma scanNames_In (d name : string) (fs : list (string * string)) :
  In name (scanNames d fs) ->
  endsWith ".logfmt" name = true
  /\ exists text, In ((d ++ "/" ++ name)%string, text) fs.
Proof.
  unfold scanNames. rewrite in_flat_map.
  intros ([path text] & Hin & H). cbn [fst] in H.
  unfold entryName in H.
  destruct (dropPrefix (d ++ "/") path) as [n|] eqn:D; [|contradiction].
  destruct (includes n "/"); [contradiction|].
  destruct (endsWith ".logfmt" n) eqn:E; [|contradiction].
  destruct H as [<-|[]]. split; [assumption|].
  apply dropPrefix_inv in D. exists text.
  now rewrite D, sappend_assoc in Hin.
Qed.

(** ** What update finds *)

Lemma matchLines_located (argScope argType path : string)
    (lines : list string) (i : nat) (acc : list Match) :
  matchLines argScope argType path lines i acc
  = (acc ++ located argScope argType path lines i)%list.
Proof.
  revert i acc; induction lines as [|line rest IH]; intros i acc;
    cbn [matchLines located].
  - now rewrite app_nil_r.
  - destruct (parseLine line) as [m|]; [|apply IH].
    destruct (sameScopeType argScope argType m); [|apply IH].
    rewrite IH, <- app_assoc. reflexivity.
Qed.

Lemma scanMatches_located (argScope argType : string) (w : World)
    (names : list string) (acc : list Match) :
  scanMatches argScope argType w names acc
  = (acc ++ flat_map
              (fun name =>
                 located argScope argType (memoryFile w name)
                   (splitOn newline (textOf (memoryFile w name) w)) 0)
              (filter isDayFile names))%list.
Proof.
  revert acc; induction names as [|n names IH]; intros acc;
    cbn [scanMatches filter].
  - now rewrite app_nil_r.
  - unfold isDayFile at 1.
    destruct (String.eqb n deletionsName); cbn [negb]; [apply IH|].
    rewrite IH, matchLines_located, <- app_assoc. reflexivity.
Qed.

Lemma sameScopeType_true (argScope argType : string) (m : Memory) :
  sameScopeType argScope argType m = true
  <-> scope m = argScope /\ type m = argType.
Proof.
  unfold sameScopeType. rewrite andb_true_iff, !String.eqb_eq. tauto.
Qed.

Lemma located_In (argScope argType path : string) (lines : list string)
    (i : nat) (t : Match) :
  In t (located argScope argType path lines i)
  <-> filepath t = path /\ i <= lineIndex t
      /\ exists line, nth_error lines (lineIndex t - i) = Some line
                      /\ parseLine line = Some (memory t)
                      /\ sameScopeType argScope argType (memory t) = true.
Proof.
  revert i; induction lines as [|line rest IH]; intros i; cbn [located].
  - split; [intros [] | intros (_ & _ & l & H & _)].
    now destruct (lineIndex t - i).
  - assert (Later :
      In t (located argScope argType path rest (S i))
      <-> filepath t = path /\ S i <= lineIndex t
          /\ exists l, nth_error (line :: rest) (lineIndex t - i) = Some l
                       /\ parseLine l = Some (memory t)
                       /\ sameScopeType argScope argType (memory t) = true).
    { rewrite IH. split; intros (Hp & Hi & l & Hn & Hrest);
        (split; [assumption|]); (split; [assumption|]); exists l;
        (split; [|assumption]);
        replace (lineIndex t - i) with (S (lineIndex t - S i)) in * by lia;
        exact Hn. }
    assert (Here : forall m,
      parseLine line = Some m ->
      sameScopeType argScope argType m = true ->
      (mkMatch m path i = t
       <-> filepath t = path /\ lineIndex t = i
           /\ parseLine line = Some (memory t)
           /\ sameScopeType argScope argType (memory t) = true)).
    { intros m Hm Hs. split.
      - intros <-. cbn. auto.
      - intros (Hp & Hi & Hl & _). destruct t as [m' p' i']; cbn in *.
        subst. rewrite Hm in Hl. now inversion Hl. }
    assert (Split :
      (filepath t = path /\ i <= lineIndex t
       /\ exists l, nth_error (line :: rest) (lineIndex t - i) = Some l
                    /\ parseLine l = Some (memory t)
                    /\ sameScopeType argScope argType (memory t) = true)
      <-> (filepath t = path /\ lineIndex t = i
           /\ parseLine line = Some (memory t)
           /\ sameScopeType argScope argType (memory t) = true)
          \/ (filepath t = path /\ S i <= lineIndex t
              /\ exists l, nth_error (line :: rest) (lineIndex t - i) = Some l
                           /\ parseLine l = Some (memory t)
                           /\ sameScopeType argScope argType (memory t) = true)).
    { split.
      - intros (Hp & Hi & l & Hn & Hl & Hs).
        destruct (Nat.eq_dec (lineIndex t) i) as [E|E].
        + left. rewrite E, Nat.sub_diag in Hn. cbn in Hn.
          inversion Hn; subst l. auto.
        + right. split; [assumption|]. split; [lia|]. now exists l.
      - intros [(Hp & Hi & Hl & Hs)|(Hp & Hi & l & Hn & Hl & Hs)].
        + split; [assumption|]. split; [lia|]. exists line.
          rewrite Hi, Nat.sub_diag. cbn. auto.
        + split; [assumption|]. split; [lia|]. now exists l. }
    rewrite Split.
    destruct (parseLine line) as [m|] eqn:Hm.
    + destruct (sameScopeType argScope argType m) eqn:Hs.
      * cbn [In]. rewrite (Here m eq_refl Hs), Later. tauto.
      * rewrite Later. split; [tauto|].
        intros [(_ & _ & Hl & Hs')|H]; [|assumption].
        inversion Hl; subst m. rewrite Hs in Hs'. discriminate.
    + rewrite Later. split; [tauto|].
      intros [(_ & _ & Hl & _)|H]; [discriminate | assumption].
Qed.

(** The matches of [update]: the lines of the day files, located by
    file and line index, whose record has the scope and the type asked
    for. *)
Lemma scanMatches_In (argScope argType : string) (w : World) (t : Match) :
  In t (scanMatches argScope argType w (scannedNames w) [])
  <-> exists name,
        In name (dayNames w) /\ filepath t = memoryFile w name
        /\ exists line,
             nth_error (splitOn newline (textOf (filepath t) w)) (lineIndex t)
             = Some line
             /\ parseLine line = Some (memory t)
             /\ scope (memory t) = argScope /\ type (memory t) = argType.
Proof.
  rewrite scanMatches_located. cbn [app]. rewrite in_flat_map.
  fold (dayNames w). split.
  - intros (name & Hn & H). apply located_In in H.
    destruct H as (Hp & _ & line & Hl & Hpl & Hs).
    exists name. split; [assumption|]. split; [assumption|].
    exists line. rewrite Nat.sub_0_r, <- Hp in Hl.
    apply sameScopeType_true in Hs. tauto.
  - intros (name & Hn & Hp & line & Hl & Hpl & Hs).
    exists name. split; [assumption|]. apply located_In.
    split; [assumption|]. split; [lia|]. exists line.
    rewrite Nat.sub_0_r, <- Hp. split; [assumption|].
    split; [assumption|]. now apply sameScopeType_true.
Qed.

(** ** Sorting by score *)

Section SortFacts.
Variable A : Type.
Variable score : A -> nat.

Lemma insertByScore_not_nil (x : A) (l : list A) : insertByScore score x l <> [].
Proof.
  destruct l as [|y ys]; cbn [insertByScore]; [discriminate|].
  destruct (score x <? score y)%nat; discriminate.
Qed.

Lemma sortByScore_nil (l : list A) : sortByScore score l = [] -> l = [].
Proof.
  destruct l as [|a l]; [reflexivity|].
  unfold sortByScore; cbn [fold_right]. intros H.
  now apply insertByScore_not_nil in H.
Qed.

Lemma insertByScore_In (x y : A) (l : list A) :
  In y (insertByScore score x l) <-> y = x \/ In y l.
Proof.
  induction l as [|z l IH]; cbn [insertByScore].
  - cbn. intuition.
  - destruct (score x <? score z)%nat; cbn [In]; [rewrite IH|];
      intuition.
Qed.

Lemma sortByScore_In (y : A) (l : list A) :
  In y (sortByScore score l) <-> In y l.
Proof.
  induction l as [|x l IH]; [reflexivity|].
  unfold sortByScore in *; cbn [fold_right In].
  rewrite insertByScore_In, IH. intuition.
Qed.

Lemma insertByScore_perm (x : A) (l : list A) :
  Permutation (insertByScore score x l) (x :: l).
Proof.
  induction l as [|y l IH]; cbn [insertByScore]; [reflexivity|].
  destruct (score x <? score y)%nat; [|reflexivity].
  rewrite IH. apply perm_swap.
Qed.

(** Sorting rearranges, and leaves the scores in descending order. *)
Lemma sortByScore_perm (l : list A) : Permutation (sortByScore score l) l.
Proof.
  induction l as [|x l IH]; [reflexivity|].
  unfold sortByScore in *; cbn [fold_right].
  rewrite insertByScore_perm. now constructor.
Qed.

Lemma insertByScore_sorted (x : A) (l : list A) :
  Sorted (fun a b => score b <= score a) l ->
  Sorted (fun a b => score b <= score a) (insertByScore score x l).
Proof.
  induction l as [|y l IH]; cbn [insertByScore]; intros S.
  - repeat constructor.
  - destruct (score x <? score y)%nat eqn:C.
    + apply Nat.ltb_lt in C. inversion S as [|? ? S' H]; subst.
      constructor; [now apply IH|].
      destruct l as [|z l]; cbn [insertByScore].
      * constructor. lia.
      * destruct (score x <? score z)%nat; constructor;
          [now inversion H | lia].
    + apply Nat.ltb_ge in C. constructor; [assumption|]. now constructor.
Qed.

Lemma sortByScore_sorted (l : list A) :
  Sorted (fun a b => score b <= score a) (sortByScore score l).
Proof.
  induction l as [|x l IH]; [constructor|].
  unfold sortByScore in *; cbn [fold_right]. now apply insertByScore_sorted.
Qed.

(** The first element after sorting has the highest score. *)
Lemma sortByScore_head (l : list A) (h : A) (rest : list A) :
  sortByScore score l = h :: rest ->
  In h l /\ forall y, In y l -> score y <= score h.
Proof.
  revert h rest; induction l as [|a l IH]; intros h rest H.
  - discriminate.
  - unfold sortByScore in *; cbn [fold_right] in H.
    destruct (fold_right (insertByScore score) [] l) as [|y ys] eqn:S.
    + apply sortByScore_nil in S; subst l.
      cbn in H. inversion H; subst. split; [now left|].
      intros z [->|[]]. lia.
    + destruct (IH y ys eq_refl) as (Hy & Hmax).
      cbn [insertByScore] in H.
      destruct (score a <? score y)%nat eqn:C.
      * apply Nat.ltb_lt in C. inversion H; subst.
        split; [now right|]. intros z [->|Hz]; [lia | now apply Hmax].
      * apply Nat.ltb_ge in C. inversion H; subst.
        split; [now left|]. intros z [->|Hz]; [lia|].
        specialize (Hmax z Hz). lia.
Qed.
End SortFacts.

(** ** Replacing a line *)

Lemma setLine_length (i : nat) (v : string) (lines : list string) :
  i < List.length lines ->
  List.length (setLine i v lines) = List.length lines.
Proof.
  revert i; induction lines as [|l lines IH]; intros i H; [cbn in H; lia|].
  destruct i as [|i]; cbn [setLine List.length]; [reflexivity|].
  rewrite IH; [reflexivity | cbn in H; lia].
Qed.

Lemma setLine_same (i : nat) (v : string) (lines : list string) :
  nth_error (setLine i v lines) i = Some v.
Proof.
  revert lines; induction i as [|i IH]; intros [|l lines]; cbn; auto.
Qed.

Lemma setLine_other (i j : nat) (v : string) (lines : list string) :
  i < List.length lines -> j <> i ->
  nth_error (setLine i v lines) j = nth_error lines j.
Proof.
  revert i j; induction lines as [|l lines IH]; intros i j H N;
    [cbn in H; lia|].
  destruct i as [|i], j as [|j]; cbn; try reflexivity; try lia.
  apply IH; [cbn in H; lia | lia].
Qed.

(** ** Reading after writing *)

Lemma textOf_written (p q text : string) (w : World) :
  textOf p (written q text w)
  = if String.eqb p q then text else textOf p w.
Proof.
  unfold textOf; cbn [files written]. rewrite assocGet_assocSet.
  now destruct (String.eqb p q).
Qed.

Lemma textOf_tick (p : string) (w : World) : textOf p (tick w) = textOf p w.
Proof. reflexivity. Qed.

Lemma textOf_audited (p : string) (m : Memory) (reason : string) (w : World) :
  textOf p (audited m reason w)
  = if String.eqb p (deletionsPath w)
    then (textOf (deletionsPath w) w
          ++ deletionLine (timeline w (clock w)) m reason)%string
    else textOf p w.
Proof.
  unfold audited. rewrite textOf_written, textOf_tick, ensured_textOf.
  reflexivity.
Qed.

Lemma textOf_logged (p : string) (payload : list (string * Json)) (w : World) :
  textOf p (logged payload w)
  = if String.eqb p (logPath w)
    then (textOf (logPath w) w ++ stringify (JObj payload)
          ++ String newline EmptyString)%string
    else textOf p w.
Proof.
  unfold logged. rewrite textOf_written, textOf_tick, ensured_textOf.
  reflexivity.
Qed.

Lemma audited_settings (m : Memory) (reason : string) (w : World) :
  settings (audited m reason w) = settings w.
Proof. unfold audited; cbn. apply ensured_settings. Qed.

Lemma audited_clock (m : Memory) (reason : string) (w : World) :
  clock (audited m reason w) = S (clock w).
Proof. unfold audited; cbn. now rewrite ensured_clock. Qed.

Lemma audited_timeline (m : Memory) (reason : string) (w : World) :
  timeline (audited m reason w) = timeline w.
Proof. unfold audited; cbn. apply ensured_timeline. Qed.

Lemma deletionsPath_audited (m : Memory) (reason : string) (w : World) :
  deletionsPath (audited m reason w) = deletionsPath w.
Proof. unfold deletionsPath, memoryFile. now rewrite audited_settings. Qed.

Lemma deletionsName_logfmt : endsWith ".logfmt" deletionsName = true.
Proof. reflexivity. Qed.

(** ** Choosing the target *)

Lemma filter_nil (A : Type) (p : A -> bool) (l : list A) :
  filter p l = [] -> forall x, In x l -> p x = false.
Proof.
  induction l as [|a l IH]; cbn [filter]; intros H x [].
  - subst. destruct (p x); [discriminate | reflexivity].
  - destruct (p a); [discriminate | now apply IH].
Qed.

Lemma selectTarget_many (args : UpdateArgs) (m1 m2 : Match)
    (rest : list Match) :
  let matches := m1 :: m2 :: rest in
  (truthy (u_query args) = false ->
   selectTarget args matches = inl (QueryNeeded (List.length matches)))
  /\ (truthy (u_query args) = true ->
      ((forall t, In t matches -> matchScore args t = 0)
       /\ selectTarget args matches
          = inl (NoneMatchedQuery (List.length matches)))
      \/ (exists t, In t matches /\ 0 < matchScore args t
                    /\ (forall t', In t' matches ->
                                   matchScore args t' <= matchScore args t)
                    /\ selectTarget args matches = inr t)).
Proof.
  intros matches. unfold selectTarget. fold matches. split.
  - intros Hq. subst matches. now rewrite Hq.
  - intros Hq. subst matches. rewrite Hq.
    set (matches := m1 :: m2 :: rest).
    set (words := queryWords _).
    set (f := fun m : Match => (m, scoreMatch (memory m) words)).
    destruct (sortByScore snd (filter (fun x => (0 <? snd x)%nat)
                                      (map f matches)))
      as [|best scored] eqn:S.
    + left. split; [|reflexivity].
      intros t Ht. apply sortByScore_nil in S.
      pose proof (filter_nil _ _ S (f t) (in_map f _ _ Ht)) as Z.
      cbn [snd f] in Z. apply Nat.ltb_ge in Z. unfold matchScore.
      fold words. lia.
    + right. apply sortByScore_head in S as (Hin & Hmax).
      apply filter_In in Hin as (Hin & Hpos).
      apply in_map_iff in Hin as (t & <- & Ht).
      exists t. cbn [fst snd f] in *. apply Nat.ltb_lt in Hpos.
      split; [assumption|]. split; [assumption|]. split; [|reflexivity].
      intros t' Ht'. unfold matchScore. fold words.
      destruct (scoreMatch (memory t') words) as [|n] eqn:E; [lia|].
      specialize (Hmax (f t')). cbn [snd f] in Hmax. rewrite E in Hmax.
      apply Hmax. apply filter_In. split; [now apply in_map|].
      cbn [snd f]. rewrite E. reflexivity.
Qed.

(** ** The rewrite *)

Lemma updatedLine_inherits (now : string) (args : UpdateArgs) (t : Match) :
  updatedLine now args t
  = encodeLine now (u_type args) (u_scope args) (u_content args)
      (inherited (u_issue args) (issue (memory t)))
      (inherited (u_tags args) (tags (memory t))).
Proof. reflexivity. Qed.

Section Rewritten.
Variables (args : UpdateArgs) (t : Match) (w : World).
Hypothesis apart : filepath t <> deletionsPath w.
Hypothesis target_logfmt : lastChar (filepath t) = Some "t"%char.

Let now0 := timeline w (clock w).
Let now1 := timeline w (S (clock w)).
Let auditText : string :=
  textOf (deletionsPath w) w
  ++ deletionLine now0 (memory t) ("Updated to: " ++ u_content args).
Let newText : string :=
  join (String newline EmptyString)
       (setLine (lineIndex t) (updatedLine now1 args t)
                (splitOn newline (textOf (filepath t) w))).

Lemma lastChar_deletionsPath : lastChar (deletionsPath w) = Some "t"%char.
Proof. apply lastChar_logfmt, deletionsName_logfmt. Qed.

Lemma lastChar_logPath (w' : World) : lastChar (logPath w') = Some "l"%char.
Proof. apply lastChar_jsonl. Qed.

Lemma rewritten_journal :
  exists logs,
    journal (rewritten args t w)
    = (journal w ++ [(deletionsPath w, auditText); (filepath t, newText)]
       ++ logs)%list
    /\ forall entry, In entry logs ->
                     lastChar (fst entry) = Some "l"%char.
Proof.
  unfold rewritten.
  set (w1 := audited (memory t) ("Updated to: " ++ u_content args) w).
  assert (T : textOf (filepath t) w1 = textOf (filepath t) w).
  { unfold w1. rewrite textOf_audited.
    apply String.eqb_neq in apart. now rewrite apart. }
  assert (N : timeline w1 (clock w1) = now1).
  { unfold w1, now1. now rewrite audited_timeline, audited_clock. }
  rewrite T, N. fold newText.
  set (w2 := written (filepath t) newText (tick w1)).
  assert (J : journal w2
              = (journal w ++ [(deletionsPath w, auditText);
                               (filepath t, newText)])%list).
  { unfold w2, w1; cbn [journal written tick].
    rewrite audited_journal, <- app_assoc. reflexivity. }
  destruct (logsScope (u_scope args) w2).
  - eexists [_]. rewrite logged_journal, J, <- app_assoc. split.
    + reflexivity.
    + intros entry [<-|[]]. apply lastChar_logPath.
  - exists []. rewrite J. split; [reflexivity | intros ? []].
Qed.

Lemma rewritten_textOf (p : string) :
  lastChar p = Some "t"%char ->
  textOf p (rewritten args t w)
  = if String.eqb p (filepath t) then newText
    else if String.eqb p (deletionsPath w) then auditText
    else textOf p w.
Proof.
  intros Hp. unfold rewritten.
  set (w1 := audited (memory t) ("Updated to: " ++ u_content args) w).
  assert (T : textOf (filepath t) w1 = textOf (filepath t) w).
  { unfold w1. rewrite textOf_audited.
    apply String.eqb_neq in apart. now rewrite apart. }
  assert (N : timeline w1 (clock w1) = now1).
  { unfold w1, now1. now rewrite audited_timeline, audited_clock. }
  rewrite T, N. fold newText.
  set (w2 := written (filepath t) newText (tick w1)).
  assert (R : textOf p w2
              = if String.eqb p (filepath t) then newText
                else if String.eqb p (deletionsPath w) then auditText
                else textOf p w).
  { unfold w2. rewrite textOf_written, textOf_tick. unfold w1.
    now rewrite textOf_audited. }
  destruct (logsScope (u_scope args) w2); [|exact R].
  rewrite textOf_logged.
  destruct (String.eqb p (logPath w2)) eqn:E; [|exact R].
  apply String.eqb_eq in E. rewrite E, lastChar_logPath in Hp. discriminate.
Qed.
End Rewritten.



Example update_grpc_files :
  fst (update grpcUpdate storeWorld)
  = String.append "Updated decision in api: " (quoted "use both")
  /\ map fst (journal (snd (update grpcUpdate storeWorld)))
     = [".opencode/memory/deletions.logfmt";
        ".opencode/memory/2026-02-21.logfmt";
        ".opencode/logs/memory/2026-02-22.jsonl"]
  /\ textOf ".opencode/memory/2026-02-21.logfmt"
            (snd (update grpcUpdate storeWorld))
     = (encodeLine "2026-02-22T09:00:01.000Z" "decision" "api" "use both"
          (Some "#5") (Some ["t1"; "t2"]) ++ nl
        ++ scopelessLine ++ nl
        ++ encodeLine "2026-02-21T11:00:00.000Z" "blocker" "x" "disk full"
             None None ++ nl)%string
  /\ textOf ".opencode/memory/2026-02-20.logfmt"
            (snd (update grpcUpdate storeWorld))
     = textOf ".opencode/memory/2026-02-20.logfmt" storeWorld.
Proof. repeat split; vm_compute; reflexivity. Qed.

(** ** Splitting and joining lines *)

Lemma splitOn_not_nil (sep : ascii) (s : string) : splitOn sep s <> [].
Proof.
  destruct s as [|c s]; cbn [splitOn]; [discriminate|].
  destruct (Ascii.eqb c sep); [discriminate|].
  destruct (splitOn sep s); discriminate.
Qed.

Lemma join_cons (sep p : string) (q : string) (rest : list string) :
  join sep (p :: q :: rest) = (p ++ sep ++ join sep (q :: rest))%string.
Proof. reflexivity. Qed.

(** Joining the pieces of a split gives the text back. *)
Lemma join_splitOn (sep : ascii) (s : string) :
  join (String sep EmptyString) (splitOn sep s) = s.
Proof.
  induction s as [|c s IH]; [reflexivity|].
  cbn [splitOn]. destruct (Ascii.eqb c sep) eqn:E.
  - apply Ascii.eqb_eq in E; subst c.
    destruct (splitOn sep s) as [|p rest] eqn:S;
      [now apply splitOn_not_nil in S|].
    rewrite join_cons, IH. reflexivity.
  - destruct (splitOn sep s) as [|p [|q rest]] eqn:S.
    + now apply splitOn_not_nil in S.
    + cbn in *. now rewrite IH.
    + rewrite join_cons in *. rewrite <- IH. reflexivity.
Qed.

Lemma splitOn_free (sep : ascii) (s : string) :
  forall piece, In piece (splitOn sep s) -> freeOf sep piece = true.
Proof.
  induction s as [|c s IH]; cbn [splitOn]; intros piece H.
  - destruct H as [<-|[]]. reflexivity.
  - destruct (Ascii.eqb c sep) eqn:E.
    + destruct H as [<-|H]; [reflexivity | now apply IH].
    + destruct (splitOn sep s) as [|p rest] eqn:S.
      * destruct H as [<-|[]]. cbn. now rewrite E.
      * destruct H as [<-|H].
        -- cbn. rewrite E. cbn. apply IH. now left.
        -- apply IH. now right.
Qed.

Lemma splitOn_free_piece (sep : ascii) (a : string) :
  freeOf sep a = true -> splitOn sep a = [a].
Proof.
  induction a as [|c a IH]; [reflexivity|].
  cbn. intros H. apply andb_prop in H as [Hc Ha].
  destruct (Ascii.eqb c sep); [discriminate|].
  now rewrite (IH Ha).
Qed.

Lemma splitOn_append (sep : ascii) (a b : string) :
  freeOf sep a = true ->
  splitOn sep (a ++ String sep b) = a :: splitOn sep b.
Proof.
  induction a as [|c a IH]; intros H.
  - cbn. now rewrite Ascii.eqb_refl.
  - cbn in H. apply andb_prop in H as [Hc Ha].
    cbn [append splitOn]. destruct (Ascii.eqb c sep); [discriminate|].
    now rewrite (IH Ha).
Qed.

(** Splitting the join of pieces that are free of the separator gives
    the pieces back. *)
Lemma splitOn_join (sep : ascii) (pieces : list string) :
  pieces <> [] ->
  (forall p, In p pieces -> freeOf sep p = true) ->
  splitOn sep (join (String sep EmptyString) pieces) = pieces.
Proof.
  induction pieces as [|p [|q rest] IH]; intros N F.
  - contradiction.
  - cbn [join]. apply splitOn_free_piece, F. now left.
  - rewrite join_cons. cbn [append].
    rewrite splitOn_append by (apply F; now left).
    rewrite IH; [reflexivity | discriminate |].
    intros p' H. apply F. now right.
Qed.

Lemma filter_all (A : Type) (p : A -> bool) (l : list A) :
  List.length (filter p l) = List.length l -> filter p l = l.
Proof.
  induction l as [|a l IH]; [reflexivity|].
  cbn [filter]. destruct (p a); cbn [List.length]; intros H.
  - f_equal. apply IH. lia.
  - pose proof (filter_length_le p l). lia.
Qed.

(** ** Running forget *)

Lemma filterLines_run (argScope argType : string) (lines : list string)
    (acc : Deleted) :
  filterLines argScope argType lines acc
  = (filter (fun line => negb (isTarget argScope argType line)) lines,
     (fst acc + List.length (removedOf argScope argType lines),
      (snd acc ++ removedOf argScope argType lines)%list)).
Proof.
  revert acc; induction lines as [|line rest IH]; intros [d ms];
    cbn [filterLines filter removedOf fst snd List.length].
  - now rewrite Nat.add_0_r, app_nil_r.
  - unfold isTarget. destruct (parseLine line) as [m|].
    + destruct (sameScopeType argScope argType m); cbn [negb].
      * rewrite IH. cbn [fst snd List.length Nat.add].
        rewrite <- app_assoc, Nat.add_succ_r. reflexivity.
      * now rewrite IH.
    + cbn [negb]. now rewrite IH.
Qed.

Lemma purged_settings (args : ForgetArgs) (name : string) (w : World) :
  settings (purged args name w) = settings w.
Proof. unfold purged. now destruct (_ =? _)%nat. Qed.

Lemma forgetFiles_run (args : ForgetArgs) (names : list string)
    (acc : Deleted) (w : World) :
  forgetFiles args names acc w
  = ((fst acc + List.length (removedAll args names w),
      (snd acc ++ removedAll args names w)%list),
     purgedAll args names w).
Proof.
  revert acc w; induction names as [|n names IH]; intros [d ms] w;
    cbn [forgetFiles removedAll purgedAll fst snd List.length].
  - unfold ret. now rewrite Nat.add_0_r, app_nil_r.
  - destruct (String.eqb n deletionsName); [apply IH|].
    unfold bind, memoryPath, getSettings, fileText, ret, bind.
    fold (memoryFile w n). rewrite filterLines_run.
    cbv beta iota.
    assert (P : (if negb (List.length
                            (filter (fun line =>
                                       negb (isTarget (f_scope args)
                                                      (f_type args) line))
                               (splitOn newline (textOf (memoryFile w n) w)))
                          =? List.length
                               (splitOn newline (textOf (memoryFile w n) w)))%nat
                 then writeFile (memoryFile w n)
                        (join (String newline EmptyString)
                           (filter (fun line =>
                                      negb (isTarget (f_scope args)
                                                     (f_type args) line))
                              (splitOn newline (textOf (memoryFile w n) w))))
                 else fun w0 => (tt, w0)) w
                = (tt, purged args n w)).
    { unfold purged, writeFile. now destruct (_ =? _)%nat. }
    rewrite P, IH. cbn [fst snd].
    rewrite length_app, <- app_assoc. f_equal. f_equal. lia.
Qed.

Lemma forEach_logDeletion_run (reason : string) (removed : list Memory)
    (w : World) :
  forEach removed (fun m => logDeletion m reason) w
  = (tt, auditedAll reason removed w).
Proof.
  revert w; induction removed as [|m removed IH]; intros w;
    cbn [forEach]; [reflexivity|].
  unfold bind. rewrite logDeletion_run. apply IH.
Qed.

(** The world after the loops and the log entry of [forget]. *)
Lemma forgetOutcome_run (args : ForgetArgs) (w : World) :
  forgetOutcome args w
  = if inStrings (memoryDir (settings w)) (dirs w)
    then match scannedNames w with
         | [] => (ForgetNoMemoryFiles, w)
         | names =>
             let removed := removedAll args names w in
             let w1 := auditedAll (f_reason args) removed
                         (purgedAll args names w) in
             let event :=
               objectLiteral [("ts", JStr (timeline w1 (clock w1)));
                              ("event", JStr "memory_forget");
                              ("scope", JStr (f_scope args));
                              ("memory_type", JStr (f_type args));
                              ("reason", JStr (f_reason args))] in
             (match List.length removed with
              | O => ForgetNoneFound
              | S _ => ForgetDeleted (List.length removed)
              end,
              if logsScope (f_scope args) (tick w1)
              then logged event (tick w1) else tick w1)
         end
    else (ForgetNoMemoryFiles, w).
Proof.
  unfold forgetOutcome, bind, getSettings, dirExists, scanLogfmt, ret,
    scannedNames.
  destruct (inStrings (memoryDir (settings w)) (dirs w)); cbn [negb];
    [|reflexivity].
  destruct (scanNames (memoryDir (settings w)) (files w)) as [|n names];
    [reflexivity|].
  rewrite forgetFiles_run. cbn [fst snd Nat.add].
  rewrite forEach_logDeletion_run. unfold nowISO.
  rewrite appendJsonLog_run.
  now destruct (List.length (removedAll args (n :: names) w)).
Qed.

(** ** What forget leaves *)

Lemma purgedText_unchanged (argScope argType text : string) :
  List.length (filter (fun line => negb (isTarget argScope argType line))
                      (splitOn newline text))
  = List.length (splitOn newline text) ->
  purgedText argScope argType text = text.
Proof.
  intros H. unfold purgedText. rewrite (filter_all _ _ H).
  apply join_splitOn.
Qed.

Lemma textOf_purged (p : string) (args : ForgetArgs) (name : string)
    (w : World) :
  textOf p (purged args name w)
  = if String.eqb p (memoryFile w name)
    then purgedText (f_scope args) (f_type args) (textOf p w)
    else textOf p w.
Proof.
  unfold purged.
  destruct (_ =? _)%nat eqn:E.
  - destruct (String.eqb p (memoryFile w name)) eqn:P; [|reflexivity].
    apply String.eqb_eq in P; subst p. apply Nat.eqb_eq in E.
    now rewrite purgedText_unchanged.
  - rewrite textOf_written.
    destruct (String.eqb p (memoryFile w name)) eqn:P; [|reflexivity].
    apply String.eqb_eq in P; subst p. reflexivity.
Qed.

Lemma purged_clock (args : ForgetArgs) (name : string) (w : World) :
  clock (purged args name w) = clock w.
Proof. unfold purged. now destruct (_ =? _)%nat. Qed.

Lemma purged_timeline (args : ForgetArgs) (name : string) (w : World) :
  timeline (purged args name w) = timeline w.
Proof. unfold purged. now destruct (_ =? _)%nat. Qed.

Lemma memoryFile_purged (args : ForgetArgs) (name n : string) (w : World) :
  memoryFile (purged args name w) n = memoryFile w n.
Proof. unfold memoryFile. now rewrite purged_settings. Qed.

Lemma purgedAll_frame (args : ForgetArgs) (names : list string) (w : World) :
  settings (purgedAll args names w) = settings w
  /\ clock (purgedAll args names w) = clock w
  /\ timeline (purgedAll args names w) = timeline w.
Proof.
  revert w; induction names as [|n names IH]; intros w; cbn [purgedAll];
    [auto|].
  destruct (String.eqb n deletionsName); [apply IH|].
  destruct (IH (purged args n w)) as (-> & -> & ->).
  now rewrite purged_settings, purged_clock, purged_timeline.
Qed.

Lemma isAmong_In (w : World) (names : list string) (n : string) :
  In n names -> isDayFile n = true -> isAmong w names (memoryFile w n) = true.
Proof.
  intros Hin Hd. unfold isAmong. apply existsb_exists.
  exists n. split; [assumption|]. now rewrite Hd, String.eqb_refl.
Qed.

Lemma isAmong_absent (w : World) (names : list string) (n : string) :
  ~ In n names -> isAmong w names (memoryFile w n) = false.
Proof.
  intros Hn. unfold isAmong.
  destruct (existsb _ names) eqn:E; [|reflexivity].
  apply existsb_exists in E as (n' & Hin & H).
  apply andb_prop in H as [_ H]. apply String.eqb_eq, memoryFile_inj in H.
  subst n'. contradiction.
Qed.

Lemma isAmong_absent_deletions (w : World) (names : list string) :
  isAmong w names (deletionsPath w) = false.
Proof.
  unfold isAmong. destruct (existsb _ names) eqn:E; [|reflexivity].
  apply existsb_exists in E as (n & _ & H).
  apply andb_prop in H as [Hd H]. unfold deletionsPath in H.
  apply String.eqb_eq, memoryFile_inj in H. subst n.
  unfold isDayFile in Hd. now rewrite String.eqb_refl in Hd.
Qed.

Lemma textOf_purgedAll (p : string) (args : ForgetArgs)
    (names : list string) (w : World) :
  NoDup names ->
  textOf p (purgedAll args names w)
  = if isAmong w names p
    then purgedText (f_scope args) (f_type args) (textOf p w)
    else textOf p w.
Proof.
  revert w; induction names as [|n names IH]; intros w ND;
    cbn [purgedAll]; [reflexivity|].
  inversion ND as [|? ? Hn ND']; subst.
  unfold isAmong; cbn [existsb]; fold (isAmong w names p).
  unfold isDayFile at 1.
  destruct (String.eqb n deletionsName); cbn [negb andb orb];
    [now apply IH|].
  rewrite (IH _ ND'), textOf_purged.
  assert (A : isAmong (purged args n w) names p = isAmong w names p).
  { unfold isAmong. clear. induction names as [|n' names IH]; cbn [existsb];
      [reflexivity|]. now rewrite IH, memoryFile_purged. }
  rewrite A.
  destruct (String.eqb p (memoryFile w n)) eqn:P; cbn [orb]; [|reflexivity].
  apply String.eqb_eq in P; subst p.
  now rewrite isAmong_absent by assumption.
Qed.

Lemma removedAll_doomed (args : ForgetArgs) (names : list string) (w : World) :
  NoDup names ->
  removedAll args names w
  = flat_map (fun name =>
                removedOf (f_scope args) (f_type args)
                  (splitOn newline (textOf (memoryFile w name) w)))
             (filter isDayFile names).
Proof.
  revert w; induction names as [|n names IH]; intros w ND;
    cbn [removedAll filter]; [reflexivity|].
  inversion ND as [|? ? Hn ND']; subst.
  unfold isDayFile at 1.
  destruct (String.eqb n deletionsName); cbn [negb]; [now apply IH|].
  cbn [flat_map]. f_equal. rewrite (IH _ ND').
  rewrite !flat_map_concat_map. f_equal. apply map_ext_in.
  intros n' Hn'. apply filter_In in Hn' as [Hn' _].
  rewrite memoryFile_purged, textOf_purged.
  destruct (String.eqb (memoryFile w n') (memoryFile w n)) eqn:E;
    [|reflexivity].
  apply String.eqb_eq, memoryFile_inj in E. subst n'. contradiction.
Qed.

Lemma auditedAll_frame (reason : string) (removed : list Memory) (w : World) :
  settings (auditedAll reason removed w) = settings w
  /\ clock (auditedAll reason removed w) = clock w + List.length removed
  /\ timeline (auditedAll reason removed w) = timeline w.
Proof.
  unfold auditedAll.
  revert w; induction removed as [|m removed IH]; intros w;
    cbn [fold_left List.length]; [auto with arith|].
  destruct (IH (audited m reason w)) as (-> & -> & ->).
  rewrite audited_settings, audited_clock, audited_timeline.
  repeat split; lia.
Qed.

Lemma textOf_auditedAll (p reason : string) (removed : list Memory)
    (w : World) :
  textOf p (auditedAll reason removed w)
  = if String.eqb p (deletionsPath w)
    then (textOf p w ++ auditText (timeline w) (clock w) reason removed)%string
    else textOf p w.
Proof.
  unfold auditedAll.
  revert w; induction removed as [|m removed IH]; intros w;
    cbn [fold_left auditText].
  - destruct (String.eqb p (deletionsPath w)); [|reflexivity].
    now rewrite sappend_nil_r.
  - rewrite IH, deletionsPath_audited, audited_timeline, audited_clock,
      textOf_audited.
    destruct (String.eqb p (deletionsPath w)) eqn:E; [|reflexivity].
    apply String.eqb_eq in E; subst p. now rewrite sappend_assoc.
Qed.

Lemma inStrings_In (x : string) (l : list string) :
  inStrings x l = true <-> In x l.
Proof.
  unfold inStrings. rewrite existsb_exists. split.
  - intros (y & Hy & E). apply String.eqb_eq in E. now subst.
  - intros H. exists x. split; [assumption | apply String.eqb_refl].
Qed.

Lemma distinctPaths_NoDup (paths : list string) :
  distinctPaths paths = true -> NoDup paths.
Proof.
  induction paths as [|p rest IH]; cbn [distinctPaths]; intros H.
  - constructor.
  - apply andb_prop in H as [Hp Hr]. constructor; [|now apply IH].
    intros Hin. apply inStrings_In in Hin. now rewrite Hin in Hp.
Qed.

Lemma scanNames_NoDup (d : string) (fs : list (string * string)) :
  NoDup (map fst fs) -> NoDup (scanNames d fs).
Proof.
  induction fs as [|[path text] fs IH]; cbn [map fst]; intros ND.
  - constructor.
  - inversion ND as [|? ? Hn ND']; subst.
    unfold scanNames; cbn [flat_map fst]. fold (scanNames d fs).
    unfold entryName.
    destruct (dropPrefix (d ++ "/") path) as [name|] eqn:D;
      [|now apply IH].
    destruct (includes name "/"); [now apply IH|].
    destruct (endsWith ".logfmt" name); [|now apply IH].
    cbn [app]. constructor; [|now apply IH].
    intros Hin. apply scanNames_In in Hin as (_ & text' & Hin).
    apply Hn. apply dropPrefix_inv in D.
    rewrite D, sappend_assoc. now apply (in_map fst) in Hin.
Qed.

Lemma removedOf_length (argScope argType : string) (lines : list string) :
  List.length (removedOf argScope argType lines)
  = List.length (filter (isTarget argScope argType) lines).
Proof.
  induction lines as [|line rest IH]; [reflexivity|].
  cbn [removedOf filter]. unfold isTarget at 1.
  destruct (parseLine line) as [m|]; [|exact IH].
  destruct (sameScopeType argScope argType m); [|exact IH].
  cbn [List.length]. now rewrite IH.
Qed.

(** No target line is left in the text [forget] writes. *)
Lemma purgedText_clean (argScope argType text line : string) :
  In line (splitOn newline (purgedText argScope argType text)) ->
  isTarget argScope argType line = false.
Proof.
  unfold purgedText.
  set (kept := filter _ (splitOn newline text)).
  destruct kept as [|k kept'] eqn:K.
  - cbn. intros [<-|[]]. reflexivity.
  - rewrite splitOn_join.
    + rewrite <- K. unfold kept. intros H. apply filter_In in H as [_ H].
      now destruct (isTarget argScope argType line).
    + discriminate.
    + intros p Hp. rewrite <- K in Hp. unfold kept in Hp.
      apply filter_In in Hp as [Hp _]. eapply splitOn_free; eassumption.
Qed.

Lemma forgetMessage_distinct (st : PluginSettings) (args : ForgetArgs)
    (o : ForgetOutcome) :
  o <> ForgetNoneFound ->
  forgetMessage st args ForgetNoneFound <> forgetMessage st args o.
Proof.
  destruct o as [| |n]; intros N; [|contradiction|]; cbn; discriminate.
Qed.



Example forget_blockers_files :
  fst (forget forgetBlockers storeWorld)
  = ("Deleted 2 blocker memory(s) from x. Reason: fixed" ++ nl
     ++ "Deletions logged to .opencode/memory/deletions.logfmt")%string
  /\ textOf ".opencode/memory/2026-02-20.logfmt"
            (snd (forget forgetBlockers storeWorld))
     = (encodeMemory apiRecord ++ nl)%string
  /\ textOf ".opencode/memory/2026-02-21.logfmt"
            (snd (forget forgetBlockers storeWorld))
     = (encodeLine "2026-02-21T10:00:00.000Z" "decision" "api" "use gRPC"
          (Some "#5") None ++ nl ++ scopelessLine ++ nl)%string
  /\ textOf ".opencode/memory/deletions.logfmt"
            (snd (forget forgetBlockers storeWorld))
     = (textOf ".opencode/memory/deletions.logfmt" storeWorld
        ++ deletionLine "2026-02-22T09:00:00.000Z"
             (mkMemory "2026-02-20T11:00:00.000Z" "blocker" "x" "ci is red"
                       None None) "fixed"
        ++ deletionLine "2026-02-22T09:00:01.000Z"
             (mkMemory "2026-02-21T11:00:00.000Z" "blocker" "x" "disk full"
                       None None) "fixed")%string
  /\ fst (forget (mkForget "api" "blocker" "none") storeWorld)
     = "No memories found for blocker in api".
Proof. repeat split; vm_compute; reflexivity. Qed.

(** ** The audit file *)

Lemma scanNames_assocSet (d p text : string) (fs : list (string * string)) :
  scanNames d (assocSet p text fs)
  = if inStrings p (map fst fs) then scanNames d fs
    else (scanNames d fs ++ scanNames d [(p, text)])%list.
Proof.
  induction fs as [|[q t] fs IH]; cbn [assocSet map fst inStrings existsb];
    [reflexivity|].
  fold (inStrings p (map fst fs)).
  destruct (String.eqb p q) eqn:E; cbn [orb].
  - apply String.eqb_eq in E; subst q. reflexivity.
  - unfold scanNames in *; cbn [flat_map]. rewrite IH.
    destruct (inStrings p (map fst fs)); [reflexivity|].
    now rewrite app_assoc.
Qed.

Lemma filter_none (A : Type) (p : A -> bool) (l : list A) :
  (forall x, In x l -> p x = false) -> filter p l = [].
Proof.
  induction l as [|a l IH]; intros H; [reflexivity|].
  cbn [filter]. rewrite (H a) by now left.
  apply IH. intros x Hx. apply H. now right.
Qed.

Section OtherAudit.
Variables (w : World) (text : string).

(** The same store with [text] in the audit file. *)
Let w' : World := written (deletionsPath w) text w.

Lemma dayNames_other_audit : dayNames w' = dayNames w.
Proof.
  unfold dayNames, scannedNames, w'; cbn [settings files written].
  rewrite scanNames_assocSet.
  destruct (inStrings (deletionsPath w) (map fst (files w))); [reflexivity|].
  rewrite filter_app, (filter_none isDayFile (scanNames _ [_])).
  - now rewrite app_nil_r.
  - intros name Hn. apply scanNames_In in Hn as (_ & t & [H|[]]).
    apply (f_equal fst) in H; cbn [fst] in H.
    unfold deletionsPath, memoryFile in H.
    apply sappend_inj_l in H. apply (sappend_inj_l "/") in H. subst name.
    reflexivity.
Qed.

Lemma textOf_other_audit (name : string) :
  isDayFile name = true ->
  textOf (memoryFile w' name) w' = textOf (memoryFile w name) w.
Proof.
  intros Hd. unfold w'. rewrite textOf_written.
  change (memoryFile (written (deletionsPath w) text w) name)
    with (memoryFile w name).
  destruct (String.eqb (memoryFile w name) (deletionsPath w)) eqn:E;
    [|reflexivity].
  apply String.eqb_eq, memoryFile_inj in E. subst name.
  unfold isDayFile in Hd. now rewrite String.eqb_refl in Hd.
Qed.

Lemma flat_map_dayNames (B : Type) (f g : string -> list B) :
  (forall name, isDayFile name = true -> f name = g name) ->
  flat_map f (dayNames w') = flat_map g (dayNames w).
Proof.
  intros H. rewrite dayNames_other_audit, !flat_map_concat_map.
  f_equal. apply map_ext_in. intros name Hn.
  apply H. unfold dayNames in Hn. now apply filter_In in Hn.
Qed.

Lemma dayLines_other_audit : dayLines w' = dayLines w.
Proof.
  unfold dayLines. apply flat_map_dayNames.
  intros name Hd. now rewrite textOf_other_audit.
Qed.

Lemma getAllMemories_other_audit :
  fst (getAllMemories w') = fst (getAllMemories w).
Proof.
  rewrite !getAllMemories_run; cbn [fst]. now rewrite dayLines_other_audit.
Qed.

Lemma scanMatches_other_audit (argScope argType : string) :
  scanMatches argScope argType w' (scannedNames w') []
  = scanMatches argScope argType w (scannedNames w) [].
Proof.
  rewrite !scanMatches_located; cbn [app].
  fold (dayNames w') (dayNames w). apply flat_map_dayNames.
  intros name Hd. rewrite textOf_other_audit by assumption. reflexivity.
Qed.

Lemma doomed_other_audit (argScope argType : string) :
  doomed argScope argType w' = doomed argScope argType w.
Proof.
  unfold doomed. apply flat_map_dayNames.
  intros name Hd. now rewrite textOf_other_audit.
Qed.
End OtherAudit.

Lemma recall_run (args : RecallArgs) (w : World) :
  recall args w = (recallText args (fst (getAllMemories w)), w).
Proof.
  unfold recall, bind, ret. now rewrite getAllMemories_run.
Qed.

Lemma listMemories_run (w : World) :
  listMemories w = (summaryText (fst (getAllMemories w)), w).
Proof.
  unfold listMemories, bind, ret. now rewrite getAllMemories_run.
Qed.

Lemma textOf_purgedAll_deletions (args : ForgetArgs) (names : list string)
    (w : World) :
  textOf (deletionsPath w) (purgedAll args names w)
  = textOf (deletionsPath w) w.
Proof.
  revert w; induction names as [|n names IH]; intros w; cbn [purgedAll];
    [reflexivity|].
  destruct (String.eqb n deletionsName) eqn:E; [apply IH|].
  assert (D : deletionsPath (purged args n w) = deletionsPath w)
    by (unfold deletionsPath, memoryFile; now rewrite purged_settings).
  rewrite <- D, IH, D, textOf_purged.
  destruct (String.eqb (deletionsPath w) (memoryFile w n)) eqn:P;
    [|reflexivity].
  apply String.eqb_eq, memoryFile_inj in P. subst n.
  now rewrite String.eqb_refl in E.
Qed.

Lemma selectTarget_In (args : UpdateArgs) (matches : list Match) (t : Match) :
  selectTarget args matches = inr t -> In t matches.
Proof.
  destruct matches as [|m1 [|m2 rest]].
  - discriminate.
  - cbn. intros [= <-]. now left.
  - destruct (selectTarget_many args m1 m2 rest) as [Hno Hq].
    destruct (truthy (u_query args)).
    + destruct (Hq eq_refl) as [(_ & E)|(t' & Ht' & _ & _ & E)];
        rewrite E; [discriminate|]. now intros [= <-].
    + rewrite (Hno eq_refl). discriminate.
Qed.

Lemma update_world (args : UpdateArgs) (w : World) :
  snd (update args w) = snd (updateOutcome args w).
Proof.
  unfold update, bind, ret. now destruct (updateOutcome args w).
Qed.

Lemma forget_world (args : ForgetArgs) (w : World) :
  snd (forget args w) = snd (forgetOutcome args w).
Proof.
  unfold forget, bind, getSettings, ret. now destruct (forgetOutcome args w).
Qed.

Lemma update_appends_to_audit (args : UpdateArgs) (w : World) :
  exists suffix,
    textOf (deletionsPath w) (snd (update args w))
    = (textOf (deletionsPath w) w ++ suffix)%string
    /\ (suffix = EmptyString
        \/ exists t,
             In t (scanMatches (u_scope args) (u_type args) w
                               (scannedNames w) [])
             /\ suffix = deletionLine (timeline w (clock w)) (memory t)
                           ("Updated to: " ++ u_content args)).
Proof.
  rewrite update_world, updateOutcome_run.
  assert (Same : exists suffix,
             textOf (deletionsPath w) w
             = (textOf (deletionsPath w) w ++ suffix)%string
             /\ (suffix = EmptyString
                 \/ exists t,
                      In t (scanMatches (u_scope args) (u_type args) w
                                        (scannedNames w) [])
                      /\ suffix = deletionLine (timeline w (clock w)) (memory t)
                                    ("Updated to: " ++ u_content args)))
    by (exists EmptyString; rewrite sappend_nil_r; auto).
  destruct (inStrings (memoryDir (settings w)) (dirs w)); [|exact Same].
  destruct (scannedNames w) as [|n names] eqn:N; [exact Same|].
  destruct (selectTarget args _) as [o|t] eqn:S; [exact Same|].
  apply selectTarget_In in S. rewrite <- N in *. cbn [snd].
  assert (S' := S). apply scanMatches_In in S' as (name & Hn & Hp & _).
  unfold dayNames in Hn. apply filter_In in Hn as [Hin Hd].
  apply scanNames_In in Hin as [Hext _].
  assert (apart : filepath t <> deletionsPath w).
  { rewrite Hp. unfold deletionsPath. intros E.
    apply memoryFile_inj in E. subst name.
    unfold isDayFile in Hd. now rewrite String.eqb_refl in Hd. }
  assert (Hlast : lastChar (filepath t) = Some "t"%char)
    by (rewrite Hp; now apply lastChar_logfmt).
  eexists. split.
  - rewrite rewritten_textOf
      by (assumption || apply lastChar_deletionsPath).
    apply not_eq_sym in apart. apply String.eqb_neq in apart.
    rewrite apart, String.eqb_refl. reflexivity.
  - right. exists t. split; [assumption | reflexivity].
Qed.

Lemma forget_appends_to_audit (args : ForgetArgs) (w : World) :
  exists removed,
    textOf (deletionsPath w) (snd (forget args w))
    = (textOf (deletionsPath w) w
       ++ auditText (timeline w) (clock w) (f_reason args) removed)%string.
Proof.
  rewrite forget_world, forgetOutcome_run.
  assert (Same : exists removed,
             textOf (deletionsPath w) w
             = (textOf (deletionsPath w) w
                ++ auditText (timeline w) (clock w) (f_reason args)
                     removed)%string)
    by (exists []; cbn [auditText]; now rewrite sappend_nil_r).
  destruct (inStrings (memoryDir (settings w)) (dirs w)); [|exact Same].
  destruct (scannedNames w) as [|n names] eqn:N; [exact Same|].
  rewrite <- N. cbv zeta. cbn [snd].
  set (removed := removedAll args (scannedNames w) w).
  set (w0 := purgedAll args (scannedNames w) w).
  set (w1 := auditedAll (f_reason args) removed w0).
  destruct (purgedAll_frame args (scannedNames w) w) as (Ps & Pc & Pt).
  fold w0 in Ps, Pc, Pt.
  assert (D : deletionsPath w0 = deletionsPath w)
    by (unfold deletionsPath, memoryFile; now rewrite Ps).
  exists removed.
  assert (T : textOf (deletionsPath w) w1
              = (textOf (deletionsPath w) w
                 ++ auditText (timeline w) (clock w) (f_reason args)
                      removed)%string).
  { unfold w1. rewrite textOf_auditedAll, D, String.eqb_refl, Pc, Pt.
    unfold w0. now rewrite textOf_purgedAll_deletions. }
  destruct (logsScope (f_scope args) (tick w1)); [|exact T].
  rewrite textOf_logged.
  destruct (String.eqb (deletionsPath w) (logPath (tick w1))) eqn:E;
    [|exact T].
  apply String.eqb_eq in E.
  pose proof (lastChar_deletionsPath w) as L.
  rewrite E, lastChar_logPath in L. discriminate.
Qed.

(** C9.  The audit file is not read by any scan: with any other text in
    it the full scan, [recall], [list], the matches of [update] and the
    records [forget] removes are the same.  The scan, [recall] and
    [list] change nothing at all; [update] leaves in the audit file its
    former text followed by nothing or by the audit line of its target;
    [forget] leaves its former text followed by the audit lines of the
    records removed.  So an audit line, although it decodes as a record,
    is never returned: the scan of a store holding only the audit file is
    empty. *)
Theorem audit_file_is_skipped_and_only_appended :
  forall (w : World) (text : string) (rargs : RecallArgs)
         (uargs : UpdateArgs) (fargs : ForgetArgs),
    let other := written (deletionsPath w) text w in
    fst (getAllMemories other) = fst (getAllMemories w)
    /\ fst (recall rargs other) = fst (recall rargs w)
    /\ fst (listMemories other) = fst (listMemories w)
    /\ scanMatches (u_scope uargs) (u_type uargs) other (scannedNames other) []
       = scanMatches (u_scope uargs) (u_type uargs) w (scannedNames w) []
    /\ doomed (f_scope fargs) (f_type fargs) other
       = doomed (f_scope fargs) (f_type fargs) w
    /\ snd (getAllMemories w) = w
    /\ snd (recall rargs w) = w
    /\ snd (listMemories w) = w
    /\ (exists suffix,
           textOf (deletionsPath w) (snd (update uargs w))
           = (textOf (deletionsPath w) w ++ suffix)%string
           /\ (suffix = EmptyString
               \/ exists t,
                    In t (scanMatches (u_scope uargs) (u_type uargs) w
                                      (scannedNames w) [])
                    /\ suffix = deletionLine (timeline w (clock w)) (memory t)
                                  ("Updated to: " ++ u_content uargs)))
    /\ (exists removed,
           textOf (deletionsPath w) (snd (forget fargs w))
           = (textOf (deletionsPath w) w
              ++ auditText (timeline w) (clock w) (f_reason fargs)
                   removed)%string)
    /\ parseLine (deletionLine "2026-02-19T00:00:00.000Z" apiRecord "stale")
       = Some (mkMemory "2026-02-19T00:00:00.000Z" "decision" "api"
                        "use REST" None None)
    /\ fst (getAllMemories auditOnlyWorld) = [].
Proof.
  intros w text rargs uargs fargs other. subst other.
  split; [apply getAllMemories_other_audit|].
  split; [rewrite !recall_run; cbn [fst];
          now rewrite (getAllMemories_other_audit w text)|].
  split; [rewrite !listMemories_run; cbn [fst];
          now rewrite (getAllMemories_other_audit w text)|].
  split; [apply scanMatches_other_audit|].
  split; [apply doomed_other_audit|].
  split; [now rewrite getAllMemories_run|].
  split; [now rewrite recall_run|].
  split; [now rewrite listMemories_run|].
  split; [apply update_appends_to_audit|].
  split; [apply forget_appends_to_audit|].
  split; vm_compute; reflexivity.
Qed.

(** * Further properties of the plugin's code *)

(** ** Escaping *)

Lemma escapeQuotes_head (s : string) :
  match escapeQuotes s with
  | String c _ => isQuote c = false
  | EmptyString => True
  end.
Proof.
  destruct s as [|c s]; cbn [escapeQuotes]; [exact I|].
  destruct (isQuote c) eqn:E; [reflexivity | exact E].
Qed.

(** X1.  Unescaping undoes escaping: for every text, replacing each
    double quote by backslash-quote and then each backslash-quote by a
    double quote gives the text back, also when the text has backslashes
    of its own. *)
Theorem unescapeQuotes_escapeQuotes :
  forall s : string, unescapeQuotes (escapeQuotes s) = s.
Proof.
  induction s as [|c s IH]; [reflexivity|].
  cbn [escapeQuotes]. destruct (isQuote c) eqn:Q.
  - cbn [unescapeQuotes]. rewrite Ascii.eqb_refl.
    change (isQuote dquote) with true. cbn [andb]. rewrite IH.
    unfold isQuote in Q. apply Ascii.eqb_eq in Q. now subst c.
  - pose proof (escapeQuotes_head s) as H.
    destruct (escapeQuotes s) as [|d rest].
    + cbn in IH. now rewrite <- IH.
    + change (unescapeQuotes (String c (String d rest)))
        with (if Ascii.eqb c backslash && isQuote d
              then String dquote (unescapeQuotes rest)
              else String c (unescapeQuotes (String d rest))).
      now rewrite H, andb_false_r, IH.
Qed.

(** ** Scores *)

Lemma searchable_type (m : Memory) :
  includes (searchable m) (toLowerCase (type m)) = true.
Proof.
  unfold searchable, toLowerCase. rewrite !smap_append.
  apply includes_prefix.
Qed.

Lemma scoreWord_bounds (m : Memory) (score : nat) (word : string) :
  (includes (searchable m) word = false -> scoreWord m score word = score)
  /\ (includes (searchable m) word = true ->
      score + 1 <= scoreWord m score word <= score + 5).
Proof.
  unfold scoreWord.
  destruct (String.eqb (toLowerCase (scope m)) word) eqn:Es.
  - apply String.eqb_eq in Es. subst word. rewrite searchable_scope.
    split; [discriminate|]. intros _.
    destruct (String.eqb (toLowerCase (type m)) (toLowerCase (scope m))); lia.
  - destruct (String.eqb (toLowerCase (type m)) word) eqn:Et.
    + apply String.eqb_eq in Et. subst word. rewrite searchable_type.
      split; [discriminate|]. intros _. lia.
    + destruct (includes (searchable m) word); split;
        try discriminate; intros _; lia.
Qed.

Lemma scoreMatch_fold_bounds (m : Memory) (words : list string) (acc : nat) :
  acc <= fold_left (scoreWord m) words acc <= acc + 5 * List.length words
  /\ (fold_left (scoreWord m) words acc = acc
      <-> forall w, In w words -> includes (searchable m) w = false).
Proof.
  revert acc; induction words as [|w words IH]; intros acc;
    cbn [fold_left List.length].
  - split; [lia|]. split; [intros _ ? [] | reflexivity].
  - destruct (IH (scoreWord m acc w)) as (B & Z).
    destruct (scoreWord_bounds m acc w) as (Hno & Hyes).
    destruct (includes (searchable m) w) eqn:I.
    + specialize (Hyes eq_refl). split; [lia|]. split.
      * intros E. lia.
      * intros H. specialize (H w (or_introl eq_refl)). congruence.
    + rewrite (Hno eq_refl) in *. split; [lia|]. rewrite Z. split.
      * intros H w' [<-|Hw']; [exact I | now apply H].
      * intros H w' Hw'. apply H. now right.
Qed.

(** X2.  A record scores zero for a query exactly when none of the query
    words occurs in its lower-cased text: the two bonuses are only ever
    given to a word that also counts as occurring.  A score is at least
    the number of query words that occur and at most five per word. *)
Theorem scoreMatch_zero_iff_no_word_occurs :
  forall (m : Memory) (words : list string),
    (scoreMatch m words = 0
     <-> forall w, In w words -> includes (searchable m) w = false)
    /\ scoreMatch m words <= 5 * List.length words
    /\ countIf (fun w => includes (searchable m) w) words
       <= scoreMatch m words.
Proof.
  intros m words. unfold scoreMatch.
  destruct (scoreMatch_fold_bounds m words 0) as (B & Z).
  split; [exact Z|]. split; [lia|].
  rewrite scoreMatch_from. unfold specScore. lia.
Qed.

(** ** What recall returns *)

Lemma includes_refl (s : string) : includes s s = true.
Proof.
  assert (S : startsWith s s = true).
  { unfold startsWith. rewrite <- (sappend_nil_r s) at 2.
    now rewrite dropPrefix_append. }
  destruct s; cbn [includes]; now rewrite S.
Qed.

Lemma insertByScore_map (A B : Type) (f : A -> B) (g : A -> nat)
    (h : B -> nat) (x : A) (l : list A) :
  (forall a, h (f a) = g a) ->
  insertByScore h (f x) (map f l) = map f (insertByScore g x l).
Proof.
  intros H; induction l as [|y l IH]; cbn [map insertByScore];
    [reflexivity|].
  rewrite !H. destruct (g x <? g y)%nat; cbn [map]; [now rewrite IH|].
  reflexivity.
Qed.

Lemma sortByScore_map (A B : Type) (f : A -> B) (g : A -> nat)
    (h : B -> nat) (l : list A) :
  (forall a, h (f a) = g a) ->
  sortByScore h (map f l) = map f (sortByScore g l).
Proof.
  intros H; induction l as [|x l IH]; [reflexivity|].
  unfold sortByScore in *; cbn [map fold_right].
  rewrite IH. now apply insertByScore_map.
Qed.

Lemma filter_map_comm (A B : Type) (f : A -> B) (p : B -> bool) (l : list A) :
  filter p (map f l) = map f (filter (fun a => p (f a)) l).
Proof.
  induction l as [|x l IH]; [reflexivity|].
  cbn [map filter]. destruct (p (f x)); cbn [map]; now rewrite IH.
Qed.

(** The decorate, filter, sort, undecorate chain of [recall] is a sort
    of the records that score above zero. *)
Lemma scored_chain (g : Memory -> nat) (l : list Memory) :
  map fst (sortByScore snd
             (filter (fun x => (0 <? snd x)%nat)
                (map (fun m => (m, g m)) l)))
  = sortByScore g (filter (fun m => (0 <? g m)%nat) l).
Proof.
  rewrite filter_map_comm. cbn [snd].
  rewrite (sortByScore_map (fun m => (m, g m)) g snd) by reflexivity.
  rewrite map_map. cbn [fst]. apply map_id.
Qed.

Lemma positive_score_iff (m : Memory) (words : list string) :
  (0 <? scoreMatch m words)%nat
  = existsb (fun w => includes (searchable m) w) words.
Proof.
  destruct (scoreMatch_fold_bounds m words 0) as (_ & Z).
  fold (scoreMatch m words) in Z.
  destruct (existsb _ words) eqn:E.
  - apply Nat.ltb_lt. apply existsb_exists in E as (w & Hw & I).
    destruct (scoreMatch m words) eqn:S; [|lia].
    rewrite (proj1 Z eq_refl w Hw) in I. discriminate.
  - apply Nat.ltb_ge. assert (scoreMatch m words = 0); [|lia].
    apply Z. intros w Hw.
    destruct (includes (searchable m) w) eqn:I; [|reflexivity].
    assert (X : existsb (fun w => includes (searchable m) w) words = true)
      by (apply existsb_exists; now exists w).
    congruence.
Qed.

Lemma filter_filter (A : Type) (p q : A -> bool) (l : list A) :
  filter q (filter p l) = filter (fun a => p a && q a) l.
Proof.
  induction l as [|x l IH]; [reflexivity|].
  cbn [filter]. destruct (p x); cbn [filter andb]; [|exact IH].
  destruct (q x); now rewrite IH.
Qed.

Lemma filter_true (A : Type) (l : list A) : filter (fun _ => true) l = l.
Proof. induction l as [|x l IH]; cbn; [reflexivity | now rewrite IH]. Qed.

(** The records [recall] keeps, with the filters written as one
    predicate. *)
Lemma recallFilter_wanted (args : RecallArgs) (all : list Memory) :
  recallFilter args all
  = if truthy (q_query args)
    then sortByScore (recallScore args) (filter (wanted args) all)
    else filter (wanted args) all.
Proof.
  unfold recallFilter, wanted, recallScore, truthy.
  set (byScope := fun m : Memory =>
                    match q_scope args with
                    | Some sc => isEmpty sc || includes (scope m) sc
                    | None => true
                    end).
  set (byType := fun m : Memory =>
                   match q_type args with
                   | Some ty => isEmpty ty || String.eqb (type m) ty
                   | None => true
                   end).
  assert (S1 : (if match q_scope args with
                   | Some s => negb (isEmpty s)
                   | None => false
                   end
                then filter (fun m => match q_scope args with
                                      | Some sc => String.eqb (scope m) sc
                                                   || includes (scope m) sc
                                      | None => false
                                      end) all
                else all) = filter byScope all).
  { unfold byScope. destruct (q_scope args) as [sc|];
      [|now rewrite filter_true].
    destruct (isEmpty sc); cbn [negb orb]; [now rewrite filter_true|].
    apply filter_ext. intros m.
    destruct (String.eqb (scope m) sc) eqn:E; [|reflexivity].
    apply String.eqb_eq in E. rewrite <- E. now rewrite includes_refl. }
  rewrite S1.
  assert (S2 : (if match q_type args with
                   | Some s => negb (isEmpty s)
                   | None => false
                   end
                then filter (fun m => match q_type args with
                                      | Some ty => String.eqb (type m) ty
                                      | None => false
                                      end) (filter byScope all)
                else filter byScope all)
               = filter (fun m => byScope m && byType m) all).
  { rewrite <- filter_filter. unfold byType.
    destruct (q_type args) as [ty|]; [|now rewrite filter_true].
    destruct (isEmpty ty); cbn [negb orb]; [now rewrite filter_true|].
    reflexivity. }
  rewrite S2.
  destruct (q_query args) as [q|].
  - destruct (isEmpty q); cbn [negb orb].
    + apply filter_ext. intros m. now rewrite andb_true_r.
    + rewrite scored_chain, filter_filter. f_equal.
      apply filter_ext. intros m. now rewrite positive_score_iff.
  - apply filter_ext. intros m. now rewrite andb_true_r.
Qed.

(** X3.  [recall] keeps exactly the scanned records that pass its
    filters (scope as a substring, type as given, at least one query
    word occurring in the record's text), each as often as it was
    scanned: in scan order when there is no query, and in descending
    order of score when there is one. *)
Theorem recall_keeps_what_is_wanted :
  forall (args : RecallArgs) (all : list Memory),
    (forall m, In m (recallFilter args all)
               <-> In m all /\ wanted args m = true)
    /\ Permutation (recallFilter args all) (filter (wanted args) all)
    /\ (truthy (q_query args) = false ->
        recallFilter args all = filter (wanted args) all)
    /\ (truthy (q_query args) = true ->
        Sorted (fun a b => recallScore args b <= recallScore args a)
               (recallFilter args all)).
Proof.
  intros args all. rewrite recallFilter_wanted.
  destruct (truthy (q_query args)).
  - split; [intros m; now rewrite sortByScore_In, filter_In|].
    split; [apply sortByScore_perm|].
    split; [discriminate | intros _; apply sortByScore_sorted].
  - split; [intros m; now rewrite filter_In|].
    split; [reflexivity|]. split; [reflexivity | discriminate].
Qed.

Lemma StronglySorted_app_le (A : Type) (R : A -> A -> Prop) (a b : list A) :
  StronglySorted R (a ++ b)%list ->
  forall x y, In x a -> In y b -> R x y.
Proof.
  induction a as [|h a IH]; intros S x y Hx Hy; [destruct Hx|].
  cbn [app] in S. apply StronglySorted_inv in S as (S & F).
  destruct Hx as [<-|Hx].
  - rewrite Forall_forall in F. apply F, in_or_app. now right.
  - now apply IH.
Qed.


(** ** What list counts *)

Section AssocKeys.
Variable V : Type.

Lemma assocGet_None_keys (k : string) (o : list (string * V)) :
  assocGet k o = None <-> ~ In k (map fst o).
Proof.
  induction o as [|[k0 v0] o IH]; cbn [assocGet map fst In]; [tauto|].
  destruct (String.eqb k k0) eqn:E.
  - apply String.eqb_eq in E. subst. split; [discriminate | tauto].
  - apply String.eqb_neq in E. rewrite IH. split; [|tauto].
    intros H [X|X]; [now apply E | now apply H].
Qed.

Lemma assocSet_keys (k : string) (v : V) (o : list (string * V)) :
  map fst (assocSet k v o)
  = match assocGet k o with
    | Some _ => map fst o
    | None => (map fst o ++ [k])%list
    end.
Proof.
  induction o as [|[k0 v0] o IH]; cbn [assocSet assocGet map fst app];
    [reflexivity|].
  destruct (String.eqb k k0) eqn:E; cbn [map fst].
  - apply String.eqb_eq in E. now subst.
  - rewrite IH. now destruct (assocGet k o).
Qed.

Lemma assocSet_keys_In (k k' : string) (v : V) (o : list (string * V)) :
  In k (map fst (assocSet k' v o)) <-> k = k' \/ In k (map fst o).
Proof.
  rewrite assocSet_keys. destruct (assocGet k' o) eqn:E.
  - split; [tauto|]. intros [->|H]; [|exact H].
    destruct (in_dec string_dec k' (map fst o)) as [I|N]; [exact I|].
    apply assocGet_None_keys in N. congruence.
  - rewrite in_app_iff. cbn [In]. intuition.
Qed.

Lemma assocSet_keys_NoDup (k : string) (v : V) (o : list (string * V)) :
  NoDup (map fst o) -> NoDup (map fst (assocSet k v o)).
Proof.
  intros N. rewrite assocSet_keys. destruct (assocGet k o) eqn:E; [exact N|].
  apply assocGet_None_keys in E.
  apply NoDup_app; [exact N | repeat constructor; intros [] |].
  intros x Hx [<-|[]]. contradiction.
Qed.
End AssocKeys.

Lemma countOf_assocSet (k k' : string) (n : nat) (o : list (string * nat)) :
  countOf k (assocSet k' n o) = if String.eqb k k' then n else countOf k o.
Proof.
  unfold countOf. rewrite assocGet_assocSet. now destruct (String.eqb k k').
Qed.

Lemma typesOf_assocSet (k k' : string) (set : list string)
    (o : list (string * list string)) :
  typesOf k (assocSet k' set o) = if String.eqb k k' then set else typesOf k o.
Proof.
  unfold typesOf. rewrite assocGet_assocSet. now destruct (String.eqb k k').
Qed.

Lemma setAdd_In (x y : string) (set : list string) :
  In y (setAdd x set) <-> y = x \/ In y set.
Proof.
  unfold setAdd. destruct (inStrings x set) eqn:E.
  - apply inStrings_In in E. split; [tauto|]. now intros [->|H].
  - rewrite in_app_iff. cbn [In]. intuition.
Qed.

Lemma setAdd_NoDup (x : string) (set : list string) :
  NoDup set -> NoDup (setAdd x set).
Proof.
  intros N. unfold setAdd. destruct (inStrings x set) eqn:E; [exact N|].
  assert (X : ~ In x set) by (rewrite <- inStrings_In; congruence).
  apply NoDup_app; [exact N | repeat constructor; intros [] |].
  intros y Hy [<-|[]]. contradiction.
Qed.

Lemma tally_fold (memories : list Memory) :
  tally memories = fold_left tallyStep memories ([], [], []).
Proof. reflexivity. Qed.

(** What the maps of [list] hold after the loop has run over [l] from
    the maps [scopes0], [types0] and [sets0]. *)
Lemma tallyStep_fold (l : list Memory) :
  forall (scopes0 types0 : list (string * nat))
         (sets0 : list (string * list string)),
    let '(scopes, types, sets) :=
      fold_left tallyStep l (scopes0, types0, sets0) in
    (forall s, countOf s scopes
               = countOf s scopes0
                 + countIf (fun m => String.eqb (scope m) s) l)
    /\ (forall t, countOf t types
                  = countOf t types0
                    + countIf (fun m => String.eqb (type m) t) l)
    /\ (forall s t, In t (typesOf s sets)
                    <-> In t (typesOf s sets0)
                        \/ exists m, In m l /\ scope m = s /\ type m = t)
    /\ (forall s, In s (map fst scopes)
                  <-> In s (map fst scopes0)
                      \/ exists m, In m l /\ scope m = s)
    /\ (forall t, In t (map fst types)
                  <-> In t (map fst types0)
                      \/ exists m, In m l /\ type m = t)
    /\ (NoDup (map fst scopes0) -> NoDup (map fst scopes))
    /\ (NoDup (map fst types0) -> NoDup (map fst types))
    /\ ((forall s, NoDup (typesOf s sets0)) ->
        forall s, NoDup (typesOf s sets)).
Proof.
  induction l as [|m l IH]; intros scopes0 types0 sets0.
  - cbn [fold_left]. unfold countIf; cbn [filter List.length].
    repeat split; try tauto; try lia; try (intros; lia).
    + intros [H|(m & [] & _)]; exact H.
    + intros [H|(m & [] & _)]; exact H.
    + intros [H|(m & [] & _)]; exact H.
  - cbn [fold_left]. unfold tallyStep at 2.
    set (scopes1 := assocSet (scope m) (countOf (scope m) scopes0 + 1) scopes0).
    set (types1 := assocSet (type m) (countOf (type m) types0 + 1) types0).
    set (sets' := match assocGet (scope m) sets0 with
                  | Some _ => sets0
                  | None => assocSet (scope m) [] sets0
                  end).
    set (sets1 := assocSet (scope m)
                    (setAdd (type m)
                       match assocGet (scope m) sets' with
                       | Some set => set
                       | None => []
                       end) sets').
    assert (T : forall s, typesOf s sets1
                          = if String.eqb s (scope m)
                            then setAdd (type m) (typesOf (scope m) sets0)
                            else typesOf s sets0).
    { intros s. unfold sets1. rewrite typesOf_assocSet.
      fold (typesOf (scope m) sets').
      assert (E : forall k, typesOf k sets' = typesOf k sets0).
      { intros k. unfold sets'. destruct (assocGet (scope m) sets0) eqn:G;
          [reflexivity|].
        rewrite typesOf_assocSet. destruct (String.eqb k (scope m)) eqn:K;
          [|reflexivity].
        apply String.eqb_eq in K. subst k. unfold typesOf. now rewrite G. }
      now rewrite !E. }
    specialize (IH scopes1 types1 sets1).
    destruct (fold_left tallyStep l (scopes1, types1, sets1))
      as [[scopes types] sets].
    destruct IH as (C1 & C2 & C3 & K1 & K2 & N1 & N2 & N3).
    assert (F : forall (p : Memory -> bool),
               countIf p (m :: l) = (if p m then 1 else 0) + countIf p l).
    { intros p. unfold countIf. cbn [filter]. now destruct (p m). }
    split; [|split; [|split; [|split; [|split; [|split; [|split]]]]]].
    + intros s. rewrite C1, F. unfold scopes1. rewrite countOf_assocSet.
      rewrite (String.eqb_sym s). destruct (String.eqb (scope m) s) eqn:E;
        [|lia].
      apply String.eqb_eq in E. subst s. lia.
    + intros t. rewrite C2, F. unfold types1. rewrite countOf_assocSet.
      rewrite (String.eqb_sym t). destruct (String.eqb (type m) t) eqn:E;
        [|lia].
      apply String.eqb_eq in E. subst t. lia.
    + intros s t. rewrite C3, T. cbn [In].
      destruct (String.eqb s (scope m)) eqn:E.
      * apply String.eqb_eq in E. subst s. rewrite setAdd_In. split.
        -- intros [[->|H]|(x & Hx & Sx & Tx)].
           ++ right. exists m. auto.
           ++ now left.
           ++ right. exists x. auto.
        -- intros [H|(x & [<-|Hx] & Sx & Tx)].
           ++ left. now right.
           ++ left. now left.
           ++ right. exists x. auto.
      * apply String.eqb_neq in E. split.
        -- intros [H|(x & Hx & Sx & Tx)]; [now left|].
           right. exists x. auto.
        -- intros [H|(x & [<-|Hx] & Sx & Tx)]; [now left| |].
           ++ now elim E.
           ++ right. exists x. auto.
    + intros s. rewrite K1. unfold scopes1. rewrite assocSet_keys_In.
      cbn [In]. split.
      * intros [[->|H]|(x & Hx & Sx)].
        -- right. exists m. auto.
        -- now left.
        -- right. exists x. auto.
      * intros [H|(x & [<-|Hx] & Sx)].
        -- left. now right.
        -- left. now left.
        -- right. exists x. auto.
    + intros t. rewrite K2. unfold types1. rewrite assocSet_keys_In.
      cbn [In]. split.
      * intros [[->|H]|(x & Hx & Sx)].
        -- right. exists m. auto.
        -- now left.
        -- right. exists x. auto.
      * intros [H|(x & [<-|Hx] & Sx)].
        -- left. now right.
        -- left. now left.
        -- right. exists x. auto.
    + intros N. apply N1. unfold scopes1. now apply assocSet_keys_NoDup.
    + intros N. apply N2. unfold types1. now apply assocSet_keys_NoDup.
    + intros N. apply N3. intros s. rewrite T.
      destruct (String.eqb s (scope m)); [|apply N].
      apply setAdd_NoDup, N.
Qed.

(** X5.  The summary of [list] counts right: every scope and every type
    is listed once, with the number of records that carry it (so no
    listed count is zero), and the types named after a scope are exactly
    the types of the records of that scope, each named once. *)
Theorem tally_counts_every_record_once :
  forall memories : list Memory,
    let '(scopes, types, scopeTypes) := tally memories in
    (forall s, countOf s scopes
               = countIf (fun m => String.eqb (scope m) s) memories)
    /\ (forall t, countOf t types
                  = countIf (fun m => String.eqb (type m) t) memories)
    /\ (forall s t, In t (typesOf s scopeTypes)
                    <-> exists m, In m memories /\ scope m = s /\ type m = t)
    /\ (forall s, In s (map fst scopes)
                  <-> exists m, In m memories /\ scope m = s)
    /\ (forall t, In t (map fst types)
                  <-> exists m, In m memories /\ type m = t)
    /\ NoDup (map fst scopes)
    /\ NoDup (map fst types)
    /\ (forall s, NoDup (typesOf s scopeTypes)).
Proof.
  intros memories. rewrite tally_fold.
  pose proof (tallyStep_fold memories [] [] []) as H.
  destruct (fold_left tallyStep memories ([], [], []))
    as [[scopes types] sets].
  destruct H as (C1 & C2 & C3 & K1 & K2 & N1 & N2 & N3).
  repeat split.
  - intros s. now rewrite C1.
  - intros t. now rewrite C2.
  - intros H. apply C3 in H as [[]|H]. exact H.
  - intros H. apply C3. now right.
  - intros H. apply K1 in H as [[]|H]. exact H.
  - intros H. apply K1. now right.
  - intros H. apply K2 in H as [[]|H]. exact H.
  - intros H. apply K2. now right.
  - apply N1. constructor.
  - apply N2. constructor.
  - apply N3. intros s. constructor.
Qed.

(** ** The codec on clean records *)

(** What the content pattern captures at a position, exactly. *)
Lemma matchHere_contentPattern_exact (s : string) :
  matchHere contentPattern s = option_map Some (contentAt s).
Proof.
  unfold matchHere, contentPattern, contentAt; cbn [exec].
  destruct (dropPrefix "content=" s) as [[|q s1]|]; try reflexivity.
  destruct (isQuote q); [|reflexivity].
  set (fin := fun (_ : string) (cap : option string) => Some cap).
  set (close := fun (s' : string) (_ : option string) =>
                  exec (Cls isQuote) s'
                    (Some (take (String.length s1 - String.length s') s1)) fin).
  fold escapedQuote.
  set (tail := fun (s' : string) (cap' : option string) =>
                 starLoop (exec (Cat (Lit escapedQuote) (Star (Cls notQuote))))
                   close (String.length s') s' cap').
  destruct (dropWhile_notQuote s1) as [[D A]|(q' & rest & D & Q)].
  - rewrite D.
    rewrite (starLoop_class_reject notQuote (sall notQuote) tail);
      [reflexivity | | | assumption].
    + intros c s0 H. simpl in H. now apply andb_prop in H as [_ H].
    + intros s0 cap0 H. unfold tail.
      destruct s0 as [|c s0]; cbn [String.length starLoop].
      * reflexivity.
      * cbn [exec]. rewrite (dropPrefix_escapedQuote_none _ H).
        unfold close; cbn [exec]. simpl in H.
        apply andb_prop in H as [H _]. unfold notQuote in H.
        now destruct (isQuote c).
  - rewrite D.
    rewrite (starLoop_class_accept notQuote tail
               (res := Some (takeWhile notQuote s1))); [reflexivity | lia |].
    rewrite D. unfold tail. cbn [String.length starLoop exec].
    assert (N : dropPrefix escapedQuote (String q' rest) = None).
    { unfold escapedQuote; cbn [dropPrefix].
      destruct (Ascii.eqb backslash q') eqn:B; [|reflexivity].
      apply Ascii.eqb_eq in B; subst q'. vm_compute in Q. discriminate. }
    rewrite N. unfold close; cbn [exec]. rewrite Q. unfold fin.
    rewrite <- D, take_dropWhile. reflexivity.
Qed.

Lemma search_contentPattern_exact (s : string) :
  group1 (search contentPattern s) = scanContent s.
Proof.
  induction s as [|c s IH]; cbn [search scanContent];
    rewrite matchHere_contentPattern_exact.
  - now destruct (contentAt EmptyString).
  - now destruct (contentAt (String c s)).
Qed.

(** Decoding, with the patterns replaced by what they compute. *)
Lemma parseLine_scan (line : string) :
  parseLine line =
  match scanField "ts" line, scanField "type" line, scanField "scope" line with
  | Some t, Some ty, Some sc =>
      Some {| ts := t;
              type := ty;
              scope := sc;
              content := match scanContent line with
                         | Some c => c
                         | None => EmptyString
                         end;
              issue := scanField "issue" line;
              tags := option_map (splitOn comma) (scanField "tags" line) |}
  | _, _, _ => None
  end.
Proof.
  rewrite parseLine_fields.
  destruct (scanField "ts" line) as [t|] eqn:Et; [|reflexivity].
  destruct (scanField "type" line) as [ty|] eqn:Ety; [|reflexivity].
  destruct (scanField "scope" line) as [sc|] eqn:Esc; [|reflexivity].
  rewrite (scanField_nonempty _ _ Et), (scanField_nonempty _ _ Ety),
    (scanField_nonempty _ _ Esc). cbn [orb].
  rewrite search_contentPattern_exact.
  destruct (scanContent line) as [c|] eqn:Ec; [|reflexivity].
  assert (Q : sall notQuote c = true).
  { rewrite <- search_contentPattern_exact in Ec.
    destruct (search contentPattern line) as [cap|] eqn:E; [|discriminate].
    destruct (search_contentPattern _ E) as (c' & -> & Hc).
    cbn [group1] in Ec. now inversion Ec; subst. }
  now rewrite unescapeQuotes_plain.
Qed.

Lemma escapeQuotes_plain (s : string) :
  sall notQuote s = true -> escapeQuotes s = s.
Proof.
  induction s as [|c s IH]; [reflexivity|].
  cbn [sall escapeQuotes]. intros H. apply andb_prop in H as [Hc Hs].
  unfold notQuote in Hc. destruct (isQuote c); [discriminate|].
  now rewrite IH.
Qed.

Lemma takeWhile_all (p : ascii -> bool) (s : string) :
  sall p s = true -> takeWhile p s = s.
Proof.
  induction s as [|c s IH]; [reflexivity|].
  cbn [sall takeWhile]. intros H. apply andb_prop in H as [Hc Hs].
  now rewrite Hc, IH.
Qed.

Lemma takeWhile_token (v e : string) :
  sall notSpace v = true -> blankStart e = true ->
  takeWhile notSpace (v ++ e) = v.
Proof.
  intros Hv He. destruct e as [|c e].
  - rewrite sappend_nil_r. now apply takeWhile_all.
  - cbn [blankStart] in He. rewrite takeWhile_app_stop.
    + now apply takeWhile_all.
    + unfold notSpace. now rewrite He.
Qed.

Lemma dropWhile_stop (p : ascii -> bool) (v e : string) (c : ascii) :
  sall p v = true -> p c = false ->
  dropWhile p (v ++ String c e) = String c e.
Proof.
  intros Hv Hc. induction v as [|d v IH]; cbn [append dropWhile].
  - now rewrite Hc.
  - cbn [sall] in Hv. apply andb_prop in Hv as [Hd Hv].
    rewrite Hd. now apply IH.
Qed.

(** A literal cannot start inside [v] and run over a character it does
    not have. *)
Lemma dropPrefix_straddle (lit v e : string) (c : ascii) :
  freeOf c lit = true ->
  startsWith lit v = false ->
  dropPrefix lit (v ++ String c e) = None.
Proof.
  unfold startsWith, freeOf.
  revert v; induction lit as [|a lit IH]; intros v F S.
  - discriminate.
  - cbn [sall] in F. apply andb_prop in F as [Fa F].
    destruct v as [|b v]; cbn [append dropPrefix] in *.
    + destruct (Ascii.eqb a c); [discriminate | reflexivity].
    + destruct (Ascii.eqb a b); [now apply IH | reflexivity].
Qed.

Lemma includes_free (lit v : string) (c : ascii) :
  freeOf c v = true -> freeOf c lit = false -> includes v lit = false.
Proof.
  intros F L. unfold freeOf in *.
  assert (N : forall u, sall (fun ch => negb (Ascii.eqb ch c)) u = true ->
                        startsWith lit u = false).
  { intros u Hu. unfold startsWith.
    destruct (dropPrefix lit u) as [r|] eqn:D; [|reflexivity].
    apply dropPrefix_inv in D. subst u.
    rewrite sall_append, L in Hu. discriminate. }
  induction v as [|d v IH]; cbn [includes].
  - now rewrite N.
  - rewrite (N _ F). cbn [sall] in F. apply andb_prop in F as [_ F].
    now apply IH.
Qed.

Lemma cleanToken_inv (v : string) :
  cleanToken v = true ->
  (exists c rest, v = String c rest /\ notSpace c = true)
  /\ sall notSpace v = true
  /\ freeOf "="%char v = true.
Proof.
  unfold cleanToken. intros H.
  apply andb_prop in H as [H F]. apply andb_prop in H as [N S].
  split; [|now split].
  destruct v as [|c rest]; [discriminate|].
  exists c, rest. split; [reflexivity|].
  cbn [sall] in S. now apply andb_prop in S as [S _].
Qed.

Section Scanning.
Variable key : string.

Lemma fieldAt_token (v e : string) :
  cleanToken v = true -> blankStart e = true ->
  fieldAt key ((key ++ "=") ++ v ++ e) = Some v.
Proof.
  intros Hv He. unfold fieldAt. rewrite dropPrefix_append.
  destruct (cleanToken_inv _ Hv) as ((c & rest & -> & Hc) & S & _).
  cbn [append]. rewrite Hc. f_equal. f_equal.
  cbn [sall] in S. apply andb_prop in S as [_ S].
  now apply takeWhile_token.
Qed.

Lemma scanField_here (s v : string) :
  fieldAt key s = Some v -> scanField key s = Some v.
Proof. intros H. destruct s; cbn [scanField]; now rewrite H. Qed.

Lemma scanField_step (c : ascii) (s : string) :
  fieldAt key (String c s) = None ->
  scanField key (String c s) = scanField key s.
Proof. intros H. cbn [scanField]. now rewrite H. Qed.

Lemma scanField_skip (v e : string) (c : ascii) :
  includes v (key ++ "=") = false ->
  freeOf c (key ++ "=") = true ->
  scanField key (v ++ String c e) = scanField key (String c e).
Proof.
  intros I F. induction v as [|d v IH]; [reflexivity|].
  cbn [includes] in I. apply orb_false_elim in I as [S I].
  change (String d v ++ String c e)%string with (String d (v ++ String c e)).
  rewrite scanField_step; [now apply IH|].
  unfold fieldAt.
  change (String d (v ++ String c e)) with (String d v ++ String c e)%string.
  now rewrite dropPrefix_straddle.
Qed.

Lemma scanField_absent (v : string) :
  includes v (key ++ "=") = false -> scanField key v = None.
Proof.
  intros I. induction v as [|d v IH].
  - cbn [includes] in I. apply orb_false_elim in I as [S _].
    unfold startsWith in S. cbn [scanField]. unfold fieldAt.
    now destruct (dropPrefix (key ++ "=") EmptyString).
  - cbn [includes] in I. apply orb_false_elim in I as [S I].
    rewrite scanField_step; [now apply IH|].
    unfold fieldAt. unfold startsWith in S.
    now destruct (dropPrefix (key ++ "=") (String d v)).
Qed.
End Scanning.

Lemma scanContent_here (s v : string) :
  contentAt s = Some v -> scanContent s = Some v.
Proof. intros H. destruct s; cbn [scanContent]; now rewrite H. Qed.

Lemma scanContent_step (c : ascii) (s : string) :
  contentAt (String c s) = None ->
  scanContent (String c s) = scanContent s.
Proof. intros H. cbn [scanContent]. now rewrite H. Qed.

Lemma scanContent_skip (v e : string) (c : ascii) :
  includes v "content=" = false ->
  freeOf c "content=" = true ->
  scanContent (v ++ String c e) = scanContent (String c e).
Proof.
  intros I F. induction v as [|d v IH]; [reflexivity|].
  cbn [includes] in I. apply orb_false_elim in I as [S I].
  change (String d v ++ String c e)%string with (String d (v ++ String c e)).
  rewrite scanContent_step; [now apply IH|].
  unfold contentAt.
  change (String d (v ++ String c e)) with (String d v ++ String c e)%string.
  now rewrite dropPrefix_straddle.
Qed.

Lemma contentAt_quoted (co tail : string) :
  sall notQuote co = true ->
  contentAt ("content=" ++ String dquote (co ++ String dquote tail)) = Some co.
Proof.
  intros H. unfold contentAt. rewrite dropPrefix_append.
  change (isQuote dquote) with true. cbv iota.
  rewrite dropWhile_stop by (assumption || reflexivity).
  rewrite takeWhile_app_stop by reflexivity.
  now rewrite takeWhile_all.
Qed.

Ltac skip_literal :=
  repeat (rewrite scanField_step by reflexivity).

Ltac skip_token H :=
  rewrite scanField_skip;
  [ | apply includes_free with (c := "="%char);
      [apply (cleanToken_inv _ H) | reflexivity]
    | reflexivity ].

(** The line of a record with clean time stamp, type and scope, a
    content without double quote, and whatever follows the content. *)
Section CleanLine.
Variables (t ty sc co tail : string).
Hypothesis clean_ts : cleanToken t = true.
Hypothesis clean_type : cleanToken ty = true.
Hypothesis clean_scope : cleanToken sc = true.
Hypothesis plain_content : sall notQuote co = true.

Let line : string :=
  "ts=" ++ t ++ " type=" ++ ty ++ " scope=" ++ sc
  ++ " content=" ++ String dquote (co ++ String dquote tail).

Lemma ts_of_line : scanField "ts" line = Some t.
Proof.
  apply scanField_here. unfold line.
  apply (fieldAt_token "ts"); [exact clean_ts | reflexivity].
Qed.

Lemma type_of_line : scanField "type" line = Some ty.
Proof.
  unfold line. cbn [append]. skip_literal. skip_token clean_ts.
  skip_literal. apply scanField_here.
  apply (fieldAt_token "type"); [exact clean_type | reflexivity].
Qed.

Lemma scope_of_line : scanField "scope" line = Some sc.
Proof.
  unfold line. cbn [append]. skip_literal. skip_token clean_ts.
  skip_literal. skip_token clean_type. skip_literal.
  apply scanField_here.
  apply (fieldAt_token "scope"); [exact clean_scope | reflexivity].
Qed.

Lemma content_of_line : scanContent line = Some co.
Proof.
  unfold line. cbn [append].
  repeat (rewrite scanContent_step by reflexivity).
  rewrite scanContent_skip;
    [ | apply includes_free with (c := "="%char);
        [apply (cleanToken_inv _ clean_ts) | reflexivity]
      | reflexivity ].
  repeat (rewrite scanContent_step by reflexivity).
  rewrite scanContent_skip;
    [ | apply includes_free with (c := "="%char);
        [apply (cleanToken_inv _ clean_type) | reflexivity]
      | reflexivity ].
  repeat (rewrite scanContent_step by reflexivity).
  rewrite scanContent_skip;
    [ | apply includes_free with (c := "="%char);
        [apply (cleanToken_inv _ clean_scope) | reflexivity]
      | reflexivity ].
  repeat (rewrite scanContent_step by reflexivity).
  apply scanContent_here. now apply contentAt_quoted.
Qed.

Lemma issue_of_line :
  includes co "issue=" = false ->
  scanField "issue" line = scanField "issue" tail.
Proof.
  intros I. unfold line. cbn [append]. skip_literal. skip_token clean_ts.
  skip_literal. skip_token clean_type. skip_literal. skip_token clean_scope.
  skip_literal.
  rewrite scanField_skip by (assumption || reflexivity).
  now skip_literal.
Qed.

Lemma tags_of_line :
  includes co "tags=" = false ->
  scanField "tags" line = scanField "tags" tail.
Proof.
  intros I. unfold line. cbn [append]. skip_literal. skip_token clean_ts.
  skip_literal. skip_token clean_type. skip_literal. skip_token clean_scope.
  skip_literal.
  rewrite scanField_skip by (assumption || reflexivity).
  now skip_literal.
Qed.
End CleanLine.

Lemma fieldAt_token_end (key v : string) :
  cleanToken v = true -> fieldAt key ((key ++ "=") ++ v) = Some v.
Proof.
  intros H. rewrite <- (sappend_nil_r v) at 1.
  now apply fieldAt_token.
Qed.

Lemma join_comma_clean (l : list string) :
  l <> [] ->
  forallb (fun t => cleanToken t && freeOf comma t) l = true ->
  cleanToken (join "," l) = true.
Proof.
  induction l as [|p [|q rest] IH]; intros N F.
  - contradiction.
  - cbn [join forallb] in *. rewrite andb_true_r in F.
    now apply andb_prop in F as [F _].
  - rewrite join_cons.
    cbn [forallb] in F. apply andb_prop in F as [Fp F].
    apply andb_prop in Fp as [Fp _].
    specialize (IH ltac:(discriminate) F).
    destruct (cleanToken_inv _ Fp) as ((c & r & -> & _) & Sp & Ep).
    destruct (cleanToken_inv _ IH) as (_ & Sj & Ej).
    unfold cleanToken, freeOf in *.
    rewrite !sall_append, Sp, Ep. cbn [append isEmpty negb andb sall].
    rewrite Sj, Ej. reflexivity.
Qed.

Lemma clean_tags_joined (a : string) (l : list string) :
  negb (Nat.eqb (List.length (a :: l)) 0)
  && forallb (fun t => cleanToken t && freeOf comma t) (a :: l) = true ->
  cleanToken (join "," (a :: l)) = true
  /\ splitOn comma (join "," (a :: l)) = a :: l.
Proof.
  intros F. cbn [List.length Nat.eqb negb andb] in F.
  split; [apply join_comma_clean; [discriminate | assumption]|].
  apply (splitOn_join comma); [discriminate|].
  intros p Hp. rewrite forallb_forall in F.
  specialize (F p Hp). now apply andb_prop in F as [_ H].
Qed.

Section Tail.
Variables (i : option string) (tg : option (list string)).
Hypothesis clean_issue :
  match i with Some v => cleanToken v | None => true end = true.
Hypothesis clean_tags :
  match tg with
  | Some l => negb (Nat.eqb (List.length l) 0)
              && forallb (fun t => cleanToken t && freeOf comma t) l
  | None => true
  end = true.

Lemma issue_of_tail : scanField "issue" (issueToken i ++ tagsToken tg) = i.
Proof.
  destruct i as [v|].
  - assert (I : issueToken (Some v) = " issue=" ++ v).
    { destruct (cleanToken_inv _ clean_issue) as ((c & r & Ev & _) & _ & _).
      now subst v. }
    rewrite I. cbn [append]. skip_literal.
    apply scanField_here.
    apply (fieldAt_token "issue"); [exact clean_issue|].
    now destruct tg as [[|a l]|].
  - cbn [issueToken append].
    destruct tg as [[|a l]|] eqn:E; try reflexivity.
    destruct (clean_tags_joined _ _ clean_tags) as (C & _).
    cbn [tagsToken append]. skip_literal.
    apply scanField_absent, includes_free with (c := "="%char);
      [apply (cleanToken_inv _ C) | reflexivity].
Qed.

Lemma tags_of_tail :
  option_map (splitOn comma) (scanField "tags" (issueToken i ++ tagsToken tg))
  = tg.
Proof.
  assert (T : option_map (splitOn comma) (scanField "tags" (tagsToken tg))
              = tg).
  { destruct tg as [[|a l]|] eqn:E; try reflexivity.
    - discriminate.
    - destruct (clean_tags_joined _ _ clean_tags) as (C & S).
      cbn [tagsToken append]. skip_literal.
      rewrite (@scanField_here "tags" _ (join "," (a :: l))).
      + cbn [option_map]. now rewrite S.
      + now apply (fieldAt_token_end "tags"). }
  destruct i as [v|]; [|exact T].
  destruct (cleanToken_inv _ clean_issue) as ((c & r & Ev & _) & _ & _).
  assert (I : issueToken (Some v) = " issue=" ++ v) by now subst v.
  rewrite I. clear Ev. cbn [append]. skip_literal.
  destruct tg as [[|a l]|] eqn:E.
  - discriminate.
  - cbn [tagsToken append]. skip_token clean_issue. exact T.
  - cbn [tagsToken]. rewrite sappend_nil_r.
    rewrite scanField_absent; [reflexivity|].
    apply includes_free with (c := "="%char);
      [apply (cleanToken_inv _ clean_issue) | reflexivity].
Qed.
End Tail.

Lemma encodeLine_clean (t ty sc co : string) (i : option string)
    (tg : option (list string)) :
  sall notQuote co = true ->
  encodeLine t ty sc co i tg
  = "ts=" ++ t ++ " type=" ++ ty ++ " scope=" ++ sc ++ " content="
    ++ String dquote (co ++ String dquote (issueToken i ++ tagsToken tg)).
Proof.
  intros H. unfold encodeLine, quoted.
  rewrite escapeQuotes_plain by assumption.
  cbn [append]. now rewrite sappend_assoc.
Qed.

(** The line written from clean values decodes to them. *)
Lemma parseLine_encodeLine (t ty sc co : string) (i : option string)
    (tg : option (list string)) :
  cleanToken t = true -> cleanToken ty = true -> cleanToken sc = true ->
  sall notQuote co = true ->
  includes co "issue=" = false -> includes co "tags=" = false ->
  match i with Some v => cleanToken v | None => true end = true ->
  match tg with
  | Some l => negb (Nat.eqb (List.length l) 0)
              && forallb (fun x => cleanToken x && freeOf comma x) l
  | None => true
  end = true ->
  parseLine (encodeLine t ty sc co i tg) = Some (mkMemory t ty sc co i tg).
Proof.
  intros Ht Hty Hsc Hco Ii It Hi Htg.
  rewrite encodeLine_clean, parseLine_scan by assumption.
  rewrite ts_of_line, type_of_line, scope_of_line, content_of_line,
    issue_of_line, tags_of_line by assumption.
  now rewrite issue_of_tail, tags_of_tail by assumption.
Qed.

Lemma cleanRecord_inv (m : Memory) :
  cleanRecord m = true ->
  (cleanToken (ts m) = true /\ cleanToken (type m) = true
   /\ cleanToken (scope m) = true)
  /\ (sall notQuote (content m) = true
      /\ includes (content m) "issue=" = false
      /\ includes (content m) "tags=" = false)
  /\ match issue m with Some v => cleanToken v | None => true end = true
  /\ match tags m with
     | Some l => negb (Nat.eqb (List.length l) 0)
                 && forallb (fun x => cleanToken x && freeOf comma x) l
     | None => true
     end = true.
Proof.
  unfold cleanRecord. intros H.
  apply andb_prop in H as [H Htags]. apply andb_prop in H as [H Hissue].
  apply andb_prop in H as [H It]. apply andb_prop in H as [H Ii].
  apply andb_prop in H as [H Hco]. apply andb_prop in H as [H Hsc].
  apply andb_prop in H as [Hts Hty].
  apply negb_true_iff in It, Ii. repeat split; assumption.
Qed.

(** X6.  Decoding undoes encoding on clean records: when the time
    stamp, type, scope, issue and tags of a record are non-empty and
    have no white space, no equals sign (and the tags no comma), and
    its content has no double quote and does not contain the text of an
    issue or tags key, the line written for the record decodes to the
    record itself. *)
Theorem parseLine_encodeMemory :
  forall m : Memory,
    cleanRecord m = true -> parseLine (encodeMemory m) = Some m.
Proof.
  intros m H.
  destruct (cleanRecord_inv _ H)
    as ((Hts & Hty & Hsc) & (Hco & Ii & It) & Hi & Htg).
  destruct m as [t ty sc co i tg]. unfold encodeMemory.
  cbn [ts type scope content issue tags] in *.
  now apply parseLine_encodeLine.
Qed.

Lemma parseLine_encodeMemory_witness :
  cleanRecord taggedRecord = true
  /\ parseLine (encodeMemory taggedRecord) = Some taggedRecord.
Proof.
  split; [reflexivity | apply parseLine_encodeMemory; reflexivity].
Defined.

(** ** White space around a line *)

Lemma srev_onto_acc (s acc : string) :
  srev_onto s acc = (srev s ++ acc)%string.
Proof.
  unfold srev. revert acc; induction s as [|c s IH]; intros acc;
    [reflexivity|].
  cbn [srev_onto]. rewrite IH, (IH (String c EmptyString)).
  now rewrite sappend_assoc.
Qed.

Lemma srev_cons (c : ascii) (s : string) :
  srev (String c s) = (srev s ++ String c EmptyString)%string.
Proof. unfold srev at 1. cbn [srev_onto]. apply srev_onto_acc. Qed.

Lemma srev_snoc (s : string) (c : ascii) :
  srev (s ++ String c EmptyString) = String c (srev s).
Proof.
  unfold srev. rewrite srev_onto_append. reflexivity.
Qed.

Lemma srev_involutive (s : string) : srev (srev s) = s.
Proof.
  induction s as [|c s IH]; [reflexivity|].
  now rewrite srev_cons, srev_snoc, IH.
Qed.

Lemma string_rev_ind (P : string -> Prop) :
  P EmptyString ->
  (forall s c, P s -> P (s ++ String c EmptyString)%string) ->
  forall s, P s.
Proof.
  intros H0 HS s. rewrite <- (srev_involutive s).
  induction (srev s) as [|c r IH]; [exact H0|].
  rewrite srev_cons. now apply HS.
Qed.

Lemma trim_solid_end (text : string) (c : ascii) :
  isSpace c = false ->
  trim (text ++ String c EmptyString)
  = dropWhile isSpace (text ++ String c EmptyString).
Proof.
  intros Hc. unfold trim.
  assert (E : exists y, dropWhile isSpace (text ++ String c EmptyString)
                        = (y ++ String c EmptyString)%string).
  { rewrite dropWhile_append. destruct (sall isSpace text).
    - exists EmptyString. cbn [dropWhile append]. now rewrite Hc.
    - now exists (dropWhile isSpace text). }
  destruct E as (y & ->).
  rewrite srev_snoc. cbn [dropWhile]. rewrite Hc.
  rewrite <- srev_snoc. apply srev_involutive.
Qed.

Lemma takeWhile_append_stopped (p : ascii -> bool) (s e : string) :
  dropWhile p s <> EmptyString ->
  takeWhile p (s ++ e) = takeWhile p s.
Proof.
  induction s as [|c s IH]; cbn [append takeWhile dropWhile].
  - intros H. now elim H.
  - destruct (p c); [intros H; now rewrite IH | reflexivity].
Qed.

Section Blank.
Variable sp : ascii.
Hypothesis sp_blank : isSpace sp = true.

Lemma fieldAt_blank (key s : string) :
  sall notSpace (key ++ "=") = true -> fieldAt key (String sp s) = None.
Proof.
  intros K. unfold fieldAt.
  destruct (key ++ "=")%string as [|a lit] eqn:L;
    [destruct key; discriminate|].
  cbn [sall] in K. apply andb_prop in K as [Ka _].
  cbn [dropPrefix]. destruct (Ascii.eqb a sp) eqn:E; [|reflexivity].
  apply Ascii.eqb_eq in E. subst a. unfold notSpace in Ka.
  rewrite sp_blank in Ka. discriminate.
Qed.

Lemma scanField_leading (key s : string) :
  sall notSpace (key ++ "=") = true ->
  scanField key (String sp s) = scanField key s.
Proof. intros K. apply scanField_step. now apply fieldAt_blank. Qed.

Lemma scanField_trailing (key s : string) :
  sall notSpace (key ++ "=") = true ->
  scanField key (s ++ String sp EmptyString) = scanField key s.
Proof.
  intros K. induction s as [|c s IH].
  - cbn [append]. rewrite scanField_leading by assumption. reflexivity.
  - change (String c s ++ String sp EmptyString)%string
      with (String c (s ++ String sp EmptyString)).
    cbn [scanField].
    change (String c (s ++ String sp EmptyString))
      with (String c s ++ String sp EmptyString)%string.
    destruct (fieldAt key (String c s)) as [v|] eqn:E.
    + now rewrite (fieldAt_extend_some key EmptyString sp sp_blank _ E).
    + now rewrite (fieldAt_extend_none key EmptyString sp K sp_blank _ E).
Qed.

Lemma sp_notQuote : notQuote sp = true.
Proof.
  unfold notQuote, isQuote. destruct (Ascii.eqb sp dquote) eqn:E;
    [|reflexivity].
  apply Ascii.eqb_eq in E. rewrite E in sp_blank. discriminate.
Qed.

Lemma contentAt_blank (s : string) : contentAt (String sp s) = None.
Proof.
  unfold contentAt. cbn [dropPrefix].
  destruct (Ascii.eqb "c" sp) eqn:E; [|reflexivity].
  apply Ascii.eqb_eq in E. rewrite <- E in sp_blank. discriminate.
Qed.

Lemma contentAt_trailing (s : string) :
  contentAt (s ++ String sp EmptyString) = contentAt s.
Proof.
  unfold contentAt.
  destruct (dropPrefix "content=" s) as [r|] eqn:D.
  - rewrite (dropPrefix_app_some _ _ (String sp EmptyString) D).
    destruct r as [|q s1]; cbn [append].
    + pose proof sp_notQuote as N. unfold notQuote in N.
      now destruct (isQuote sp).
    + destruct (isQuote q); [|reflexivity].
      rewrite dropWhile_append.
      destruct (sall notQuote s1) eqn:A.
      * rewrite (dropWhile_all _ _ A). cbn [dropWhile].
        now rewrite sp_notQuote.
      * destruct (dropWhile notQuote s1) as [|q' r'] eqn:W.
        -- exfalso. destruct (dropWhile_notQuote s1) as [[_ A']|(? & ? & W' & _)];
             congruence.
        -- cbn [append]. f_equal.
           apply takeWhile_append_stopped. now rewrite W.
  - rewrite dropPrefix_app_none by (reflexivity || assumption). reflexivity.
Qed.
End Blank.

Lemma scanContent_leading (sp : ascii) (s : string) :
  isSpace sp = true -> scanContent (String sp s) = scanContent s.
Proof. intros H. apply scanContent_step. now apply contentAt_blank. Qed.

Lemma scanContent_trailing (sp : ascii) (s : string) :
  isSpace sp = true ->
  scanContent (s ++ String sp EmptyString) = scanContent s.
Proof.
  intros H. induction s as [|c s IH].
  - cbn [append]. now rewrite scanContent_leading.
  - change (String c s ++ String sp EmptyString)%string
      with (String c (s ++ String sp EmptyString)).
    cbn [scanContent].
    change (String c (s ++ String sp EmptyString))
      with (String c s ++ String sp EmptyString)%string.
    rewrite contentAt_trailing by assumption.
    now destruct (contentAt (String c s)).
Qed.

(** White space before or after a line does not change what it decodes
    to. *)
Lemma parseLine_leading (sp : ascii) (s : string) :
  isSpace sp = true -> parseLine (String sp s) = parseLine s.
Proof.
  intros H. rewrite !parseLine_scan.
  now rewrite !scanField_leading, scanContent_leading by (assumption || reflexivity).
Qed.

Lemma parseLine_trailing (sp : ascii) (s : string) :
  isSpace sp = true -> parseLine (s ++ String sp EmptyString) = parseLine s.
Proof.
  intros H. rewrite !parseLine_scan.
  now rewrite !scanField_trailing, scanContent_trailing
    by (assumption || reflexivity).
Qed.

Lemma parseLine_empty : parseLine EmptyString = None.
Proof. reflexivity. Qed.

Lemma splitOn_snoc (sep c : ascii) (s : string) :
  exists init last,
    splitOn sep s = (init ++ [last])%list
    /\ splitOn sep (s ++ String c EmptyString)
       = (init ++ (if Ascii.eqb c sep then [last; EmptyString]
                   else [(last ++ String c EmptyString)%string]))%list.
Proof.
  induction s as [|d s (init & last & E1 & E2)].
  - exists [], EmptyString. cbn [append splitOn app].
    split; [reflexivity|]. now destruct (Ascii.eqb c sep).
  - cbn [append splitOn]. rewrite E1, E2.
    destruct (Ascii.eqb d sep).
    + exists (EmptyString :: init), last. split; reflexivity.
    + destruct init as [|h t].
      * exists [], (String d last). cbn [app].
        split; [reflexivity|]. now destruct (Ascii.eqb c sep).
      * exists (String d h :: t), last. split; reflexivity.
Qed.

Lemma parseAll_splitOn_trailing (sp : ascii) (s : string) :
  isSpace sp = true ->
  parseAll (splitOn newline (s ++ String sp EmptyString))
  = parseAll (splitOn newline s).
Proof.
  intros H. destruct (splitOn_snoc newline sp s) as (init & last & -> & ->).
  rewrite !parseAll_app. f_equal.
  destruct (Ascii.eqb sp newline).
  - cbn [parseAll]. rewrite parseLine_empty. reflexivity.
  - cbn [parseAll]. now rewrite parseLine_trailing.
Qed.

Lemma parseAll_splitOn_leading (s : string) :
  parseAll (splitOn newline (dropWhile isSpace s))
  = parseAll (splitOn newline s).
Proof.
  induction s as [|c s IH]; [reflexivity|].
  cbn [dropWhile]. destruct (isSpace c) eqn:B; [|reflexivity].
  rewrite IH. cbn [splitOn]. destruct (Ascii.eqb c newline).
  - cbn [parseAll]. now rewrite parseLine_empty.
  - destruct (splitOn newline s) as [|h t] eqn:S;
      [now apply splitOn_not_nil in S|].
    cbn [parseAll]. now rewrite parseLine_leading.
Qed.

Lemma parseAll_splitOn_trim (text : string) :
  parseAll (splitOn newline (trim text)) = parseAll (splitOn newline text).
Proof.
  induction text as [|text c IH] using string_rev_ind; [reflexivity|].
  destruct (isSpace c) eqn:B.
  - now rewrite trim_trailing_blank, parseAll_splitOn_trailing.
  - rewrite trim_solid_end by assumption. apply parseAll_splitOn_leading.
Qed.

Lemma parseAll_filterBoolean (lines : list string) :
  parseAll (filterBoolean lines) = parseAll lines.
Proof.
  induction lines as [|l lines IH]; [reflexivity|].
  unfold filterBoolean in *. cbn [filter].
  destruct l as [|c l]; cbn [isEmpty negb].
  - cbn [parseAll]. now rewrite parseLine_empty.
  - cbn [parseAll]. now rewrite IH.
Qed.

(** Trimming the text and dropping its empty lines loses no record. *)
Lemma parseAll_nonBlankLines (text : string) :
  parseAll (nonBlankLines text) = parseAll (splitOn newline text).
Proof.
  unfold nonBlankLines.
  now rewrite parseAll_filterBoolean, parseAll_splitOn_trim.
Qed.

Lemma parseAll_flat_map (A : Type) (f : A -> list string) (l : list A) :
  parseAll (flat_map f l) = flat_map (fun a => parseAll (f a)) l.
Proof.
  induction l as [|a l IH]; [reflexivity|].
  cbn [flat_map]. now rewrite parseAll_app, IH.
Qed.

(** ** One store for every tool *)

Lemma removedOf_filter (argScope argType : string) (lines : list string) :
  removedOf argScope argType lines
  = filter (sameScopeType argScope argType) (parseAll lines).
Proof.
  induction lines as [|line rest IH]; [reflexivity|].
  cbn [removedOf parseAll]. destruct (parseLine line) as [m|]; [|exact IH].
  cbn [filter]. destruct (sameScopeType argScope argType m); now rewrite IH.
Qed.

Lemma located_memory (argScope argType path : string) (lines : list string)
    (i : nat) :
  map memory (located argScope argType path lines i)
  = filter (sameScopeType argScope argType) (parseAll lines).
Proof.
  revert i; induction lines as [|line rest IH]; intros i; [reflexivity|].
  cbn [located parseAll]. destruct (parseLine line) as [m|]; [|apply IH].
  cbn [filter]. destruct (sameScopeType argScope argType m);
    cbn [map memory]; now rewrite IH.
Qed.

Lemma filter_flat_map (A B : Type) (p : B -> bool) (f : A -> list B)
    (l : list A) :
  filter p (flat_map f l) = flat_map (fun a => filter p (f a)) l.
Proof.
  induction l as [|a l IH]; [reflexivity|].
  cbn [flat_map]. now rewrite filter_app, IH.
Qed.

Lemma map_of_flat_map (A B C : Type) (g : B -> C) (f : A -> list B)
    (l : list A) :
  map g (flat_map f l) = flat_map (fun a => map g (f a)) l.
Proof.
  induction l as [|a l IH]; [reflexivity|].
  cbn [flat_map]. now rewrite map_app, IH.
Qed.

Lemma flat_map_same (A B : Type) (f g : A -> list B) (l : list A) :
  (forall a, In a l -> f a = g a) -> flat_map f l = flat_map g l.
Proof.
  intros H. induction l as [|a l IH]; [reflexivity|].
  cbn [flat_map]. rewrite (H a) by now left.
  rewrite IH; [reflexivity|]. intros b Hb. apply H. now right.
Qed.

(** A scan returns the records of the lines of the day files. *)
Lemma getAllMemories_records (w : World) :
  fst (getAllMemories w)
  = if inStrings (memoryDir (settings w)) (dirs w) then recordsOf w else [].
Proof.
  rewrite getAllMemories_run. cbn [fst].
  destruct (inStrings (memoryDir (settings w)) (dirs w)); [|reflexivity].
  unfold dayLines, recordsOf. rewrite parseAll_flat_map.
  apply flat_map_same. intros name _. apply parseAll_nonBlankLines.
Qed.

Lemma scanMatches_records (argScope argType : string) (w : World) :
  map memory (scanMatches argScope argType w (scannedNames w) [])
  = filter (sameScopeType argScope argType) (recordsOf w).
Proof.
  rewrite scanMatches_located. cbn [app]. fold (dayNames w).
  unfold recordsOf. rewrite map_of_flat_map, filter_flat_map.
  apply flat_map_same. intros name _. apply located_memory.
Qed.

Lemma doomed_records (argScope argType : string) (w : World) :
  doomed argScope argType w
  = filter (sameScopeType argScope argType) (recordsOf w).
Proof.
  unfold doomed, recordsOf. rewrite filter_flat_map.
  apply flat_map_same. intros name _. apply removedOf_filter.
Qed.



(** ** Forgetting, then looking again *)

Lemma dayNames_ext (w w' : World) :
  settings w' = settings w -> files w' = files w -> dayNames w' = dayNames w.
Proof. intros S F. unfold dayNames, scannedNames. now rewrite S, F. Qed.

Lemma scanNames_none (d p text : string) :
  lastChar p <> Some "t"%char -> scanNames d [(p, text)] = [].
Proof.
  intros H. destruct (scanNames d [(p, text)]) as [|name rest] eqn:E;
    [reflexivity|].
  assert (I : In name (scanNames d [(p, text)])) by (rewrite E; now left).
  apply scanNames_In in I as (X & t & [I|[]]).
  apply (f_equal fst) in I; cbn [fst] in I. subst p.
  elim H. now apply lastChar_logfmt.
Qed.

Lemma dayNames_written_existing (p text : string) (w : World) :
  inStrings p (map fst (files w)) = true ->
  dayNames (written p text w) = dayNames w.
Proof.
  intros H. unfold dayNames, scannedNames; cbn [settings files written].
  now rewrite scanNames_assocSet, H.
Qed.

Lemma dayNames_written_other (p text : string) (w : World) :
  lastChar p <> Some "t"%char ->
  dayNames (written p text w) = dayNames w.
Proof.
  intros H. unfold dayNames, scannedNames; cbn [settings files written].
  rewrite scanNames_assocSet.
  destruct (inStrings p (map fst (files w))); [reflexivity|].
  now rewrite scanNames_none, app_nil_r.
Qed.

Lemma scannedNames_key (name : string) (w : World) :
  In name (scannedNames w) ->
  inStrings (memoryFile w name) (map fst (files w)) = true.
Proof.
  intros H. apply scanNames_In in H as (_ & text & H).
  apply inStrings_In. now apply (in_map fst) in H.
Qed.

Lemma dayNames_purged (args : ForgetArgs) (name : string) (w : World) :
  In name (scannedNames w) -> dayNames (purged args name w) = dayNames w.
Proof.
  intros H. unfold purged. destruct (_ =? _)%nat; [reflexivity|].
  now apply dayNames_written_existing, scannedNames_key.
Qed.

Lemma dayNames_purgedAll (args : ForgetArgs) (names : list string) :
  forall w,
    (forall n, In n names -> In n (scannedNames w)) ->
    dayNames (purgedAll args names w) = dayNames w.
Proof.
  induction names as [|n names IH]; intros w H; [reflexivity|].
  cbn [purgedAll].
  assert (Hn : In n (scannedNames w)) by (apply H; now left).
  destruct (String.eqb n deletionsName) eqn:E.
  - apply IH. intros k Hk. apply H. now right.
  - rewrite IH; [now apply dayNames_purged|].
    intros k Hk.
    assert (Hk' : In k (scannedNames w)) by (apply H; now right).
    unfold purged. destruct (_ =? _)%nat; [exact Hk'|].
    unfold scannedNames; cbn [settings files written].
    rewrite scanNames_assocSet, (scannedNames_key _ _ Hn). exact Hk'.
Qed.

Lemma dayNames_audited (m : Memory) (reason : string) (w : World) :
  dayNames (audited m reason w) = dayNames w.
Proof.
  unfold audited.
  set (w0 := tick (ensured (memoryDir (settings w)) w)).
  assert (S0 : settings w0 = settings w) by apply ensured_settings.
  assert (F0 : files w0 = files w) by apply ensured_files.
  assert (D : deletionsPath w = deletionsPath w0).
  { unfold deletionsPath, memoryFile. now rewrite S0. }
  rewrite D, dayNames_other_audit. now apply dayNames_ext.
Qed.

Lemma dayNames_auditedAll (reason : string) (removed : list Memory) :
  forall w, dayNames (auditedAll reason removed w) = dayNames w.
Proof.
  unfold auditedAll.
  induction removed as [|m removed IH]; intros w; [reflexivity|].
  cbn [fold_left]. rewrite IH. apply dayNames_audited.
Qed.

Lemma dayNames_logged (payload : list (string * Json)) (w : World) :
  dayNames (logged payload w) = dayNames w.
Proof.
  unfold logged. rewrite dayNames_written_other.
  - apply dayNames_ext; [apply ensured_settings | apply ensured_files].
  - rewrite lastChar_logPath. discriminate.
Qed.

Lemma dirs_ensured (d x : string) (w : World) :
  inStrings x (dirs w) = true -> inStrings x (dirs (ensured d w)) = true.
Proof.
  intros H. unfold ensured. destruct (inStrings d (dirs w)); [exact H|].
  cbn [dirs created inStrings existsb]. fold (inStrings x (dirs w)).
  rewrite H. apply orb_true_r.
Qed.

Lemma dirs_purgedAll (args : ForgetArgs) (names : list string) :
  forall w, dirs (purgedAll args names w) = dirs w.
Proof.
  induction names as [|n names IH]; intros w; [reflexivity|].
  cbn [purgedAll]. destruct (String.eqb n deletionsName); [apply IH|].
  rewrite IH. unfold purged. now destruct (_ =? _)%nat.
Qed.

Lemma dirs_auditedAll (reason x : string) (removed : list Memory) :
  forall w, inStrings x (dirs w) = true ->
            inStrings x (dirs (auditedAll reason removed w)) = true.
Proof.
  unfold auditedAll.
  induction removed as [|m removed IH]; intros w H; [exact H|].
  cbn [fold_left]. apply IH. unfold audited; cbn [dirs written tick].
  now apply dirs_ensured.
Qed.

Lemma parseAll_filter_targets (argScope argType : string)
    (lines : list string) :
  parseAll (filter (fun line => negb (isTarget argScope argType line)) lines)
  = filter (fun m => negb (sameScopeType argScope argType m))
           (parseAll lines).
Proof.
  induction lines as [|line rest IH]; [reflexivity|].
  cbn [filter parseAll]. unfold isTarget at 1.
  destruct (parseLine line) as [m|] eqn:E; cbn [negb].
  - cbn [filter]. destruct (sameScopeType argScope argType m); cbn [negb].
    + exact IH.
    + cbn [parseAll]. now rewrite E, IH.
  - cbn [parseAll]. now rewrite E, IH.
Qed.

(** The records left in a file that [forget] has gone through. *)
Lemma parseAll_purgedText (argScope argType text : string) :
  parseAll (splitOn newline (purgedText argScope argType text))
  = filter (fun m => negb (sameScopeType argScope argType m))
           (parseAll (splitOn newline text)).
Proof.
  unfold purgedText. rewrite <- parseAll_filter_targets.
  destruct (filter _ (splitOn newline text)) as [|l ls] eqn:F;
    [reflexivity|].
  rewrite splitOn_join; [reflexivity | discriminate |].
  intros p Hp. rewrite <- F in Hp. apply filter_In in Hp as [Hp _].
  now apply splitOn_free in Hp.
Qed.

(** The store after [forget]. *)
Lemma forget_store (args : ForgetArgs) (w : World) :
  inStrings (memoryDir (settings w)) (dirs w) = true ->
  distinctPaths (map fst (files w)) = true ->
  let after := snd (forgetOutcome args w) in
  settings after = settings w
  /\ inStrings (memoryDir (settings w)) (dirs after) = true
  /\ dayNames after = dayNames w
  /\ forall name,
       In name (dayNames w) ->
       textOf (memoryFile w name) after
       = purgedText (f_scope args) (f_type args)
                    (textOf (memoryFile w name) w).
Proof.
  intros Hdir Hd after. unfold after. rewrite forgetOutcome_run, Hdir.
  pose proof (distinctPaths_NoDup _ Hd) as ND.
  pose proof (@scanNames_NoDup (memoryDir (settings w)) _ ND) as NDn.
  fold (scannedNames w) in NDn.
  destruct (scannedNames w) as [|n0 names0] eqn:N.
  { cbn [snd]. repeat split; try assumption.
    intros name Hn. unfold dayNames in Hn. rewrite N in Hn. destruct Hn. }
  rewrite <- N in *. cbv zeta. cbn [snd].
  set (removed := removedAll args (scannedNames w) w).
  set (w0 := purgedAll args (scannedNames w) w).
  set (w1 := auditedAll (f_reason args) removed w0).
  set (event := objectLiteral _).
  destruct (purgedAll_frame args (scannedNames w) w) as (Ps & Pc & Pt).
  destruct (auditedAll_frame (f_reason args) removed w0) as (As & Ac & At).
  fold w0 in Ps, Pc, Pt. fold w1 in As, Ac, At.
  assert (S1 : settings w1 = settings w) by now rewrite As, Ps.
  assert (D1 : inStrings (memoryDir (settings w)) (dirs w1) = true).
  { unfold w1. apply dirs_auditedAll. unfold w0.
    now rewrite dirs_purgedAll. }
  assert (N1 : dayNames w1 = dayNames w).
  { unfold w1. rewrite dayNames_auditedAll. unfold w0.
    now apply dayNames_purgedAll. }
  assert (T1 : forall name,
             In name (dayNames w) ->
             textOf (memoryFile w name) w1
             = purgedText (f_scope args) (f_type args)
                          (textOf (memoryFile w name) w)).
  { intros name Hn. unfold dayNames in Hn.
    apply filter_In in Hn as [Hin Hday].
    unfold w1. rewrite textOf_auditedAll.
    assert (A : String.eqb (memoryFile w name) (deletionsPath w0) = false).
    { apply String.eqb_neq. unfold deletionsPath, memoryFile.
      rewrite Ps. intros E. apply sappend_inj_l in E.
      apply (sappend_inj_l "/") in E. subst name.
      unfold isDayFile in Hday. now rewrite String.eqb_refl in Hday. }
    rewrite A. unfold w0. rewrite textOf_purgedAll by assumption.
    now rewrite isAmong_In. }
  destruct (logsScope (f_scope args) (tick w1)).
  - split; [unfold logged; cbn [settings written tick];
            now rewrite ensured_settings|].
    split; [unfold logged; cbn [dirs written tick];
            now apply dirs_ensured|].
    split; [rewrite dayNames_logged; exact N1|].
    intros name Hn. rewrite textOf_logged.
    destruct (String.eqb (memoryFile w name) (logPath (tick w1))) eqn:E.
    + apply String.eqb_eq in E. exfalso.
      unfold dayNames in Hn. apply filter_In in Hn as [Hin _].
      apply scanNames_In in Hin as [Hext _].
      now apply (logPath_not_logfmt w (tick w1)) in Hext.
    + now apply T1.
  - cbn [settings dirs tick]. rewrite (dayNames_ext w1 (tick w1)) by reflexivity.
    repeat split; assumption.
Qed.

Lemma recordsOf_after_forget (args : ForgetArgs) (w : World) :
  inStrings (memoryDir (settings w)) (dirs w) = true ->
  distinctPaths (map fst (files w)) = true ->
  recordsOf (snd (forgetOutcome args w))
  = filter (fun m => negb (sameScopeType (f_scope args) (f_type args) m))
           (recordsOf w).
Proof.
  intros Hdir Hd.
  destruct (forget_store args w Hdir Hd) as (S & _ & N & T).
  unfold recordsOf. rewrite N, filter_flat_map.
  apply flat_map_same. intros name Hn.
  unfold memoryFile at 1. rewrite S. fold (memoryFile w name).
  now rewrite T, parseAll_purgedText.
Qed.

Lemma filter_idle (A : Type) (p : A -> bool) (l : list A) :
  filter p (filter (fun a => negb (p a)) l) = [].
Proof.
  induction l as [|a l IH]; [reflexivity|].
  cbn [filter]. destruct (p a) eqn:E; cbn [negb filter]; [exact IH|].
  now rewrite E.
Qed.

Lemma flat_map_nil (A B : Type) (f : A -> list B) (l : list A) :
  flat_map f l = [] -> forall a, In a l -> f a = [].
Proof.
  induction l as [|x l IH]; intros H a [].
  - subst x. cbn [flat_map] in H. now apply app_eq_nil in H.
  - cbn [flat_map] in H. apply app_eq_nil in H as [_ H]. now apply IH.
Qed.

(** Where [forget] finds nothing to remove it rewrites no file. *)
Lemma purged_idle (args : ForgetArgs) (name : string) (w : World) :
  removedOf (f_scope args) (f_type args)
    (splitOn newline (textOf (memoryFile w name) w)) = [] ->
  purged args name w = w.
Proof.
  intros H. unfold purged.
  set (lines := splitOn newline (textOf (memoryFile w name) w)) in *.
  assert (K : filter (fun line => negb (isTarget (f_scope args) (f_type args)
                                                 line)) lines = lines).
  { clearbody lines. induction lines as [|l ls IH]; [reflexivity|].
    cbn [removedOf] in H. cbn [filter]. unfold isTarget at 1.
    destruct (parseLine l) as [m|].
    - destruct (sameScopeType (f_scope args) (f_type args) m);
        [discriminate|].
      cbn [negb]. now rewrite IH.
    - cbn [negb]. now rewrite IH. }
  now rewrite K, Nat.eqb_refl.
Qed.

Lemma removedAll_idle (args : ForgetArgs) (names : list string) (w : World) :
  (forall n, In n names -> isDayFile n = true ->
             removedOf (f_scope args) (f_type args)
               (splitOn newline (textOf (memoryFile w n) w)) = []) ->
  removedAll args names w = [] /\ purgedAll args names w = w.
Proof.
  induction names as [|n names IH]; intros H; [now split|].
  cbn [removedAll purgedAll].
  assert (H' : forall k, In k names -> isDayFile k = true ->
                         removedOf (f_scope args) (f_type args)
                           (splitOn newline (textOf (memoryFile w k) w)) = [])
    by (intros k Hk; apply H; now right).
  destruct (String.eqb n deletionsName) eqn:E; [now apply IH|].
  assert (R : removedOf (f_scope args) (f_type args)
                (splitOn newline (textOf (memoryFile w n) w)) = []).
  { apply H; [now left|]. unfold isDayFile. now rewrite E. }
  rewrite (purged_idle _ _ _ R), R. cbn [app]. now apply IH.
Qed.



(** ** Remembering, then looking *)

Lemma remember_run (args : RememberArgs) (w : World) :
  remember args w
  = ("Remembered: " ++ r_type args ++ " in " ++ r_scope args,
     remembered args w).
Proof.
  unfold remember, bind, getSettings. rewrite ensureDir_run.
  unfold nowISO, getMemoryFile, bind, nowISO, memoryPath, bind, getSettings,
    ret.
  rewrite existingText_run. unfold writeFile. rewrite appendJsonLog_run.
  unfold remembered, rememberedRecord, encodeMemory, memoryFile, todayName.
  cbn [settings tick timeline clock ts type scope content issue tags].
  rewrite ?ensured_settings, ?ensured_timeline, ?ensured_clock.
  repeat change (textOf ?p (tick ?x)) with (textOf p x).
  rewrite ensured_textOf. reflexivity.
Qed.

Lemma splitOn_sep_app (sep : ascii) (a b : string) :
  splitOn sep (a ++ String sep b) = (splitOn sep a ++ splitOn sep b)%list.
Proof.
  induction a as [|c a IH]; cbn [append splitOn].
  - now rewrite Ascii.eqb_refl.
  - rewrite IH. destruct (Ascii.eqb c sep); [reflexivity|].
    destruct (splitOn sep a) as [|h t] eqn:S;
      [now apply splitOn_not_nil in S | reflexivity].
Qed.

Lemma lastChar_inv (s : string) (c : ascii) :
  lastChar s = Some c -> exists pre, s = (pre ++ String c EmptyString)%string.
Proof.
  induction s as [|x s IH]; [discriminate|].
  cbn [lastChar]. destruct s as [|y s].
  - intros [= ->]. now exists EmptyString.
  - intros H. destruct (IH H) as (pre & ->). now exists (String x pre).
Qed.

Lemma lastChar_None (s : string) : lastChar s = None -> s = EmptyString.
Proof.
  induction s as [|x s IH]; [reflexivity|].
  cbn [lastChar]. destruct s as [|y s]; [discriminate|].
  intros H. apply IH in H. discriminate.
Qed.

(** Appending a line to a text that is empty or ends with a line
    terminator adds the record of the line after the records of the
    text. *)
Lemma parseAll_appended (text line : string) :
  terminated text = true ->
  freeOf newline line = true ->
  parseAll (splitOn newline (text ++ line ++ String newline EmptyString))
  = (parseAll (splitOn newline text) ++ parseAll [line])%list.
Proof.
  intros T F. unfold terminated in T.
  assert (L : splitOn newline (line ++ String newline EmptyString)
              = [line; EmptyString]).
  { rewrite splitOn_sep_app, (splitOn_free_piece _ _ F). reflexivity. }
  destruct (lastChar text) as [c|] eqn:E.
  - apply Ascii.eqb_eq in T. subst c.
    destruct (lastChar_inv _ E) as (pre & ->).
    rewrite sappend_assoc. cbn [append].
    rewrite (splitOn_sep_app newline pre
               (line ++ String newline EmptyString)), L,
      (splitOn_sep_app newline pre EmptyString), !parseAll_app.
    cbn [splitOn parseAll]. rewrite parseLine_empty.
    now rewrite !app_nil_r.
  - apply lastChar_None in E. subst text.
    cbn [append]. rewrite L. cbn [splitOn parseAll].
    rewrite parseLine_empty. reflexivity.
Qed.

Lemma notSpace_free_newline (v : string) :
  sall notSpace v = true -> freeOf newline v = true.
Proof.
  unfold freeOf. induction v as [|c v IH]; [reflexivity|].
  cbn [sall]. intros H. apply andb_prop in H as [Hc Hv].
  rewrite (IH Hv), andb_true_r.
  destruct (Ascii.eqb c newline) eqn:E; [|reflexivity].
  apply Ascii.eqb_eq in E. subst c. discriminate.
Qed.

Lemma cleanToken_free_newline (v : string) :
  cleanToken v = true -> freeOf newline v = true.
Proof.
  intros H. apply notSpace_free_newline. apply (cleanToken_inv _ H).
Qed.

Lemma freeOf_append (c : ascii) (a b : string) :
  freeOf c (a ++ b) = freeOf c a && freeOf c b.
Proof. apply sall_append. Qed.

(** The line of a storable record is one line. *)
Lemma encodeMemory_one_line (m : Memory) :
  storable m = true -> freeOf newline (encodeMemory m) = true.
Proof.
  unfold storable. intros H. apply andb_prop in H as [H Hnl].
  destruct (cleanRecord_inv _ H)
    as ((Hts & Hty & Hsc) & (Hco & _ & _) & Hi & Htg).
  unfold encodeMemory. rewrite encodeLine_clean by assumption.
  assert (Ti : freeOf newline (issueToken (issue m)) = true).
  { destruct (issue m) as [v|]; [|reflexivity].
    cbn [issueToken]. destruct (isEmpty v); [reflexivity|].
    rewrite freeOf_append. now rewrite (cleanToken_free_newline _ Hi). }
  assert (Tt : freeOf newline (tagsToken (tags m)) = true).
  { destruct (tags m) as [[|a l]|]; try reflexivity.
    cbn [tagsToken]. rewrite freeOf_append.
    destruct (clean_tags_joined _ _ Htg) as (C & _).
    now rewrite (cleanToken_free_newline _ C). }
  rewrite !freeOf_append.
  rewrite (cleanToken_free_newline _ Hts), (cleanToken_free_newline _ Hty),
    (cleanToken_free_newline _ Hsc).
  change (freeOf newline (String dquote ?x)) with (freeOf newline x).
  rewrite freeOf_append.
  change (freeOf newline (String dquote ?x)) with (freeOf newline x).
  now rewrite freeOf_append, Hnl, Ti, Tt.
Qed.

Lemma endsWith_append (suffix a : string) :
  endsWith suffix (a ++ suffix) = true.
Proof.
  induction a as [|c a IH].
  - destruct suffix; cbn [append endsWith]; now rewrite String.eqb_refl.
  - cbn [append endsWith]. rewrite IH. apply orb_true_r.
Qed.

Lemma entryName_memoryFile (w : World) (name : string) :
  includes name "/" = false ->
  entryName (memoryDir (settings w)) (memoryFile w name) = Some name.
Proof.
  intros H. unfold entryName, memoryFile.
  rewrite <- sappend_assoc, dropPrefix_append. now rewrite H.
Qed.

Lemma scanNames_intro (w : World) (name text : string)
    (fs : list (string * string)) :
  includes name "/" = false ->
  endsWith ".logfmt" name = true ->
  In (memoryFile w name, text) fs ->
  In name (scanNames (memoryDir (settings w)) fs).
Proof.
  intros H E I. unfold scanNames. apply in_flat_map.
  exists (memoryFile w name, text). split; [exact I|].
  cbn [fst]. rewrite entryName_memoryFile by assumption.
  rewrite E. now left.
Qed.

Lemma scanNames_one (w : World) (name text : string) :
  includes name "/" = false ->
  endsWith ".logfmt" name = true ->
  scanNames (memoryDir (settings w)) [(memoryFile w name, text)] = [name].
Proof.
  intros H E. unfold scanNames; cbn [flat_map fst].
  rewrite entryName_memoryFile by assumption. now rewrite E.
Qed.

Lemma dirs_ensured_self (d : string) (w : World) :
  inStrings d (dirs (ensured d w)) = true.
Proof.
  unfold ensured. destruct (inStrings d (dirs w)) eqn:E; [exact E|].
  cbn [dirs created inStrings existsb]. now rewrite String.eqb_refl.
Qed.

Lemma recordsOf_ext (w w' : World) :
  settings w' = settings w ->
  dayNames w' = dayNames w ->
  (forall name, In name (dayNames w) ->
                textOf (memoryFile w name) w' = textOf (memoryFile w name) w) ->
  recordsOf w' = recordsOf w.
Proof.
  intros S N T. unfold recordsOf. rewrite N.
  apply flat_map_same. intros name Hn.
  unfold memoryFile at 1. rewrite S. fold (memoryFile w name).
  now rewrite T.
Qed.

(** Writing the event log leaves the records alone. *)
Lemma recordsOf_logged (payload : list (string * Json)) (w : World) :
  recordsOf (logged payload w) = recordsOf w.
Proof.
  apply recordsOf_ext.
  - unfold logged; cbn [settings written tick]. apply ensured_settings.
  - apply dayNames_logged.
  - intros name Hn. rewrite textOf_logged.
    destruct (String.eqb (memoryFile w name) (logPath w)) eqn:E;
      [|reflexivity].
    apply String.eqb_eq in E. exfalso.
    unfold dayNames in Hn. apply filter_In in Hn as [Hin _].
    apply scanNames_In in Hin as [Hext _].
    now apply (logPath_not_logfmt w w) in Hext.
Qed.

Section Remembering.
Variables (args : RememberArgs) (w : World).

Let m : Memory := rememberedRecord args w.
Let name : string := todayName w.
Let file : string := memoryFile w name.
Let text' : string :=
  textOf file w ++ encodeMemory m ++ String newline EmptyString.
Let w3 : World :=
  written file text' (tick (tick (ensured (memoryDir (settings w)) w))).

Hypothesis storable_record : storable m = true.
Hypothesis distinct_paths : distinctPaths (map fst (files w)) = true.
Hypothesis plain_name : plainName name = true.
Hypothesis terminated_file : terminated (textOf file w) = true.

Lemma today_records :
  parseAll (splitOn newline text')
  = (parseAll (splitOn newline (textOf file w)) ++ [m])%list.
Proof.
  unfold text'. rewrite parseAll_appended;
    [|assumption | now apply encodeMemory_one_line].
  cbn [parseAll]. unfold storable in storable_record.
  apply andb_prop in storable_record as [C _].
  destruct (cleanRecord_inv _ C)
    as ((Hts & Hty & Hsc) & (Hco & Ii & It) & Hi & Htg).
  unfold encodeMemory. rewrite parseLine_encodeLine by assumption.
  now destruct m.
Qed.

Lemma today_name :
  includes name "/" = false /\ isDayFile name = true
  /\ endsWith ".logfmt" name = true.
Proof.
  unfold plainName in plain_name. apply andb_prop in plain_name as [A B].
  apply negb_true_iff in A. repeat split; try assumption.
  unfold name, todayName. apply endsWith_append.
Qed.

Lemma w3_settings : settings w3 = settings w.
Proof. unfold w3; cbn [settings written tick]. apply ensured_settings. Qed.

Lemma w3_text (n : string) :
  textOf (memoryFile w n) w3
  = if String.eqb n name then text' else textOf (memoryFile w n) w.
Proof.
  unfold w3. rewrite textOf_written.
  repeat change (textOf ?p (tick ?x)) with (textOf p x).
  rewrite ensured_textOf. unfold file.
  destruct (String.eqb n name) eqn:E.
  - apply String.eqb_eq in E. subst n. now rewrite String.eqb_refl.
  - destruct (String.eqb (memoryFile w n) (memoryFile w name)) eqn:E';
      [|reflexivity].
    apply String.eqb_eq, memoryFile_inj in E'. subst n.
    now rewrite String.eqb_refl in E.
Qed.

Lemma w3_dayNames :
  dayNames w3
  = if inStrings file (map fst (files w)) then dayNames w
    else (dayNames w ++ [name])%list.
Proof.
  destruct today_name as (A & B & C).
  unfold dayNames, scannedNames, w3; cbn [settings files written tick].
  rewrite ensured_settings, ensured_files, scanNames_assocSet.
  destruct (inStrings file (map fst (files w))); [reflexivity|].
  unfold file. rewrite scanNames_one by assumption.
  rewrite filter_app. cbn [filter]. now rewrite B.
Qed.

Lemma w3_records :
  exists before after,
    recordsOf w = (before ++ after)%list
    /\ recordsOf w3 = (before ++ m :: after)%list.
Proof.
  destruct today_name as (A & B & C).
  pose proof (distinctPaths_NoDup _ distinct_paths) as ND.
  pose proof (@scanNames_NoDup (memoryDir (settings w)) _ ND) as NDn.
  fold (scannedNames w) in NDn.
  assert (NDd : NoDup (dayNames w)) by now apply NoDup_filter.
  set (F := fun (x : World) (n : string) =>
              parseAll (splitOn newline (textOf (memoryFile w n) x))).
  assert (R : forall x, settings x = settings w ->
                        recordsOf x = flat_map (F x) (dayNames x)).
  { intros x S. unfold recordsOf, F. apply flat_map_same. intros n _.
    unfold memoryFile. now rewrite S. }
  assert (Same : forall names, ~ In name names ->
                               flat_map (F w3) names = flat_map (F w) names).
  { intros names Hn. apply flat_map_same. intros n Hin. unfold F.
    rewrite w3_text. destruct (String.eqb n name) eqn:E; [|reflexivity].
    apply String.eqb_eq in E. now subst n. }
  assert (Own : F w3 name = (F w name ++ [m])%list).
  { unfold F. rewrite w3_text, String.eqb_refl. apply today_records. }
  rewrite (R w3 w3_settings), (R w eq_refl), w3_dayNames.
  destruct (inStrings file (map fst (files w))) eqn:K.
  - assert (I : In name (dayNames w)).
    { apply inStrings_In, in_map_iff in K as ([p t] & Hp & Hin).
      cbn [fst] in Hp. subst p. unfold dayNames. apply filter_In.
      split; [|exact B]. now apply (scanNames_intro w name t). }
    apply in_split in I as (n1 & n2 & E). rewrite E in *.
    apply NoDup_remove_2 in NDd.
    assert (N1 : ~ In name n1) by (intros X; apply NDd, in_or_app; now left).
    assert (N2 : ~ In name n2) by (intros X; apply NDd, in_or_app; now right).
    exists (flat_map (F w) n1 ++ F w name)%list, (flat_map (F w) n2).
    rewrite !flat_map_app. cbn [flat_map].
    rewrite (Same n1 N1), (Same n2 N2), Own.
    split; [now rewrite <- app_assoc|].
    rewrite <- !app_assoc. reflexivity.
  - assert (I : ~ In name (dayNames w)).
    { intros X. unfold dayNames in X. apply filter_In in X as [X _].
      apply scannedNames_key in X. fold file in X. congruence. }
    assert (Z : F w name = []).
    { unfold F, textOf. fold file.
      assert (G : assocGet file (files w) = None).
      { apply assocGet_None_keys. rewrite <- inStrings_In. congruence. }
      now rewrite G. }
    exists (flat_map (F w) (dayNames w)), [].
    rewrite flat_map_app. cbn [flat_map].
    rewrite (Same _ I), Own, Z, !app_nil_r. split; reflexivity.
Qed.
End Remembering.



(** ** The hooks *)

Lemma noted_frame (id : string) (a : option string) (w : World) :
  settings (noted id a w) = settings w
  /\ dirs (noted id a w) = dirs w
  /\ files (noted id a w) = files w
  /\ timeline (noted id a w) = timeline w
  /\ clock (noted id a w) = clock w
  /\ journal (noted id a w) = journal w.
Proof.
  unfold noted. destruct a as [name|]; [destruct (isEmpty name)|];
    repeat split.
Qed.

Lemma chatMessage_run (input : ChatInput) (parts : Json) (w : World) :
  chatMessage input parts w
  = (tt, hooked "chat" (chatEvent input parts w)
           (noted (c_sessionID input) (c_agent input) w)).
Proof.
  unfold chatMessage, chatEvent, hooked, noted.
  destruct (c_agent input) as [a|]; [destruct (isEmpty a)|];
    unfold bind, buildLoggerEvent, bind, nowISO, ret, setSessionAgent;
    rewrite appendJsonLog_run; reflexivity.
Qed.

Lemma toolExecuteBefore_run (input : ToolInput) (args : Json) (w : World) :
  toolExecuteBefore input args w
  = (tt, hooked (scopeOr args) (toolBeforeEvent input args w) w).
Proof.
  unfold toolExecuteBefore, bind, getSessionAgent, buildLoggerEvent, bind,
    nowISO, ret.
  now rewrite appendJsonLog_run.
Qed.

Lemma toolExecuteAfter_run (input : ToolInput) (metadata title output : Json)
    (w : World) :
  toolExecuteAfter input metadata title output w
  = (tt, hooked (scopeOr metadata) (toolAfterEvent input title output w) w).
Proof.
  unfold toolExecuteAfter, bind, getSessionAgent, buildLoggerEvent, bind,
    nowISO, ret.
  now rewrite appendJsonLog_run.
Qed.

Lemma logsScope_disabled (scope : string) (w : World) :
  enabled (logger (settings w)) = false -> logsScope scope w = false.
Proof. intros H. unfold logsScope. now rewrite H. Qed.

Lemma hooked_quiet (scope : string) (event : list (string * Json))
    (w : World) :
  logsScope scope w = false ->
  hooked scope event w = tick w.
Proof.
  intros H. unfold hooked.
  change (logsScope scope (tick w)) with (logsScope scope w).
  now rewrite H.
Qed.

Lemma hooked_sessionAgents (scope : string) (event : list (string * Json))
    (w : World) :
  sessionAgents (hooked scope event w) = sessionAgents w.
Proof.
  unfold hooked. destruct (logsScope scope (tick w)); [|reflexivity].
  unfold logged; cbn [sessionAgents written tick].
  now rewrite ensured_sessionAgents.
Qed.

Lemma hooked_settings (scope : string) (event : list (string * Json))
    (w : World) :
  settings (hooked scope event w) = settings w.
Proof.
  unfold hooked. destruct (logsScope scope (tick w)); [|reflexivity].
  unfold logged; cbn [settings written tick]. now rewrite ensured_settings.
Qed.

(** X10.  A hook whose scope the logger does not log writes nothing:
    [chat.message] leaves files, directories and the write journal as
    they were (it still notes the agent of the session), and the two
    tool hooks only read the clock.  With the logger disabled no scope
    is logged at all. *)
Theorem hooks_are_silent_outside_the_logged_scopes :
  forall w : World,
    (forall input parts,
        logsScope "chat" w = false ->
        snd (chatMessage input parts w)
        = tick (noted (c_sessionID input) (c_agent input) w)
        /\ files (snd (chatMessage input parts w)) = files w
        /\ dirs (snd (chatMessage input parts w)) = dirs w
        /\ journal (snd (chatMessage input parts w)) = journal w)
    /\ (forall input args,
           logsScope (scopeOr args) w = false ->
           snd (toolExecuteBefore input args w) = tick w)
    /\ (forall input metadata title output,
           logsScope (scopeOr metadata) w = false ->
           snd (toolExecuteAfter input metadata title output w) = tick w)
    /\ (enabled (logger (settings w)) = false ->
        forall scope, fst (shouldLogScope scope w) = false).
Proof.
  intros w. split; [|split; [|split]].
  - intros input parts H. rewrite chatMessage_run. cbn [snd].
    destruct (noted_frame (c_sessionID input) (c_agent input) w)
      as (Hs & Hd & Hf & _ & _ & Hj).
    rewrite hooked_quiet
      by (unfold logsScope in *; now rewrite Hs).
    repeat split; assumption.
  - intros input args H. rewrite toolExecuteBefore_run. cbn [snd].
    now apply hooked_quiet.
  - intros input metadata title output H. rewrite toolExecuteAfter_run.
    cbn [snd]. now apply hooked_quiet.
  - intros H scope. rewrite shouldLogScope_run. cbn [fst].
    now apply logsScope_disabled.
Qed.

Lemma noted_agents (id s : string) (a : option string) (w : World) :
  assocGet s (sessionAgents (noted id a w))
  = if truthy a && String.eqb s id then a
    else assocGet s (sessionAgents w).
Proof.
  unfold noted, truthy. destruct a as [name|]; [|reflexivity].
  destruct (isEmpty name); cbn [negb andb]; [reflexivity|].
  cbn [sessionAgents]. rewrite assocGet_assocSet.
  now destruct (String.eqb s id).
Qed.

Lemma toolBeforeEvent_agent (input : ToolInput) (args : Json) (w : World) :
  assocGet "agent" (toolBeforeEvent input args w)
  = Some (orNull (assocGet (t_sessionID input) (sessionAgents w)))
  /\ assocGet "session_id" (toolBeforeEvent input args w)
     = Some (JStr (t_sessionID input)).
Proof. split; reflexivity. Qed.

Lemma toolAfterEvent_agent (input : ToolInput) (title output : Json)
    (w : World) :
  assocGet "agent" (toolAfterEvent input title output w)
  = Some (orNull (assocGet (t_sessionID input) (sessionAgents w)))
  /\ assocGet "session_id" (toolAfterEvent input title output w)
     = Some (JStr (t_sessionID input)).
Proof. split; reflexivity. Qed.

(** X11.  The agent named in a chat message is the agent of the later
    tool events of that session, and of no other session.  After
    [chat.message] with a non-empty agent, the event that
    [tool.execute.before] and [tool.execute.after] build for the same
    session has that agent in its [agent] field, and for another session
    the agent noted before (or null); the event is the line appended to
    the log of the day when its scope is logged.  Tool hooks do not
    change the agents noted. *)
Theorem tool_events_carry_the_agent_of_the_session :
  forall (w : World) (chat : ChatInput) (parts : Json) (a : string)
         (input : ToolInput) (args title output : Json),
    c_agent chat = Some a ->
    isEmpty a = false ->
    let w1 := snd (chatMessage chat parts w) in
    let before := toolBeforeEvent input args w1 in
    let after := toolAfterEvent input title output w1 in
    let known := if String.eqb (t_sessionID input) (c_sessionID chat)
                 then JStr a
                 else orNull (assocGet (t_sessionID input)
                                       (sessionAgents w)) in
    snd (toolExecuteBefore input args w1) = hooked (scopeOr args) before w1
    /\ snd (toolExecuteAfter input args title output w1)
       = hooked (scopeOr args) after w1
    /\ assocGet "agent" before = Some known
    /\ assocGet "agent" after = Some known
    /\ (logsScope (scopeOr args) w = true ->
        textOf (logPath (tick w1)) (snd (toolExecuteBefore input args w1))
        = (textOf (logPath (tick w1)) w1 ++ stringify (JObj before)
           ++ String newline EmptyString)%string)
    /\ sessionAgents (snd (toolExecuteBefore input args w1))
       = sessionAgents w1.
Proof.
  intros w chat parts a input args title output Ha Hne w1 before after known.
  assert (S1 : settings w1 = settings w).
  { unfold w1. rewrite chatMessage_run. cbn [snd]. rewrite hooked_settings.
    apply noted_frame. }
  assert (A1 : forall s, assocGet s (sessionAgents w1)
                         = if String.eqb s (c_sessionID chat) then Some a
                           else assocGet s (sessionAgents w)).
  { intros s. unfold w1. rewrite chatMessage_run. cbn [snd].
    rewrite hooked_sessionAgents, noted_agents, Ha.
    unfold truthy. now rewrite Hne. }
  assert (K : orNull (assocGet (t_sessionID input) (sessionAgents w1))
              = known).
  { rewrite A1. unfold known.
    destruct (String.eqb (t_sessionID input) (c_sessionID chat));
      [|reflexivity].
    unfold orNull. now rewrite Hne. }
  split; [now rewrite toolExecuteBefore_run|].
  split; [now rewrite toolExecuteAfter_run|].
  split; [unfold before; now rewrite (proj1 (toolBeforeEvent_agent _ _ _)), K|].
  split; [unfold after; now rewrite (proj1 (toolAfterEvent_agent _ _ _ _)), K|].
  split.
  - intros L. rewrite toolExecuteBefore_run. cbn [snd]. unfold hooked.
    assert (L1 : logsScope (scopeOr args) (tick w1) = true).
    { unfold logsScope in *. cbn [settings tick]. now rewrite S1. }
    rewrite L1, textOf_logged, String.eqb_refl. reflexivity.
  - rewrite toolExecuteBefore_run. cbn [snd]. apply hooked_sessionAgents.
Qed.

Lemma tool_events_carry_the_agent_of_the_session_witness :
  c_agent subChat = Some "explore"
  /\ isEmpty "explore" = false
  /\ assocGet "agent"
       (toolBeforeEvent (mkToolInput "ses_sub" (JStr "call_1") (JStr "read"))
          (JObj [("scope", JStr "auth")])
          (snd (chatMessage subChat (JArr []) testWorld)))
     = Some (JStr "explore")
  /\ assocGet "agent"
       (toolBeforeEvent (mkToolInput "ses_main" (JStr "call_2") (JStr "read"))
          (JObj [("scope", JStr "auth")])
          (snd (chatMessage subChat (JArr []) testWorld)))
     = Some JNull.
Proof.
  split; [reflexivity|]. split; [reflexivity|]. split.
  - exact (proj1 (proj2 (proj2
             (tool_events_carry_the_agent_of_the_session testWorld subChat
                (JArr []) (mkToolInput "ses_sub" (JStr "call_1") (JStr "read"))
                (JObj [("scope", JStr "auth")]) JNull JNull
                eq_refl eq_refl)))).
  - exact (proj1 (proj2 (proj2
             (tool_events_carry_the_agent_of_the_session testWorld subChat
                (JArr []) (mkToolInput "ses_main" (JStr "call_2") (JStr "read"))
                (JObj [("scope", JStr "auth")]) JNull JNull
                eq_refl eq_refl)))).
Defined.

(** ** One event, one line *)

Section JsonInduction.
Variable P : Json -> Prop.
Hypothesis P_undefined : P JUndefined.
Hypothesis P_null : P JNull.
Hypothesis P_bool : forall b, P (JBool b).
Hypothesis P_num : forall n, P (JNum n).
Hypothesis P_str : forall s, P (JStr s).
Hypothesis P_arr : forall items, Forall P items -> P (JArr items).
Hypothesis P_obj :
  forall props, Forall (fun kv => P (snd kv)) props -> P (JObj props).

Fixpoint Json_nested_ind (v : Json) : P v :=
  match v with
  | JUndefined => P_undefined
  | JNull => P_null
  | JBool b => P_bool b
  | JNum n => P_num n
  | JStr s => P_str s
  | JArr items =>
      P_arr ((fix each (l : list Json) : Forall P l :=
                match l with
                | [] => Forall_nil P
                | x :: l' => Forall_cons x (Json_nested_ind x) (each l')
                end) items)
  | JObj props =>
      P_obj ((fix each (l : list (string * Json))
                : Forall (fun kv => P (snd kv)) l :=
                match l with
                | [] => Forall_nil _
                | kv :: l' =>
                    Forall_cons kv (Json_nested_ind (snd kv)) (each l')
                end) props)
  end.
End JsonInduction.

Lemma jsonChar_one_line (c : ascii) : freeOf newline (jsonChar c) = true.
Proof.
  unfold jsonChar.
  destruct (Ascii.eqb c dquote); [reflexivity|].
  destruct (Ascii.eqb c backslash); [reflexivity|].
  destruct (nat_of_ascii c =? 8)%nat; [reflexivity|].
  destruct (nat_of_ascii c =? 9)%nat; [reflexivity|].
  destruct (nat_of_ascii c =? 10)%nat eqn:E10; [reflexivity|].
  destruct (nat_of_ascii c =? 12)%nat; [reflexivity|].
  destruct (nat_of_ascii c =? 13)%nat; [reflexivity|].
  destruct (nat_of_ascii c <? 32)%nat eqn:E32.
  - apply Nat.ltb_lt in E32.
    assert (H : forall n, n < 16 ->
                          Ascii.eqb (hexDigit n) newline = false).
    { intros n Hn. do 16 (destruct n as [|n]; [reflexivity|]). lia. }
    cbn [append]. unfold freeOf. cbn [sall].
    rewrite !H; [reflexivity | apply Nat.mod_upper_bound; lia
                | apply Nat.Div0.div_lt_upper_bound; lia].
  - unfold freeOf. cbn [sall]. rewrite andb_true_r.
    destruct (Ascii.eqb c newline) eqn:E; [|reflexivity].
    apply Ascii.eqb_eq in E. subst c. discriminate.
Qed.

Lemma jsonString_one_line (s : string) : freeOf newline (jsonString s) = true.
Proof.
  unfold jsonString.
  change (freeOf newline (String dquote ?x)) with (freeOf newline x).
  rewrite freeOf_append.
  assert (H : freeOf newline (jsonChars s) = true).
  { induction s as [|c s IH]; [reflexivity|].
    cbn [jsonChars]. now rewrite freeOf_append, jsonChar_one_line, IH. }
  now rewrite H.
Qed.

Lemma showNat_one_line (n : nat) : freeOf newline (showNat n) = true.
Proof.
  unfold showNat.
  assert (H : forall d, freeOf newline (NilEmpty.string_of_uint d) = true).
  { induction d; [reflexivity|..];
      cbn [NilEmpty.string_of_uint]; unfold freeOf in *; cbn [sall];
      rewrite IHd; reflexivity. }
  unfold NilZero.string_of_uint. destruct (Nat.to_uint n); try apply H.
  reflexivity.
Qed.

Lemma join_one_line (sep : string) (pieces : list string) :
  freeOf newline sep = true ->
  Forall (fun p => freeOf newline p = true) pieces ->
  freeOf newline (join sep pieces) = true.
Proof.
  intros Hs H. induction H as [|p rest Hp Hrest IH]; [reflexivity|].
  destruct rest as [|q rest]; [exact Hp|].
  rewrite join_cons, !freeOf_append. now rewrite Hp, Hs, IH.
Qed.

(** The JSON text of a value has no line terminator in it. *)
Lemma stringify_one_line (v : Json) : freeOf newline (stringify v) = true.
Proof.
  induction v using Json_nested_ind; try reflexivity.
  - now destruct b.
  - apply showNat_one_line.
  - apply jsonString_one_line.
  - cbn [stringify].
    change (freeOf newline ("[" ++ ?x)) with (freeOf newline x).
    rewrite freeOf_append. rewrite join_one_line; [reflexivity..|].
    induction H as [|x l Hx Hl IH]; constructor; assumption.
  - cbn [stringify].
    change (freeOf newline ("{" ++ ?x)) with (freeOf newline x).
    rewrite freeOf_append. rewrite join_one_line; [reflexivity..|].
    induction H as [|[k x] l Hx Hl IH]; [constructor|].
    cbn [snd] in Hx. destruct x; try exact IH; constructor; try exact IH;
      rewrite !freeOf_append, jsonString_one_line, Hx; reflexivity.
Qed.

Lemma splitOn_appended (text line : string) :
  terminated text = true ->
  freeOf newline line = true ->
  exists lines,
    splitOn newline text = (lines ++ [EmptyString])%list
    /\ splitOn newline (text ++ line ++ String newline EmptyString)
       = (lines ++ [line; EmptyString])%list.
Proof.
  intros T F. unfold terminated in T.
  assert (L : splitOn newline (line ++ String newline EmptyString)
              = [line; EmptyString]).
  { rewrite splitOn_sep_app, (splitOn_free_piece _ _ F). reflexivity. }
  destruct (lastChar text) as [c|] eqn:E.
  - apply Ascii.eqb_eq in T. subst c.
    destruct (lastChar_inv _ E) as (pre & ->).
    exists (splitOn newline pre).
    rewrite sappend_assoc. cbn [append].
    rewrite (splitOn_sep_app newline pre
               (line ++ String newline EmptyString)), L,
      (splitOn_sep_app newline pre EmptyString).
    split; reflexivity.
  - apply lastChar_None in E. subst text. exists [].
    cbn [append app]. rewrite L. split; reflexivity.
Qed.

(** X12.  The event log stays one event per line.  When the scope is
    logged and the log of the day is empty or ends with a line
    terminator, [appendJsonLog] adds exactly one line to it, the JSON
    text of the event, which has no line break in it whatever strings
    the event holds, and leaves the lines before it and the final line
    terminator in place. *)
Theorem appendJsonLog_appends_one_line :
  forall (scope : string) (payload : list (string * Json)) (w : World),
    logsScope scope w = true ->
    terminated (textOf (logPath w) w) = true ->
    let after := snd (appendJsonLog scope payload w) in
    freeOf newline (stringify (JObj payload)) = true
    /\ terminated (textOf (logPath w) after) = true
    /\ exists lines,
         splitOn newline (textOf (logPath w) w)
         = (lines ++ [EmptyString])%list
         /\ splitOn newline (textOf (logPath w) after)
            = (lines ++ [stringify (JObj payload); EmptyString])%list.
Proof.
  intros scope payload w L T after.
  pose proof (stringify_one_line (JObj payload)) as F.
  assert (E : textOf (logPath w) after
              = (textOf (logPath w) w ++ stringify (JObj payload)
                 ++ String newline EmptyString)%string).
  { unfold after. rewrite appendJsonLog_run, L. cbn [snd].
    now rewrite textOf_logged, String.eqb_refl. }
  split; [exact F|]. split.
  - rewrite E. unfold terminated.
    rewrite !lastChar_append by discriminate. reflexivity.
  - rewrite E. now apply splitOn_appended.
Qed.

Lemma appendJsonLog_appends_one_line_witness :
  logsScope "chat" testWorld = true
  /\ terminated (textOf (logPath testWorld) testWorld) = true
  /\ freeOf newline
       (stringify (JObj [("note", JStr (String newline "two lines"))]))
     = true.
Proof.
  split; [reflexivity|]. split; [reflexivity|].
  exact (proj1 (appendJsonLog_appends_one_line "chat"
                  [("note", JStr (String newline "two lines"))] testWorld
                  eq_refl eq_refl)).
Defined.

(** ** Settings *)

Section HostLemmas.
Variable homedir : string.
Variable env : string -> option string.
Variable isAbsolute : string -> bool.
Variable pathJoin : list string -> string.
Variable dirname : string -> string.
Variable parseJson : string -> option Json.

Lemma readSettingsFile_run (path : string) (w : World) :
  readSettingsFile parseJson path w = (settingsAt parseJson path w, w).
Proof.
  unfold readSettingsFile, settingsAt, bind, fileExists, fileText, ret.
  destruct (hasFile path w); cbn [negb]; [|reflexivity].
  now destruct (isEmpty (trim (textOf path w))).
Qed.

Lemma expandTemplate_run (value projectDir : string)
    (dateOverride : option string) (w : World) :
  expandTemplate homedir env isAbsolute pathJoin value projectDir
    dateOverride w
  = (let date := match dateOverride with
                 | Some d => if isEmpty d then datePart (timeline w (clock w))
                             else d
                 | None => datePart (timeline w (clock w))
                 end in
     let resolved := resolveTemplate homedir env value projectDir date in
     if isAbsolute resolved then resolved
     else pathJoin [projectDir; resolved],
     tick w).
Proof. reflexivity. Qed.

(** Three merges pick, for each setting, the last patch that has it. *)
Lemma mergeSettings_layers (base : PluginSettings)
    (g p i : option SettingsFile) :
  mergeSettings (mergeSettings (mergeSettings base g) p) i
  = let pick (A : Type) (read : SettingsFile -> option A) (d : A) :=
      firstSet [setting read i; setting read p; setting read g] d in
    mkSettings
      (pick string sf_memoryDir (memoryDir base))
      (mkLogger
         (pick bool (loggerField lf_enabled) (enabled (logger base)))
         (pick (list string) (loggerField lf_scopes) (scopes (logger base)))
         (pick string (loggerField lf_dir) (dir (logger base)))).
Proof.
  cbv zeta. destruct base as [m [e s d]].
  destruct g as [[gm gl]|], p as [[pm pl]|], i as [[im il]|];
    unfold mergeSettings, setting, loggerField, nullish;
    cbn [sf_memoryDir sf_logger memoryDir logger enabled scopes dir firstSet];
    repeat match goal with
           | |- context [match ?x with Some _ => _ | None => _ end] =>
               is_var x; destruct x
           end;
    try reflexivity;
    repeat match goal with
           | l : LoggerFile |- _ => destruct l as [? ? ?]
           end;
    cbn [lf_enabled lf_scopes lf_dir firstSet];
    repeat match goal with
           | |- context [match ?x with Some _ => _ | None => _ end] =>
               is_var x; destruct x
           end;
    reflexivity.
Qed.
End HostLemmas.

(** X13.  Each setting comes from the nearest source that has it.  When
    the global file, the project file and the inline configuration hold
    values of the declared types, [loadSettings] takes each of the four
    settings, one by one, from the inline configuration if it has it,
    else from the project file, else from the global file, else from the
    defaults; the two directories are then expanded as templates, each
    with its own reading of the clock.  Loading writes nothing. *)
Theorem loadSettings_takes_each_setting_from_the_nearest_source :
  forall (homedir : string) (env : string -> option string)
         (isAbsolute : string -> bool) (pathJoin : list string -> string)
         (parseJson : string -> option Json)
         (projectDir : string) (config : option Json) (w : World),
    let fromGlobal :=
      settingsAt parseJson (GLOBAL_SETTINGS_FILE homedir pathJoin) w in
    let fromProject :=
      settingsAt parseJson (projectSettingsFile pathJoin projectDir) w in
    let inline := inlineConfig config in
    forallb (fun source => match source with
                           | Some v => declared v
                           | None => true
                           end) [fromGlobal; fromProject; inline] = true ->
    let pick (A : Type) (read : SettingsFile -> option A) (d : A) :=
      firstSet [setting read (asPatch inline);
                setting read (asPatch fromProject);
                setting read (asPatch fromGlobal)] d in
    let toPath (date value : string) :=
      let resolved := resolveTemplate homedir env value projectDir date in
      if isAbsolute resolved then resolved
      else pathJoin [projectDir; resolved] in
    loadSettings homedir env isAbsolute pathJoin parseJson projectDir config w
    = (mkSettings
         (toPath (datePart (timeline w (clock w)))
                 (pick string sf_memoryDir ".opencode/memory"))
         (mkLogger
            (pick bool (loggerField lf_enabled) false)
            (pick (list string) (loggerField lf_scopes) [])
            (toPath (datePart (timeline w (S (clock w))))
                    (pick string (loggerField lf_dir)
                          ".opencode/logs/memory"))),
       tick (tick w)).
Proof.
  intros homedir env isAbsolute pathJoin parseJson projectDir config w
    fromGlobal fromProject inline _ pick toPath.
  unfold loadSettings, bind. rewrite !readSettingsFile_run.
  fold fromGlobal fromProject inline.
  rewrite mergeSettings_layers. cbv zeta.
  cbn [memoryDir logger enabled scopes dir DEFAULT_SETTINGS].
  rewrite !expandTemplate_run. reflexivity.
Qed.

Lemma loadSettings_takes_each_setting_from_the_nearest_source_witness :
  forallb (fun source => match source with
                         | Some v => declared v
                         | None => true
                         end)
    [settingsAt parseLoggerOn (GLOBAL_SETTINGS_FILE "/home/u" slashJoin)
       settingsWorld;
     settingsAt parseLoggerOn (projectSettingsFile slashJoin "/repo")
       settingsWorld;
     inlineConfig
       (Some (JObj [("memory_log",
                     JObj [("memoryDir", JStr "${project}/mem")])]))] = true
  /\ fst (loadSettings "/home/u" (fun _ => None) posixAbsolute slashJoin
            parseLoggerOn "/repo"
            (Some (JObj [("memory_log",
                          JObj [("memoryDir", JStr "${project}/mem")])]))
            settingsWorld)
     = mkSettings "/repo/mem"
         (mkLogger true ["auth"] "/repo/.opencode/logs/memory").
Proof.
  split; [reflexivity|].
  rewrite (loadSettings_takes_each_setting_from_the_nearest_source
             "/home/u" (fun _ => None) posixAbsolute slashJoin parseLoggerOn
             "/repo"
             (Some (JObj [("memory_log",
                           JObj [("memoryDir", JStr "${project}/mem")])]))
             settingsWorld eq_refl).
  vm_compute. reflexivity.
Defined.

(** ** Templates *)

Lemma foldCase_dollar (c : ascii) :
  Ascii.eqb (foldCase "$") (foldCase c) = true -> c = "$"%char.
Proof.
  destruct c as [[] [] [] [] [] [] [] []]; vm_compute; intros H;
    try reflexivity; discriminate.
Qed.

Lemma substitute_plain (v matched before after : string) :
  freeOf "$" v = true -> substitute v matched before after = v.
Proof.
  unfold freeOf. induction v as [|c v IH]; [reflexivity|].
  cbn [sall substitute]. intros H. apply andb_prop in H as [Hc Hv].
  apply negb_true_iff in Hc. rewrite Hc. now rewrite IH.
Qed.

Lemma mismatch_none (lit t rest : string) :
  mismatch lit t = true -> dropPrefixCI lit (t ++ rest) = None.
Proof.
  revert t; induction lit as [|a lit IH]; intros t H; [discriminate|].
  destruct t as [|b t]; [discriminate|].
  cbn [mismatch] in H. cbn [append dropPrefixCI].
  destruct (Ascii.eqb (foldCase a) (foldCase b)); [now apply IH|].
  reflexivity.
Qed.

Lemma dropPrefixCI_self (lit rest : string) :
  dropPrefixCI lit (lit ++ rest) = Some rest.
Proof.
  induction lit as [|a lit IH]; [reflexivity|].
  cbn [append dropPrefixCI]. now rewrite Ascii.eqb_refl.
Qed.

Lemma take_app_length (a b : string) : take (String.length a) (a ++ b) = a.
Proof.
  induction a as [|c a IH]; [now destruct b|].
  cbn [String.length append take]. now rewrite IH.
Qed.

Lemma sdrop_app_length (a b : string) : sdrop (String.length a) (a ++ b) = b.
Proof.
  induction a as [|c a IH]; [now destruct b|].
  cbn [String.length append sdrop]. exact IH.
Qed.

Section Passes.
Variable matchAt : string -> option nat.
Variable replacement : string -> string -> string -> string.
Hypothesis at_dollar :
  forall c s, matchAt (String c s) <> None -> c = "$"%char.

Lemma replaceFrom_text (a : string) :
  forall before rest,
    freeOf "$" a = true ->
    replaceFrom matchAt replacement 0 before (a ++ rest)
    = (a ++ replaceFrom matchAt replacement 0 (before ++ a) rest)%string.
Proof.
  unfold freeOf. induction a as [|c a IH]; intros before rest H.
  - cbn [append]. now rewrite sappend_nil_r.
  - cbn [sall] in H. apply andb_prop in H as [Hc Ha].
    cbn [append replaceFrom].
    assert (N : matchAt (String c (a ++ rest)) = None).
    { destruct (matchAt (String c (a ++ rest))) eqn:E; [|reflexivity].
      assert (X : c = "$"%char) by (apply (at_dollar (s := a ++ rest));
                                    congruence).
      subst c. discriminate. }
    rewrite N, (IH _ _ Ha), sappend_assoc. reflexivity.
Qed.

Lemma replaceFrom_skip (x : string) :
  forall before rest,
    replaceFrom matchAt replacement (String.length x) before (x ++ rest)
    = replaceFrom matchAt replacement 0 (before ++ x) rest.
Proof.
  induction x as [|c x IH]; intros before rest.
  - cbn [String.length append]. now rewrite sappend_nil_r.
  - cbn [String.length append replaceFrom].
    rewrite IH, sappend_assoc. reflexivity.
Qed.

(** A match of the whole of [tok] at the start. *)
Lemma replaceFrom_match (tok : string) (before rest : string) :
  tok <> EmptyString ->
  matchAt (tok ++ rest) = Some (String.length tok) ->
  replaceFrom matchAt replacement 0 before (tok ++ rest)
  = (replacement tok before rest
     ++ replaceFrom matchAt replacement 0 (before ++ tok) rest)%string.
Proof.
  intros N M. destruct tok as [|c tok]; [contradiction|].
  pose proof (take_app_length (String c tok) rest) as T.
  pose proof (sdrop_app_length (String c tok) rest) as D.
  cbn [String.length append] in *. cbn [replaceFrom]. rewrite M.
  rewrite T, D. f_equal.
  rewrite replaceFrom_skip, sappend_assoc. reflexivity.
Qed.

(** A token of another pattern stays. *)
Lemma replaceFrom_other (r before rest : string) :
  freeOf "$" r = true ->
  matchAt (String "$" (r ++ rest)) = None ->
  replaceFrom matchAt replacement 0 before (String "$" r ++ rest)
  = (String "$" r
     ++ replaceFrom matchAt replacement 0 (before ++ String "$" r) rest)%string.
Proof.
  intros F N. cbn [append replaceFrom]. rewrite N.
  rewrite replaceFrom_text by assumption.
  rewrite sappend_assoc. reflexivity.
Qed.
End Passes.

Lemma slength_append (a b : string) :
  String.length (a ++ b) = String.length a + String.length b.
Proof. induction a as [|c a IH]; cbn; [reflexivity | now rewrite IH]. Qed.

Lemma envChar_not_dollar (k : string) :
  sall isEnvChar k = true -> freeOf "$" k = true.
Proof.
  unfold freeOf. induction k as [|c k IH]; [reflexivity|].
  cbn [sall]. intros H. apply andb_prop in H as [Hc Hk].
  rewrite (IH Hk), andb_true_r.
  destruct (Ascii.eqb c "$") eqn:E; [|reflexivity].
  apply Ascii.eqb_eq in E. subst c. discriminate.
Qed.

Section LiteralPass.
Variables (l v : string).
Hypothesis v_plain : freeOf "$" v = true.

Let lit : string := String "$" l.

Lemma literalAt_dollar (c : ascii) (s : string) :
  literalAt lit (String c s) <> None -> c = "$"%char.
Proof.
  unfold literalAt, lit. cbn [dropPrefixCI].
  destruct (Ascii.eqb (foldCase "$") (foldCase c)) eqn:E.
  - intros _. now apply foldCase_dollar.
  - intros H. now elim H.
Qed.

Lemma literal_pass (toks outs : list string) :
  Forall2 (passes lit v) toks outs ->
  forall before,
    replaceFrom (literalAt lit) (substitute v) 0 before (concatAll toks)
    = concatAll outs.
Proof.
  induction 1 as [|tok out toks outs H _ IH]; intros before; [reflexivity|].
  cbn [concatAll fold_right]. fold (concatAll toks) (concatAll outs).
  destruct H as [(F & ->)|[(-> & ->)|(r & -> & F & M & ->)]].
  - rewrite (@replaceFrom_text (literalAt lit) (substitute v)
               literalAt_dollar) by assumption.
    now rewrite IH.
  - rewrite replaceFrom_match.
    + now rewrite substitute_plain, IH.
    + discriminate.
    + unfold literalAt. now rewrite dropPrefixCI_self.
  - rewrite (@replaceFrom_other (literalAt lit) (substitute v)
               literalAt_dollar); [now rewrite IH | assumption |].
    unfold literalAt.
    change (String "$" (r ++ concatAll toks))
      with (String "$" r ++ concatAll toks)%string.
    now rewrite mismatch_none.
Qed.
End LiteralPass.

Section EnvPass.
Variable env : string -> option string.

Lemma envAt_dollar (c : ascii) (s : string) :
  envAt (String c s) <> None -> c = "$"%char.
Proof.
  unfold envAt. cbn [dropPrefixCI].
  destruct (Ascii.eqb (foldCase "$") (foldCase c)) eqn:E.
  - intros _. now apply foldCase_dollar.
  - intros H. now elim H.
Qed.

Lemma envAt_token (key rest : string) :
  key <> EmptyString ->
  sall isEnvChar key = true ->
  envAt (("${env:" ++ key ++ "}") ++ rest)
  = Some (String.length ("${env:" ++ key ++ "}")).
Proof.
  intros N K. unfold envAt.
  rewrite sappend_assoc, dropPrefixCI_self, sappend_assoc.
  cbn [append].
  rewrite takeWhile_app_stop by reflexivity.
  rewrite (takeWhile_all _ _ K).
  rewrite dropWhile_stop by (assumption || reflexivity).
  destruct key as [|c key]; [contradiction|].
  cbn [Ascii.eqb Bool.eqb]. f_equal.
  cbn [String.length append]. rewrite slength_append.
  cbn [String.length]. lia.
Qed.

Lemma envKey_token (key : string) :
  envKey ("${env:" ++ key ++ "}") = key.
Proof.
  unfold envKey. cbn [String.length append sdrop].
  rewrite slength_append. cbn [String.length].
  replace (S (S (S (S (S (S (String.length key + 1)))))) - 7)
    with (String.length key) by lia.
  apply take_app_length.
Qed.

Lemma env_pass_from (toks outs : list string) :
  Forall2 (envPasses env) toks outs ->
  forall before,
    replaceFrom envAt
      (fun matched _ _ => match env (envKey matched) with
                          | Some v => v
                          | None => EmptyString
                          end) 0 before (concatAll toks)
    = concatAll outs.
Proof.
  induction 1 as [|tok out toks outs H _ IH]; intros before; [reflexivity|].
  cbn [concatAll fold_right]. fold (concatAll toks) (concatAll outs).
  destruct H as [(F & ->)|(key & -> & N & K & ->)].
  - rewrite (@replaceFrom_text envAt _ envAt_dollar) by assumption.
    now rewrite IH.
  - rewrite replaceFrom_match.
    + rewrite envKey_token. unfold envValue. now rewrite IH.
    + discriminate.
    + now apply envAt_token.
Qed.

Lemma env_pass (toks outs : list string) :
  Forall2 (envPasses env) toks outs ->
  replaceEnv env (concatAll toks) = concatAll outs.
Proof. intros H. unfold replaceEnv, replaceAll. now apply env_pass_from. Qed.
End EnvPass.

Lemma concatAll_single (s : string) : concatAll [s] = s.
Proof. cbn. apply sappend_nil_r. Qed.

Lemma plainPiece_filled (var : Piece) (v : string) (ps : list Piece) :
  freeOf "$" v = true ->
  forallb plainPiece ps = true ->
  forallb plainPiece (map (filled var v) ps) = true.
Proof.
  intros V. induction ps as [|p ps IH]; [reflexivity|].
  cbn [forallb map]. intros H. apply andb_prop in H as [Hp Hps].
  rewrite (IH Hps), andb_true_r.
  unfold filled. destruct (isVar var p); [exact V | exact Hp].
Qed.

(** One replacement of a variable, on the pieces. *)
Lemma literal_pass_pieces (var : Piece) (v : string) (ps : list Piece) :
  isVar var var = true ->
  freeOf "$" v = true ->
  forallb plainPiece ps = true ->
  replaceLiteral (token var) v (template ps)
  = template (map (filled var v) ps).
Proof.
  intros IsVar V P. unfold replaceLiteral, replaceAll, template.
  assert (L : exists l, token var = String "$" l)
    by (destruct var; try discriminate; eexists; reflexivity).
  destruct L as (l & L). rewrite L.
  apply literal_pass; [assumption|]. rewrite <- L. clear l L.
  induction ps as [|p ps IH]; [constructor|].
  cbn [forallb] in P. apply andb_prop in P as [Hp Hps].
  cbn [map]. constructor; [|now apply IH].
  unfold filled. destruct (isVar var p) eqn:E.
  - right. left. split; [|reflexivity].
    destruct var, p; try discriminate; reflexivity.
  - destruct p as [s| | | | |key].
    + left. now split.
    + right. right. exists "{home}". repeat split.
      destruct var; try discriminate; reflexivity.
    + right. right. exists "{project}". repeat split.
      destruct var; try discriminate; reflexivity.
    + right. right. exists "{workspace}". repeat split.
      destruct var; try discriminate; reflexivity.
    + right. right. exists "{date}". repeat split.
      destruct var; try discriminate; reflexivity.
    + right. right. exists ("{env:" ++ key ++ "}")%string.
      cbn [plainPiece] in Hp. apply andb_prop in Hp as [_ K].
      split; [reflexivity|]. split.
      * change (freeOf "$" ("{env:" ++ key ++ "}"))
          with (freeOf "$" (key ++ "}")).
        rewrite freeOf_append. now rewrite (envChar_not_dollar _ K).
      * split; [|reflexivity].
        destruct var; try discriminate; reflexivity.
Qed.

(** X14.  A template expands to what its pieces stand for.  When the
    home directory, the project directory and the date have no dollar
    sign, the text of a template has none outside its variables, and the
    names of its environment variables are names, [expandTemplate]
    replaces every variable by its value (an environment variable that
    is not set by nothing, whatever its value holds) and leaves the text
    between them as it is; the date is the one given, or else the date of
    the clock reading; the result is taken as it is when it is absolute
    and joined to the project directory otherwise. *)
Theorem expandTemplate_fills_in_the_variables :
  forall (homedir : string) (env : string -> option string)
         (isAbsolute : string -> bool) (pathJoin : list string -> string)
         (projectDir : string) (dateOverride : option string)
         (ps : list Piece) (w : World),
    let date := match dateOverride with
                | Some d => if isEmpty d then datePart (timeline w (clock w))
                            else d
                | None => datePart (timeline w (clock w))
                end in
    freeOf "$" homedir = true ->
    freeOf "$" projectDir = true ->
    freeOf "$" date = true ->
    forallb plainPiece ps = true ->
    let resolved :=
      concatAll (map (pieceValue homedir env projectDir date) ps) in
    resolveTemplate homedir env (template ps) projectDir date = resolved
    /\ expandTemplate homedir env isAbsolute pathJoin (template ps)
         projectDir dateOverride w
       = (if isAbsolute resolved then resolved
          else pathJoin [projectDir; resolved], tick w).
Proof.
  intros homedir env isAbsolute pathJoin projectDir dateOverride ps w date
    Hh Hp Hd P resolved.
  assert (R : resolveTemplate homedir env (template ps) projectDir date
              = resolved).
  { unfold resolveTemplate.
    change "${home}" with (token VarHome).
    change "${project}" with (token VarProject).
    change "${workspace}" with (token VarWorkspace).
    change "${date}" with (token VarDate).
    rewrite literal_pass_pieces by (reflexivity || assumption).
    rewrite literal_pass_pieces
      by (reflexivity || assumption || now apply plainPiece_filled).
    rewrite literal_pass_pieces
      by (reflexivity || assumption
          || now repeat apply plainPiece_filled).
    rewrite literal_pass_pieces
      by (reflexivity || assumption
          || now repeat apply plainPiece_filled).
    unfold template, resolved. rewrite !map_map. apply env_pass.
    clear resolved. induction ps as [|p ps IH]; [constructor|].
    cbn [forallb] in P. apply andb_prop in P as [Pp Pps].
    cbn [map]. constructor; [|now apply IH].
    destruct p as [s| | | | |key]; cbn [filled isVar token pieceValue].
    - left. now split.
    - left. now split.
    - left. now split.
    - left. now split.
    - left. now split.
    - right. exists key. cbn [plainPiece] in Pp.
      apply andb_prop in Pp as [N K]. repeat split; try assumption.
      intros ->. discriminate. }
  split; [exact R|].
  rewrite expandTemplate_run. cbv zeta. fold date. now rewrite R.
Qed.

Lemma expandTemplate_fills_in_the_variables_witness :
  freeOf "$" "/home/u" = true
  /\ freeOf "$" "/tmp/repo" = true
  /\ freeOf "$" "2026-02-20" = true
  /\ forallb plainPiece [VarProject; Text "/logs/"; VarDate] = true
  /\ fst (expandTemplate "/home/u" (fun _ => None) posixAbsolute slashJoin
            "${project}/logs/${date}" "/tmp/repo" (Some "2026-02-20")
            settingsWorld)
     = "/tmp/repo/logs/2026-02-20".
Proof.
  repeat (split; [reflexivity|]).
  change "${project}/logs/${date}"
    with (template [VarProject; Text "/logs/"; VarDate]).
  rewrite (proj2 (expandTemplate_fills_in_the_variables "/home/u"
                    (fun _ => None) posixAbsolute slashJoin "/tmp/repo"
                    (Some "2026-02-20") [VarProject; Text "/logs/"; VarDate]
                    settingsWorld eq_refl eq_refl eq_refl eq_refl)).
  reflexivity.
Defined.

(** ** logger_set *)

Lemma asStrings_map (l : list string) : asStrings (map JStr l) = Some l.
Proof.
  induction l as [|x l IH]; [reflexivity|].
  cbn [map asStrings]. now rewrite IH.
Qed.

Lemma assocGet_spread_set (V : Type) (k : string) (v : V)
    (o p : list (string * V)) :
  assocGet k (objectLiteral p) = Some v ->
  assocGet k (assocSpread o p) = Some v.
Proof.
  intros H. rewrite assocGet_assocSpread.
  unfold objectLiteral in H. now rewrite H.
Qed.

Lemma assocGet_spread_kept (V : Type) (k : string)
    (o p : list (string * V)) :
  assocGet k (objectLiteral p) = None ->
  assocGet k (assocSpread o p) = assocGet k o.
Proof.
  intros H. rewrite assocGet_assocSpread.
  unfold objectLiteral in H. now rewrite H.
Qed.

(** The object [setLogger] persists, read back as a patch, sets the
    logger to the logger it was written from. *)
Lemma persisted_logger (st base : PluginSettings) (existing : Json) :
  logger (mergeSettings base (Some (asSettingsFile (persisted st existing))))
  = logger st.
Proof.
  set (inner := assocSpread (spreadOf (field "logger" existing))
                  [("enabled", JBool (enabled (logger st)));
                   ("scopes", JArr (map JStr (scopes (logger st))));
                   ("dir", JStr (dir (logger st)))]).
  assert (L : field "logger" (persisted st existing) = JObj inner).
  { unfold persisted, field.
    now rewrite assocGet_spread_set with (v := JObj inner). }
  assert (E : field "enabled" (JObj inner) = JBool (enabled (logger st))).
  { unfold field, inner.
    now rewrite assocGet_spread_set with (v := JBool (enabled (logger st))). }
  assert (S : field "scopes" (JObj inner)
              = JArr (map JStr (scopes (logger st)))).
  { unfold field, inner.
    now rewrite assocGet_spread_set
      with (v := JArr (map JStr (scopes (logger st)))). }
  assert (D : field "dir" (JObj inner) = JStr (dir (logger st))).
  { unfold field, inner.
    now rewrite assocGet_spread_set with (v := JStr (dir (logger st))). }
  unfold asSettingsFile. rewrite L, E, S, D.
  unfold mergeSettings, loggerField, nullish.
  cbn [sf_logger logger lf_enabled lf_scopes lf_dir asBool asString
       asStringArray].
  rewrite asStrings_map. now destruct (logger st).
Qed.

(** It keeps every other key of the file. *)
Lemma persisted_keeps (st : PluginSettings) (existing : Json) (k : string) :
  String.eqb k "logger" = false ->
  String.eqb k "memoryDir" = false ->
  field k (persisted st existing) = field k (JObj (spreadOf existing)).
Proof.
  intros H1 H2. unfold persisted, field.
  rewrite assocGet_spread_kept; [reflexivity|].
  unfold objectLiteral, assocSpread. cbn [fold_left fst snd].
  rewrite !assocGet_assocSet, H1, H2. reflexivity.
Qed.

Section SetLogger.
Variable homedir : string.
Variable pathJoin : list string -> string.
Variable dirname : string -> string.
Variable parseJson : string -> option Json.
Variables (projectDir : string) (args : SetLoggerArgs) (w : World).

Let st : PluginSettings := loggerSet args (settings w).
Let w1 : World :=
  mkWorld st (sessionAgents w) (dirs w) (files w) (timeline w) (clock w)
          (journal w).
Let persist : Persist := nullish (l_persist args) PersistSession.
Let target : string := persistTarget homedir pathJoin projectDir persist.

Lemma setLogger_run :
  setLogger homedir pathJoin dirname parseJson projectDir args w
  = (setLoggerMessage st persist,
     match persist with
     | PersistSession => w1
     | _ =>
         written target
           (stringifyIndented EmptyString
              (persisted st (existingSettings parseJson target w))
            ++ String newline EmptyString)
           (ensured (dirname target) w1)
     end).
Proof.
  unfold target, persist, w1, st.
  unfold setLogger, bind, getSettings, setSettings, ret, loggerSet.
  destruct (l_persist args) as [[| |]|]; cbn [nullish persistTarget];
    try reflexivity;
    rewrite ensureDir_run, readSettingsFile_run; unfold writeFile;
    unfold existingSettings, settingsAt, hasFile, textOf;
    rewrite ensured_files; reflexivity.
Qed.
End SetLogger.

(** X15.  [setLogger] sets the logger and persists what it has set.  It
    replaces the [enabled] and [scopes] of the running settings by those
    given and keeps the rest, so that afterwards no scope is logged when
    it was turned off, and every scope when it was turned on for all
    scopes.  With [persist] absent or [session] it writes nothing.
    Otherwise it writes one file, the project or the global settings
    file, in a directory it makes sure of, and changes no other file;
    the object it writes has every key the file had besides [logger] and
    [memoryDir], and read back as a patch on any settings it sets the
    logger to the one that is running. *)
Theorem setLogger_sets_and_persists_the_logger :
  forall (homedir : string) (pathJoin : list string -> string)
         (dirname : string -> string) (parseJson : string -> option Json)
         (projectDir : string) (args : SetLoggerArgs) (w : World),
    let st := loggerSet args (settings w) in
    let persist := nullish (l_persist args) PersistSession in
    let target := persistTarget homedir pathJoin projectDir persist in
    let existing := existingSettings parseJson target w in
    let after :=
      snd (setLogger homedir pathJoin dirname parseJson projectDir args w) in
    settings after = st
    /\ (l_enabled args = Some false ->
        forall scope, fst (shouldLogScope scope after) = false)
    /\ (l_enabled args = Some true -> l_scopes args = Some [] ->
        forall scope, fst (shouldLogScope scope after) = true)
    /\ (persist = PersistSession ->
        files after = files w /\ dirs after = dirs w
        /\ journal after = journal w)
    /\ (persist <> PersistSession ->
        journal after
        = (journal w
           ++ [(target,
                (stringifyIndented EmptyString (persisted st existing)
                 ++ String newline EmptyString)%string)])%list
        /\ inStrings (dirname target) (dirs after) = true
        /\ forall p, String.eqb p target = false ->
                     textOf p after = textOf p w)
    /\ (forall base,
           logger (mergeSettings base
                     (asPatch (Some (persisted st existing))))
           = logger st)
    /\ (forall k, String.eqb k "logger" = false ->
                  String.eqb k "memoryDir" = false ->
                  field k (persisted st existing)
                  = field k (JObj (spreadOf existing))).
Proof.
  intros homedir pathJoin dirname parseJson projectDir args w st persist
    target existing after.
  assert (A : after
              = match persist with
                | PersistSession =>
                    mkWorld st (sessionAgents w) (dirs w) (files w)
                            (timeline w) (clock w) (journal w)
                | _ =>
                    written target
                      (stringifyIndented EmptyString (persisted st existing)
                       ++ String newline EmptyString)
                      (ensured (dirname target)
                         (mkWorld st (sessionAgents w) (dirs w) (files w)
                                  (timeline w) (clock w) (journal w)))
                end).
  { unfold after. now rewrite setLogger_run. }
  assert (S : settings after = st).
  { rewrite A. destruct persist; [reflexivity| |];
      cbn [settings written]; now rewrite ensured_settings. }
  split; [exact S|].
  split.
  { intros E scope. rewrite shouldLogScope_run. cbn [fst].
    apply logsScope_disabled. rewrite S. unfold st, loggerSet.
    now rewrite E. }
  split.
  { intros E Sc scope. rewrite shouldLogScope_run. cbn [fst].
    unfold logsScope. rewrite S. unfold st, loggerSet.
    now rewrite E, Sc. }
  split.
  { intros P. rewrite A, P. repeat split. }
  split.
  { intros P. rewrite A.
    assert (W : forall x y : World,
               match persist with
               | PersistSession => x
               | _ => y
               end = y) by (intros x y; destruct persist; congruence).
    rewrite W. cbn [journal written dirs].
    rewrite ensured_journal. cbn [journal].
    split; [reflexivity|]. split; [apply dirs_ensured_self|].
    intros p Hp. rewrite textOf_written, Hp, ensured_textOf. reflexivity. }
  split.
  { intros base. apply persisted_logger. }
  intros k H1 H2. now apply persisted_keeps.
Qed.

(** ** Updating, then looking *)

Lemma setLine_split (i : nat) (v x : string) (lines : list string) :
  nth_error lines i = Some x ->
  lines = (firstn i lines ++ x :: skipn (S i) lines)%list
  /\ setLine i v lines = (firstn i lines ++ v :: skipn (S i) lines)%list.
Proof.
  revert i; induction lines as [|l lines IH]; intros [|i] H;
    try discriminate.
  - cbn in H. inversion H; subst. split; reflexivity.
  - cbn [nth_error] in H. destruct (IH i H) as (E1 & E2).
    cbn [firstn skipn setLine app]. rewrite E2. split; [|reflexivity].
    f_equal. exact E1.
Qed.

Lemma firstn_free (sep : ascii) (i : nat) (lines : list string) :
  (forall p, In p lines -> freeOf sep p = true) ->
  (forall p, In p (firstn i lines) -> freeOf sep p = true)
  /\ (forall p, In p (skipn i lines) -> freeOf sep p = true).
Proof.
  intros H. split; intros p Hp; apply H.
  - rewrite <- (firstn_skipn i lines). apply in_or_app. now left.
  - rewrite <- (firstn_skipn i lines). apply in_or_app. now right.
Qed.

(** Rewriting one line of a text changes the record of that line and no
    other. *)
Lemma parseAll_rewritten (text newLine line : string) (i : nat)
    (old new : Memory) :
  nth_error (splitOn newline text) i = Some line ->
  parseLine line = Some old ->
  parseLine newLine = Some new ->
  freeOf newline newLine = true ->
  exists before rest,
    parseAll (splitOn newline text) = (before ++ old :: rest)%list
    /\ parseAll (splitOn newline
                   (join (String newline EmptyString)
                      (setLine i newLine (splitOn newline text))))
       = (before ++ new :: rest)%list.
Proof.
  intros N Po Pn F.
  destruct (setLine_split i newLine _ N) as (E1 & E2).
  set (lines := splitOn newline text) in *.
  exists (parseAll (firstn i lines)), (parseAll (skipn (S i) lines)).
  split.
  - rewrite E1 at 1. rewrite parseAll_app. cbn [parseAll]. now rewrite Po.
  - rewrite E2, splitOn_join.
    + rewrite parseAll_app. cbn [parseAll]. now rewrite Pn.
    + now destruct (firstn i lines).
    + assert (Free : forall p, In p lines -> freeOf newline p = true)
        by (intros p Hp; now apply splitOn_free in Hp).
      intros p Hp. apply in_app_or in Hp as [Hp|[<-|Hp]].
      * now apply (proj1 (firstn_free newline i lines Free)).
      * exact F.
      * now apply (proj2 (firstn_free newline (S i) lines Free)).
Qed.

Lemma dayNames_rewritten (args : UpdateArgs) (t : Match) (w : World) :
  inStrings (filepath t) (map fst (files w)) = true ->
  dayNames (rewritten args t w) = dayNames w.
Proof.
  intros K. unfold rewritten.
  set (w1 := audited (memory t) ("Updated to: " ++ u_content args) w).
  set (w2 := written (filepath t) _ (tick w1)).
  assert (N1 : dayNames w1 = dayNames w) by apply dayNames_audited.
  assert (K1 : inStrings (filepath t) (map fst (files (tick w1))) = true).
  { unfold w1, audited; cbn [files written tick].
    apply inStrings_In. apply inStrings_In in K.
    rewrite assocSet_keys. rewrite ensured_files.
    destruct (assocGet (deletionsPath w) (files w)); [exact K|].
    apply in_or_app. now left. }
  assert (N2 : dayNames w2 = dayNames w).
  { unfold w2. rewrite dayNames_written_existing by exact K1.
    rewrite (dayNames_ext w1 (tick w1)) by reflexivity. exact N1. }
  destruct (logsScope (u_scope args) w2); [|exact N2].
  now rewrite dayNames_logged.
Qed.

Lemma rewritten_settings (args : UpdateArgs) (t : Match) (w : World) :
  settings (rewritten args t w) = settings w
  /\ (forall d, inStrings d (dirs w) = true ->
                inStrings d (dirs (rewritten args t w)) = true).
Proof.
  unfold rewritten.
  set (w1 := audited (memory t) ("Updated to: " ++ u_content args) w).
  set (w2 := written (filepath t) _ (tick w1)).
  assert (S2 : settings w2 = settings w).
  { unfold w2, w1; cbn [settings written tick]. apply audited_settings. }
  assert (D2 : forall d, inStrings d (dirs w) = true ->
                         inStrings d (dirs w2) = true).
  { intros d H. unfold w2, w1, audited; cbn [dirs written tick].
    now apply dirs_ensured. }
  destruct (logsScope (u_scope args) w2); [|now split].
  split.
  - unfold logged; cbn [settings written tick].
    now rewrite ensured_settings.
  - intros d H. unfold logged; cbn [dirs written tick].
    apply dirs_ensured. now apply D2.
Qed.



(** ** A query without words *)

Lemma isSpace_lowerChar (c : ascii) : isSpace (lowerChar c) = isSpace c.
Proof.
  destruct c as [[] [] [] [] [] [] [] []]; vm_compute; reflexivity.
Qed.

Lemma sall_isSpace_toLowerCase (s : string) :
  sall isSpace (toLowerCase s) = sall isSpace s.
Proof.
  unfold toLowerCase. induction s as [|c s IH]; [reflexivity|].
  cbn [smap sall]. now rewrite isSpace_lowerChar, IH.
Qed.

Lemma splitSpaces_blank (s : string) :
  sall isSpace s = true -> filterBoolean (splitSpaces s) = [].
Proof.
  unfold filterBoolean.
  induction s as [|c s IH]; [reflexivity|].
  cbn [sall]. intros H. apply andb_prop in H as [Hc Hs].
  cbn [splitSpaces]. rewrite Hc. destruct s as [|d s]; [reflexivity|].
  assert (Hd : isSpace d = true)
    by (cbn [sall] in Hs; now apply andb_prop in Hs as [Hd _]).
  rewrite Hd. now apply IH.
Qed.

(** X17.  A query of white space only matches nothing.  Such a query is
    not empty, so [recall] scores the records, but it has no words:
    every record scores zero and none is kept, whatever the other
    filters, and [recall] answers that nothing matches.  With several
    candidates [update] reports that none matched the query. *)
Theorem blank_query_matches_nothing :
  forall (q : string),
    isEmpty q = false ->
    sall isSpace q = true ->
    queryWords q = []
    /\ (forall args all,
           q_query args = Some q ->
           recallFilter args all = []
           /\ (all <> [] -> recallText args all = "No matching memories"))
    /\ (forall args m1 m2 rest,
           u_query args = Some q ->
           selectTarget args (m1 :: m2 :: rest)
           = inl (NoneMatchedQuery (List.length (m1 :: m2 :: rest)))).
Proof.
  intros q Hne Hb.
  assert (W : queryWords q = []).
  { unfold queryWords. apply splitSpaces_blank.
    now rewrite sall_isSpace_toLowerCase. }
  split; [exact W|]. split.
  - intros args all Hq.
    assert (F : recallFilter args all = []).
    { rewrite recallFilter_wanted.
      rewrite (filter_none (wanted args) all).
      - now destruct (truthy (q_query args)).
      - intros m _. unfold wanted. rewrite Hq, Hne, W.
        cbn [existsb orb]. apply andb_false_r. }
    split; [exact F|]. intros Hall. unfold recallText. rewrite F.
    destruct all; [contradiction | reflexivity].
  - intros args m1 m2 rest Hq. unfold selectTarget, truthy.
    rewrite Hq, Hne, W. cbn [negb].
    assert (E : filter (fun x : Match * nat => (0 <? snd x)%nat)
                  (map (fun m => (m, scoreMatch (memory m) []))
                       (m1 :: m2 :: rest)) = []).
    { apply filter_none. intros x Hx. apply in_map_iff in Hx as (m & <- & _).
      reflexivity. }
    now rewrite E.
Qed.

Lemma blank_query_matches_nothing_witness :
  isEmpty "  " = false
  /\ sall isSpace "  " = true
  /\ fst (recall (mkRecall None None (Some "  ") None) storeWorld)
     = "No matching memories".
Proof.
  split; [reflexivity|]. split; [reflexivity|].
  rewrite recall_run. cbn [fst].
  apply (proj2 (proj1 (proj2 (blank_query_matches_nothing "  "
                                eq_refl eq_refl))
                  (mkRecall None None (Some "  ") None)
                  (fst (getAllMemories storeWorld)) eq_refl)).
  vm_compute. discriminate.
Defined.

(** ** The store stays in good order *)

Lemma NoDup_distinctPaths (paths : list string) :
  NoDup paths -> distinctPaths paths = true.
Proof.
  induction 1 as [|p paths Hp _ IH]; [reflexivity|].
  cbn [distinctPaths]. rewrite IH, andb_true_r.
  apply negb_true_iff. destruct (inStrings p paths) eqn:E; [|reflexivity].
  apply inStrings_In in E. contradiction.
Qed.

Lemma distinct_written (p text : string) (w : World) :
  distinctPaths (map fst (files w)) = true ->
  distinctPaths (map fst (files (written p text w))) = true.
Proof.
  intros H. apply NoDup_distinctPaths. cbn [files written].
  apply assocSet_keys_NoDup. now apply distinctPaths_NoDup.
Qed.

Lemma distinct_ext (w w' : World) :
  files w' = files w ->
  distinctPaths (map fst (files w)) = true ->
  distinctPaths (map fst (files w')) = true.
Proof. now intros ->. Qed.

Lemma distinct_logged (payload : list (string * Json)) (w : World) :
  distinctPaths (map fst (files w)) = true ->
  distinctPaths (map fst (files (logged payload w))) = true.
Proof.
  intros H. unfold logged. apply distinct_written.
  cbn [files tick]. now rewrite ensured_files.
Qed.

Lemma distinct_audited (m : Memory) (reason : string) (w : World) :
  distinctPaths (map fst (files w)) = true ->
  distinctPaths (map fst (files (audited m reason w))) = true.
Proof.
  intros H. unfold audited. apply distinct_written.
  cbn [files tick]. now rewrite ensured_files.
Qed.

Lemma distinct_auditedAll (reason : string) (removed : list Memory) :
  forall w, distinctPaths (map fst (files w)) = true ->
            distinctPaths (map fst (files (auditedAll reason removed w)))
            = true.
Proof.
  unfold auditedAll.
  induction removed as [|m removed IH]; intros w H; [exact H|].
  cbn [fold_left]. apply IH. now apply distinct_audited.
Qed.

Lemma distinct_purgedAll (args : ForgetArgs) (names : list string) :
  forall w, distinctPaths (map fst (files w)) = true ->
            distinctPaths (map fst (files (purgedAll args names w))) = true.
Proof.
  induction names as [|n names IH]; intros w H; [exact H|].
  cbn [purgedAll]. destruct (String.eqb n deletionsName); [now apply IH|].
  apply IH. unfold purged. destruct (_ =? _)%nat; [exact H|].
  now apply distinct_written.
Qed.

Lemma join_snoc (sep y : string) (xs : list string) :
  xs <> [] ->
  join sep (xs ++ [y]) = (join sep xs ++ sep ++ y)%string.
Proof.
  induction xs as [|x [|x' xs] IH]; intros N.
  - contradiction.
  - reflexivity.
  - change ((x :: x' :: xs) ++ [y])%list with (x :: (x' :: xs) ++ [y])%list.
    cbn [app]. rewrite !join_cons.
    change (x' :: (xs ++ [y])%list) with ((x' :: xs) ++ [y])%list.
    rewrite IH by discriminate. now rewrite !sappend_assoc.
Qed.

Lemma terminated_snoc (text : string) :
  terminated (text ++ String newline EmptyString) = true.
Proof.
  unfold terminated. rewrite lastChar_append by discriminate. reflexivity.
Qed.

(** The lines of a text that is empty or ends with a line terminator:
    those before the last terminator, and an empty one. *)
Lemma terminated_lines (text : string) :
  terminated text = true ->
  exists lines,
    splitOn newline text = (lines ++ [EmptyString])%list
    /\ (lines = [] -> text = EmptyString).
Proof.
  unfold terminated. intros T.
  destruct (lastChar text) as [c|] eqn:E.
  - apply Ascii.eqb_eq in T. subst c.
    destruct (lastChar_inv _ E) as (pre & ->).
    exists (splitOn newline pre). rewrite splitOn_sep_app.
    split; [reflexivity|]. intros H. now apply splitOn_not_nil in H.
  - apply lastChar_None in E. subst text. exists []. now split.
Qed.

(** Lines that end with an empty line join to a text that is empty or
    ends with a line terminator. *)
Lemma terminated_join (lines : list string) :
  terminated (join (String newline EmptyString) (lines ++ [EmptyString]))
  = true.
Proof.
  destruct lines as [|l lines]; [reflexivity|].
  rewrite join_snoc by discriminate.
  rewrite <- sappend_assoc, sappend_nil_r.
  rewrite <- (sappend_nil_r (String newline EmptyString)) at 1.
  apply terminated_snoc.
Qed.

Lemma terminated_purgedText (argScope argType text : string) :
  terminated text = true ->
  terminated (purgedText argScope argType text) = true.
Proof.
  intros T. destruct (terminated_lines _ T) as (lines & E & _).
  unfold purgedText. rewrite E, filter_app. cbn [filter].
  unfold isTarget at 2. rewrite parseLine_empty. cbn [negb].
  apply terminated_join.
Qed.

Lemma setLine_app (i : nat) (v : string) (a b : list string) :
  i < List.length a ->
  setLine i v (a ++ b) = (setLine i v a ++ b)%list.
Proof.
  revert i; induction a as [|x a IH]; intros i H; [cbn in H; lia|].
  destruct i as [|i]; [reflexivity|].
  cbn [app setLine]. rewrite IH; [reflexivity | cbn in H; lia].
Qed.

Lemma terminated_rewritten (text line v : string) (i : nat) (m : Memory) :
  terminated text = true ->
  nth_error (splitOn newline text) i = Some line ->
  parseLine line = Some m ->
  terminated (join (String newline EmptyString)
                (setLine i v (splitOn newline text))) = true.
Proof.
  intros T N P. destruct (terminated_lines _ T) as (lines & E & _).
  rewrite E in *.
  assert (L : i < List.length lines).
  { destruct (Nat.lt_ge_cases i (List.length lines)) as [L|L]; [exact L|].
    rewrite nth_error_app2 in N by exact L.
    destruct (i - List.length lines) as [|k]; cbn in N.
    - inversion N; subst line. rewrite parseLine_empty in P. discriminate.
    - now destruct k. }
  rewrite setLine_app by exact L. apply terminated_join.
Qed.

Lemma wellTerminated_ext (w w' : World) :
  settings w' = settings w ->
  (forall n, In n (dayNames w') ->
             In n (dayNames w)
             /\ textOf (memoryFile w n) w' = textOf (memoryFile w n) w) ->
  wellTerminated w = true -> wellTerminated w' = true.
Proof.
  intros S H W. unfold wellTerminated in *.
  rewrite forallb_forall in *. intros n Hn.
  destruct (H n Hn) as (I & T).
  unfold memoryFile at 1. rewrite S. fold (memoryFile w n).
  rewrite T. now apply W.
Qed.

Lemma wellTerminated_logged (payload : list (string * Json)) (w : World) :
  wellTerminated w = true -> wellTerminated (logged payload w) = true.
Proof.
  apply wellTerminated_ext.
  - unfold logged; cbn [settings written tick]. apply ensured_settings.
  - intros n Hn. rewrite dayNames_logged in Hn. split; [exact Hn|].
    rewrite textOf_logged.
    destruct (String.eqb (memoryFile w n) (logPath w)) eqn:E;
      [|reflexivity].
    apply String.eqb_eq in E. exfalso.
    unfold dayNames in Hn. apply filter_In in Hn as [Hin _].
    apply scanNames_In in Hin as [Hext _].
    now apply (logPath_not_logfmt w w) in Hext.
Qed.

Lemma soundStore_logged (payload : list (string * Json)) (w : World) :
  soundStore w = true -> soundStore (logged payload w) = true.
Proof.
  unfold soundStore. intros H. apply andb_prop in H as [D W].
  now rewrite distinct_logged, wellTerminated_logged.
Qed.

Lemma soundStore_hooked (scope : string) (event : list (string * Json))
    (w : World) :
  soundStore w = true -> soundStore (hooked scope event w) = true.
Proof.
  intros H. unfold hooked.
  destruct (logsScope scope (tick w)); [|exact H].
  now apply soundStore_logged.
Qed.

Lemma soundStore_remembered (args : RememberArgs) (w : World) :
  soundStore w = true -> soundStore (remembered args w) = true.
Proof.
  intros H. unfold remembered.
  set (file := memoryFile w (todayName w)).
  set (text' := (textOf file w ++ encodeMemory (rememberedRecord args w)
                 ++ String newline EmptyString)%string).
  set (w3 := written file text'
               (tick (tick (ensured (memoryDir (settings w)) w)))).
  set (event := objectLiteral _).
  assert (S3 : soundStore w3 = true).
  { unfold soundStore in *. apply andb_prop in H as [D W].
    assert (D3 : distinctPaths (map fst (files w3)) = true).
    { unfold w3. apply distinct_written. cbn [files tick].
      now rewrite ensured_files. }
    rewrite D3. cbn [andb].
    unfold wellTerminated in *. rewrite forallb_forall in *.
    intros n Hn.
    assert (S : settings w3 = settings w)
      by (unfold w3; cbn [settings written tick]; apply ensured_settings).
    unfold memoryFile at 1. rewrite S. fold (memoryFile w n).
    unfold w3 at 1. rewrite textOf_written.
    repeat change (textOf ?p (tick ?x)) with (textOf p x).
    rewrite ensured_textOf.
    destruct (String.eqb (memoryFile w n) file) eqn:E.
    - unfold text'. rewrite <- sappend_assoc. apply terminated_snoc.
    - apply W. unfold dayNames, scannedNames, w3 in Hn.
      cbn [settings files written tick] in Hn.
      rewrite ensured_settings, ensured_files, scanNames_assocSet in Hn.
      destruct (inStrings file (map fst (files w))); [exact Hn|].
      rewrite filter_app in Hn. apply in_app_or in Hn as [Hn|Hn];
        [exact Hn|].
      apply filter_In in Hn as [Hn _].
      apply scanNames_In in Hn as (_ & t & [Hn|[]]).
      apply (f_equal fst) in Hn. cbn [fst] in Hn.
      fold (memoryFile w n) in Hn. rewrite Hn, String.eqb_refl in E.
      discriminate. }
  destruct (logsScope (r_scope args) w3); [|exact S3].
  now apply soundStore_logged.
Qed.

Lemma soundStore_rewritten (args : UpdateArgs) (t : Match) (w : World) :
  In t (scanMatches (u_scope args) (u_type args) w (scannedNames w) []) ->
  soundStore w = true -> soundStore (rewritten args t w) = true.
Proof.
  intros Ht H.
  apply scanMatches_In in Ht
    as (name & Hname & Hpath & line & Hline & Hparse & _).
  assert (Hday : isDayFile name = true /\ In name (scannedNames w)).
  { unfold dayNames in Hname. apply filter_In in Hname. tauto. }
  destruct Hday as (Hday & Hscan).
  assert (apart : filepath t <> deletionsPath w).
  { rewrite Hpath. unfold deletionsPath. intros E.
    apply memoryFile_inj in E. subst name.
    unfold isDayFile in Hday. now rewrite String.eqb_refl in Hday. }
  assert (Key : inStrings (filepath t) (map fst (files w)) = true)
    by (rewrite Hpath; now apply scannedNames_key).
  unfold soundStore in *. apply andb_prop in H as [D W].
  apply andb_true_intro. split.
  - unfold rewritten.
    set (w1 := audited (memory t) ("Updated to: " ++ u_content args) w).
    set (w2 := written (filepath t) _ (tick w1)).
    assert (D2 : distinctPaths (map fst (files w2)) = true).
    { unfold w2. apply distinct_written. cbn [files tick]. unfold w1.
      now apply distinct_audited. }
    destruct (logsScope (u_scope args) w2); [|exact D2].
    now apply distinct_logged.
  - unfold wellTerminated in *. rewrite forallb_forall in *.
    rewrite (dayNames_rewritten args t w Key).
    intros n Hn. pose proof Hn as Hn'.
    unfold dayNames in Hn'. apply filter_In in Hn' as [Hin Hnd].
    apply scanNames_In in Hin as [Hext _].
    unfold memoryFile at 1. rewrite (proj1 (rewritten_settings args t w)).
    fold (memoryFile w n).
    rewrite rewritten_textOf; [|assumption | now apply lastChar_logfmt].
    destruct (String.eqb (memoryFile w n) (filepath t)) eqn:E.
    + apply terminated_rewritten with (m := memory t) (line := line);
        [|assumption..].
      rewrite Hpath. now apply W.
    + destruct (String.eqb (memoryFile w n) (deletionsPath w)) eqn:E'.
      * apply String.eqb_eq, memoryFile_inj in E'. subst n.
        unfold isDayFile in Hnd. now rewrite String.eqb_refl in Hnd.
      * now apply W.
Qed.

Lemma soundStore_forgotten (args : ForgetArgs) (w : World) :
  soundStore w = true -> soundStore (snd (forgetOutcome args w)) = true.
Proof.
  intros H. pose proof H as H0.
  unfold soundStore in H. apply andb_prop in H as [D W].
  destruct (inStrings (memoryDir (settings w)) (dirs w)) eqn:Hdir.
  - destruct (forget_store args w Hdir D) as (S & _ & N & T).
    unfold soundStore. apply andb_true_intro. split.
    + rewrite forgetOutcome_run, Hdir.
      destruct (scannedNames w) as [|n0 names0] eqn:E; [exact D|].
      rewrite <- E. cbv zeta. cbn [snd].
      set (w1 := auditedAll _ _ _).
      assert (D1 : distinctPaths (map fst (files w1)) = true).
      { unfold w1. apply distinct_auditedAll. now apply distinct_purgedAll. }
      destruct (logsScope (f_scope args) (tick w1)); [|exact D1].
      now apply distinct_logged.
    + unfold wellTerminated in *. rewrite forallb_forall in *.
      rewrite N. intros n Hn.
      unfold memoryFile at 1. rewrite S. fold (memoryFile w n).
      rewrite (T n Hn). apply terminated_purgedText. now apply W.
  - now rewrite forgetOutcome_run, Hdir.
Qed.

(** X18.  The tools keep the store in good order.  When no two entries
    of the file system have the same path and every day file is empty or
    ends with a line terminator, the same holds after [remember], after
    [update], after [forget] and after each of the three hooks, whatever
    their arguments: in a store that only the plugin writes to, every
    day file stays ended by a line terminator. *)
Theorem tools_keep_the_store_in_good_order :
  forall w : World,
    soundStore w = true ->
    (forall args, soundStore (snd (remember args w)) = true)
    /\ (forall args, soundStore (snd (update args w)) = true)
    /\ (forall args, soundStore (snd (forget args w)) = true)
    /\ (forall input parts,
           soundStore (snd (chatMessage input parts w)) = true)
    /\ (forall input args,
           soundStore (snd (toolExecuteBefore input args w)) = true)
    /\ (forall input metadata title output,
           soundStore (snd (toolExecuteAfter input metadata title output w))
           = true).
Proof.
  intros w H. split; [|split; [|split; [|split; [|split]]]].
  - intros args. rewrite remember_run. cbn [snd].
    now apply soundStore_remembered.
  - intros args. rewrite update_world, updateOutcome_run.
    destruct (inStrings (memoryDir (settings w)) (dirs w)); [|exact H].
    destruct (scannedNames w) as [|n0 names0] eqn:E; [exact H|].
    rewrite <- E.
    destruct (selectTarget args _) as [o|t] eqn:Sel; [exact H|].
    cbn [snd]. apply soundStore_rewritten; [|exact H].
    now apply selectTarget_In in Sel.
  - intros args. rewrite forget_world. now apply soundStore_forgotten.
  - intros input parts. rewrite chatMessage_run. cbn [snd].
    apply soundStore_hooked.
    destruct (noted_frame (c_sessionID input) (c_agent input) w)
      as (Hs & _ & Hf & _).
    unfold soundStore, wellTerminated, dayNames, scannedNames, memoryFile,
      textOf in *.
    now rewrite Hs, Hf.
  - intros input args. rewrite toolExecuteBefore_run. cbn [snd].
    now apply soundStore_hooked.
  - intros input metadata title output. rewrite toolExecuteAfter_run.
    cbn [snd]. now apply soundStore_hooked.
Qed.

Lemma tools_keep_the_store_in_good_order_witness :
  soundStore storeWorld = true
  /\ soundStore (snd (forget forgetBlockers
                        (snd (remember jwtMemory storeWorld)))) = true.
Proof.
  assert (H : soundStore storeWorld = true) by (vm_compute; reflexivity).
  split; [exact H|].
  pose proof (proj1 (tools_keep_the_store_in_good_order storeWorld H)
                jwtMemory) as H1.
  exact (proj1 (proj2 (proj2
           (tools_keep_the_store_in_good_order
              (snd (remember jwtMemory storeWorld)) H1))) forgetBlockers).
Defined.

(** ** The audit line *)

Section AuditLine.
Variables (now ots ty sc co tail : string).
Hypothesis clean_now : cleanToken now = true.
Hypothesis clean_ots : cleanToken ots = true.
Hypothesis clean_type : cleanToken ty = true.
Hypothesis clean_scope : cleanToken sc = true.
Hypothesis plain_content : sall notQuote co = true.

Let line : string :=
  "ts=" ++ now ++ " action=deleted original_ts=" ++ ots
  ++ " type=" ++ ty ++ " scope=" ++ sc
  ++ " content=" ++ String dquote (co ++ String dquote tail).

Lemma audit_ts : scanField "ts" line = Some now.
Proof.
  apply scanField_here. unfold line.
  apply (fieldAt_token "ts"); [exact clean_now | reflexivity].
Qed.

Lemma audit_type : scanField "type" line = Some ty.
Proof.
  unfold line. cbn [append]. skip_literal. skip_token clean_now.
  skip_literal. skip_token clean_ots. skip_literal.
  apply scanField_here.
  apply (fieldAt_token "type"); [exact clean_type | reflexivity].
Qed.

Lemma audit_scope : scanField "scope" line = Some sc.
Proof.
  unfold line. cbn [append]. skip_literal. skip_token clean_now.
  skip_literal. skip_token clean_ots. skip_literal.
  skip_token clean_type. skip_literal.
  apply scanField_here.
  apply (fieldAt_token "scope"); [exact clean_scope | reflexivity].
Qed.

Lemma audit_content : scanContent line = Some co.
Proof.
  unfold line. cbn [append].
  repeat (rewrite scanContent_step by reflexivity).
  rewrite scanContent_skip;
    [ | apply includes_free with (c := "="%char);
        [apply (cleanToken_inv _ clean_now) | reflexivity]
      | reflexivity ].
  repeat (rewrite scanContent_step by reflexivity).
  rewrite scanContent_skip;
    [ | apply includes_free with (c := "="%char);
        [apply (cleanToken_inv _ clean_ots) | reflexivity]
      | reflexivity ].
  repeat (rewrite scanContent_step by reflexivity).
  rewrite scanContent_skip;
    [ | apply includes_free with (c := "="%char);
        [apply (cleanToken_inv _ clean_type) | reflexivity]
      | reflexivity ].
  repeat (rewrite scanContent_step by reflexivity).
  rewrite scanContent_skip;
    [ | apply includes_free with (c := "="%char);
        [apply (cleanToken_inv _ clean_scope) | reflexivity]
      | reflexivity ].
  repeat (rewrite scanContent_step by reflexivity).
  apply scanContent_here. now apply contentAt_quoted.
Qed.

Lemma audit_issue :
  includes co "issue=" = false ->
  scanField "issue" line = scanField "issue" tail.
Proof.
  intros I. unfold line. cbn [append]. skip_literal. skip_token clean_now.
  skip_literal. skip_token clean_ots. skip_literal.
  skip_token clean_type. skip_literal. skip_token clean_scope.
  skip_literal.
  rewrite scanField_skip by (assumption || reflexivity).
  now skip_literal.
Qed.

Lemma audit_tags :
  includes co "tags=" = false ->
  scanField "tags" line = scanField "tags" tail.
Proof.
  intros I. unfold line. cbn [append]. skip_literal. skip_token clean_now.
  skip_literal. skip_token clean_ots. skip_literal.
  skip_token clean_type. skip_literal. skip_token clean_scope.
  skip_literal.
  rewrite scanField_skip by (assumption || reflexivity).
  now skip_literal.
Qed.
End AuditLine.

Lemma reason_issue (reason tail : string) :
  includes reason "issue=" = false ->
  scanField "issue"
    (" reason=" ++ String dquote (reason ++ String dquote tail))
  = scanField "issue" tail.
Proof.
  intros I. cbn [append]. skip_literal.
  rewrite scanField_skip by (assumption || reflexivity).
  now skip_literal.
Qed.

Lemma reason_tags (reason tail : string) :
  includes reason "tags=" = false ->
  scanField "tags"
    (" reason=" ++ String dquote (reason ++ String dquote tail))
  = scanField "tags" tail.
Proof.
  intros I. cbn [append]. skip_literal.
  rewrite scanField_skip by (assumption || reflexivity).
  now skip_literal.
Qed.

Lemma deletionLine_clean (now reason : string) (m : Memory) :
  sall notQuote (content m) = true ->
  sall notQuote reason = true ->
  deletionLine now m reason
  = (("ts=" ++ now ++ " action=deleted original_ts=" ++ ts m
      ++ " type=" ++ type m ++ " scope=" ++ scope m ++ " content="
      ++ String dquote
           (content m
            ++ String dquote
                 (" reason="
                  ++ String dquote
                       (reason
                        ++ String dquote (issueToken (issue m)
                                          ++ tagsToken (tags m))))))
     ++ String newline EmptyString)%string.
Proof.
  intros Hc Hr. unfold deletionLine, quoted.
  rewrite !escapeQuotes_plain by assumption.
  cbn [append]. repeat rewrite sappend_assoc. cbn [append].
  repeat (rewrite sappend_assoc; cbn [append]).
  reflexivity.
Qed.



(** ** The status answer *)

(** X20 (loggerStatus, settingsToJSON, mergeSettings): the status tool
    changes nothing, and the object it prints is a complete settings
    file: every setting is there at its declared type, so that merging
    it as a patch over any base gives back the running settings, with
    no setting left to the base. *)
Theorem loggerStatus_prints_a_complete_settings_file :
  forall (w : World) (base : PluginSettings),
    loggerStatus w = (settingsToJSON (settings w), w)
    /\ declared (settingsJson (settings w)) = true
    /\ mergeSettings base (asPatch (Some (settingsJson (settings w))))
       = settings w.
Proof.
  intros w base. split; [reflexivity|].
  destruct (settings w) as [md [en sc d]].
  unfold declared, asPatch, asSettingsFile, settingsJson, mergeSettings,
    loggerField. cbn -[asStrings].
  rewrite asStrings_map. cbn. split; reflexivity.
Qed.
